(** * linter-eslint: the worker helpers ([src/worker-helpers.js])

    A shallow embedding of the helper functions the lint worker uses to
    pick an ESLint installation, to find the configuration and ignore
    files of a source file and to build the options of ESLint's
    [CLIEngine], followed by the properties the specification states
    about them.

    The helpers are written against Node's [path], [fs], [child_process]
    and [require], and against atom-linter's [findCached].  Paths are
    the strings the code manipulates; the file system, the module loader
    and the package manager are the components of an environment record;
    the module-level [Cache] object and the process working directory
    make up the mutable state that is threaded through every call. *)

From Stdlib Require Import Ascii String.
From stdpp Require Import base option list strings gmap.

Local Open Scope string_scope.

(** ** Node's [path] module, POSIX flavour *)

Module Path.

Definition sep : ascii := "/"%char.

Definition isSep (c : ascii) : bool := Ascii.eqb c sep.

(** [s.split('/')]: always at least one chunk, empty chunks are kept. *)
Fixpoint split (s : string) : list string :=
  match s with
  | EmptyString => [""]
  | String c rest =>
      if isSep c then "" :: split rest
      else match split rest with
           | [] => [String c ""]
           | chunk :: chunks => String c chunk :: chunks
           end
  end.

(** [chunks.join('/')] *)
Fixpoint joinSep (chunks : list string) : string :=
  match chunks with
  | [] => ""
  | [chunk] => chunk
  | chunk :: rest => chunk ++ "/" ++ joinSep rest
  end.

Definition isAbsolute (path : string) : bool :=
  match path with
  | String c _ => isSep c
  | EmptyString => false
  end.

Fixpoint endsWithSep (path : string) : bool :=
  match path with
  | EmptyString => false
  | String c EmptyString => isSep c
  | String _ rest => endsWithSep rest
  end.

(** One segment of [normalizeString]: [res] is the stack of segments
    kept so far, innermost first. *)
Definition normalizeStep (allowAboveRoot : bool) (res : list string)
    (segment : string) : list string :=
  if String.eqb segment "" || String.eqb segment "." then res
  else if String.eqb segment ".." then
    match res with
    | top :: below =>
        if String.eqb top ".." then
          (if allowAboveRoot then ".." :: res else res)
        else below
    | [] => if allowAboveRoot then [".."] else []
    end
  else segment :: res.

Definition normalizeString (path : string) (allowAboveRoot : bool) : string :=
  joinSep (rev (fold_left (normalizeStep allowAboveRoot) (split path) [])).

Definition normalize (path : string) : string :=
  if String.eqb path "" then "."
  else
    let isAbs := isAbsolute path in
    let trailingSeparator := endsWithSep path in
    let body := normalizeString path (negb isAbs) in
    if String.eqb body "" then
      (if isAbs then "/" else if trailingSeparator then "./" else ".")
    else
      let body := if trailingSeparator then body ++ "/" else body in
      if isAbs then "/" ++ body else body.

Definition join (paths : list string) : string :=
  match filter (λ p, p ≠ "") paths with
  | [] => "."
  | parts => normalize (joinSep parts)
  end.

(** The right-to-left loop of [resolve]: stops at the first absolute
    argument.  [args] is given last argument first. *)
Fixpoint resolveLoop (args : list string) (resolvedPath : string)
    : string * bool :=
  match args with
  | [] => (resolvedPath, false)
  | path :: earlier =>
      if String.eqb path "" then resolveLoop earlier resolvedPath
      else
        let resolvedPath := path ++ "/" ++ resolvedPath in
        if isAbsolute path then (resolvedPath, true)
        else resolveLoop earlier resolvedPath
  end.

(** [Path.resolve(...args)] in a process whose working directory is
    [cwd]. *)
Definition resolve (cwd : string) (args : list string) : string :=
  let '(resolvedPath, resolvedAbsolute) := resolveLoop (rev args ++ [cwd]) "" in
  let body := normalizeString resolvedPath (negb resolvedAbsolute) in
  if resolvedAbsolute then "/" ++ body
  else if String.eqb body "" then "." else body.

Fixpoint dropWhile {A} (p : A → bool) (l : list A) : list A :=
  match l with
  | [] => []
  | x :: rest => if p x then dropWhile p rest else l
  end.

Fixpoint takeWhile {A} (p : A → bool) (l : list A) : list A :=
  match l with
  | [] => []
  | x :: rest => if p x then x :: takeWhile p rest else []
  end.

Definition chars (s : string) : list ascii := list_ascii_of_string s.
Definition str (l : list ascii) : string := string_of_list_ascii l.

(** [Path.dirname]: scans from the end down to index 1, skipping the
    trailing separators and then the last segment. *)
Definition dirname (path : string) : string :=
  match chars path with
  | [] => "."
  | first :: rest =>
      let hasRoot := isSep first in
      let scanned := dropWhile (λ c, negb (isSep c)) (dropWhile isSep (rev rest)) in
      match scanned with
      | [] => if hasRoot then "/" else "."
      | _ :: before =>
          if hasRoot && bool_decide (before = []) then "//"
          else str (first :: rev before)
      end
  end.

(** [Path.basename] without the extension argument. *)
Definition basename (path : string) : string :=
  str (rev (takeWhile (λ c, negb (isSep c)) (dropWhile isSep (rev (chars path))))).

Fixpoint dropCommon (from to : list string) : list string * list string :=
  match from, to with
  | f :: from', t :: to' =>
      if String.eqb f t then dropCommon from' to' else (from, to)
  | _, _ => (from, to)
  end.

Definition segments (absolute : string) : list string :=
  filter (λ s, s ≠ "") (split absolute).

(** [Path.relative(from, to)]: both operands are resolved, the leading
    segments they share are dropped, and every segment left of [from]
    becomes one [..]. *)
Definition relative (cwd : string) (from to : string) : string :=
  if String.eqb from to then ""
  else
    let from := resolve cwd [from] in
    let to := resolve cwd [to] in
    if String.eqb from to then ""
    else
      let '(up, down) := dropCommon (segments from) (segments to) in
      joinSep (map (λ _, "..") up ++ down).

End Path.

(** ** Absolute directories

    The directories the editor hands to the worker are absolute and
    normalised: a [/] followed by names joined by [/]. *)

(** A string without separator. *)
Definition noSep (s : string) : bool :=
  forallb (λ c, negb (Path.isSep c)) (Path.chars s).

(** The name of a file or directory: not empty, not [.] or [..], no
    separator. *)
Definition isName (s : string) : bool :=
  negb (String.eqb s "") && negb (String.eqb s ".") && negb (String.eqb s "..")
  && noSep s.

(** A list of names. *)
Abbreviation areNames := (Forall (λ s : string, isName s = true)).

(** The absolute path whose segments are [segs]; the root for [[]]. *)
Definition absolute (segs : list string) : string := "/" ++ Path.joinSep segs.

(** A chunk of a path that normalisation drops or keeps as it is. *)
Definition chunkOK (chunk : string) : bool :=
  String.eqb chunk "" || isName chunk.

(** ** JavaScript values the helpers test and return *)

(** Settings and arguments that are a string, [null] or [undefined];
    [truthy] is the test JavaScript applies in [if (x)], [x ? a : b]
    and [x || y]. *)
Definition truthy (value : option string) : bool :=
  match value with
  | Some s => negb (String.eqb s "")
  | None => false
  end.

(** [value || ''] *)
Definition orEmpty (value : option string) : string :=
  match value with
  | Some s => s
  | None => ""
  end.

Definition isSpace (c : ascii) : bool :=
  let n := nat_of_ascii c in
  Nat.eqb n 32 || (Nat.leb 9 n && Nat.leb n 13).

(** [String.prototype.trim] *)
Definition trim (s : string) : string :=
  Path.str (rev (Path.dropWhile isSpace (rev (Path.dropWhile isSpace (Path.chars s))))).

(** What a thrown value looks like to the helpers: the three errors they
    create themselves are [Error]s told apart by their message, an
    exception raised by [require] is observed through its [code], and so
    is the system error [process.chdir] raises. *)
Inductive Exception :=
  | Error (message : string)
  | TypeError (message : string)
  | RequireError (code : option string)
  | ChdirError (code : string).

Definition PrefixResolutionError : Exception :=
  Error ("Unable to execute `npm get prefix`. Please make sure " ++
         "Atom is getting $PATH correctly.").

Definition PackageNotFoundError : Exception :=
  Error "ESLint not found, please ensure the global Node path is set correctly.".

Definition PackageNotFoundRestartError : Exception :=
  Error "ESLint not found, try restarting Atom to clear caches.".

(** A value obtained from [require]: the helpers only hand it on or
    read whether its [eslintConfig] property is truthy. *)
Record JsObject := {
  identity : string;
  eslintConfig : bool
}.

Inductive LoadResult :=
  | Loaded (exports : JsObject)
  | LoadThrows (code : option string).

(** The object [ChildProcess.spawnSync] returns.  When the command could
    not be started [output] is [null] and [error] is set; otherwise
    [output] is the array [[null, stdout, stderr]] and [status] the exit
    code ([null] when a signal ended the process). *)
Record SpawnSyncReturns := {
  status : option Z;
  output : option (list (option string));
  error : option string
}.

Definition exitedAbnormally (r : SpawnSyncReturns) : Prop :=
  error r = None ∧ status r ≠ Some 0%Z.

Definition couldNotSpawn (r : SpawnSyncReturns) : Prop :=
  is_Some (error r) ∧ output r = None.

(** What a path of the disk names: a directory or a plain file.
    Symbolic links are not modelled, so that the path under which a
    directory is reached is the path of the directory. *)
Inductive Node := Dir | File.

#[global] Instance Node_eq_dec : EqDecision Node.
Proof. solve_decision. Defined.

(** A disk is a tree: whatever it holds lies in a directory it holds
    (the root, [/], is its own parent). *)
Definition treeDisk (disk : gmap string Node) : Prop :=
  map_Forall (λ p _, disk !! Path.dirname p = Some Dir) disk.

#[global] Instance treeDisk_dec disk : Decision (treeDisk disk).
Proof. unfold treeDisk. apply _. Defined.

(** A disk given entry by entry is a tree when the check computes. *)
Definition checkedTree (disk : gmap string Node)
    (checked : Is_true (bool_decide (treeDisk disk))) : treeDisk disk :=
  bool_decide_unpack _ checked.

(** ** The environment of a worker process

    Everything the helpers consult and do not change: the files on disk
    (keyed by absolute, normalised path, and forming a tree), the module
    loader, the package manager, and the expansions of [fs.normalize]
    (home directory) and [resolveEnv] (environment variables). *)
Record Env := {
  fs : gmap string Node;
  fsTree : treeDisk fs;
  platform : string;
  __dirname : string;
  spawnSync : nat → string → list string → SpawnSyncReturns;
  require : string → LoadResult;
  fsNormalize : string → string;
  resolveEnv : string → string
}.

(** The module-level [Cache] object. *)
Record CacheT := {
  ESLINT_LOCAL_PATH : string;
  NODE_PREFIX_PATH : option string;
  LAST_MODULES_PATH : option string
}.

(** The mutable state of the process: [Cache], the working directory
    ([process.cwd()]) and the number of subprocesses started so far. *)
Record State := {
  Cache : CacheT;
  cwd : string;
  spawned : nat
}.

Definition initialCache (env : Env) : CacheT :=
  {| ESLINT_LOCAL_PATH :=
       Path.normalize (Path.join [__dirname env; ".."; "node_modules"; "eslint"]);
     NODE_PREFIX_PATH := None;
     LAST_MODULES_PATH := None |}.

Definition initialState (env : Env) (dir : string) : State :=
  {| Cache := initialCache env; cwd := dir; spawned := 0 |}.

(** ** Calls: state passing with exceptions *)

Inductive Outcome (A : Type) :=
  | Returns (value : A)
  | Throws (e : Exception).
Arguments Returns {A} value.
Arguments Throws {A} e.

Definition M (A : Type) : Type := State → Outcome A * State.

Definition ret {A} (a : A) : M A := λ st, (Returns a, st).

Definition bind {A B} (m : M A) (f : A → M B) : M B := λ st,
  match m st with
  | (Returns a, st') => f a st'
  | (Throws e, st') => (Throws e, st')
  end.

Notation "'let*' x ':=' m 'in' k" := (bind m (λ x, k))
  (at level 10, x pattern, m at level 100, k at level 200,
   format "'[v' 'let*'  x  ':='  m  'in' '/' k ']'").

Definition throw {A} (e : Exception) : M A := λ st, (Throws e, st).

(** [try { body } catch (e) { handler(e) }] *)
Definition tryCatch {A} (body : M A) (handler : Exception → M A) : M A := λ st,
  match body st with
  | (Returns a, st') => (Returns a, st')
  | (Throws e, st') => handler e st'
  end.

Definition getState : M State := λ st, (Returns st, st).

(** [array.map(callback)] with a callback that is a call. *)
Fixpoint arrayMap {A B} (callback : A → M B) (array : list A) : M (list B) :=
  match array with
  | [] => ret []
  | x :: rest =>
      let* y := callback x in
      let* ys := arrayMap callback rest in
      ret (y :: ys)
  end.

Definition setNodePrefixPath (value : string) : M unit := λ st,
  (Returns (),
   {| Cache := {| ESLINT_LOCAL_PATH := ESLINT_LOCAL_PATH (Cache st);
                  NODE_PREFIX_PATH := Some value;
                  LAST_MODULES_PATH := LAST_MODULES_PATH (Cache st) |};
      cwd := cwd st;
      spawned := spawned st |}).

(** The state after one more subprocess was started and its answer
    [prefix] stored in [Cache.NODE_PREFIX_PATH]. *)
Definition memoized (st : State) (prefix : string) : State :=
  {| Cache := {| ESLINT_LOCAL_PATH := ESLINT_LOCAL_PATH (Cache st);
                 NODE_PREFIX_PATH := Some prefix;
                 LAST_MODULES_PATH := LAST_MODULES_PATH (Cache st) |};
     cwd := cwd st;
     spawned := S (spawned st) |}.

(** ** Settings, locations and engine options *)

Inductive LocationType :=
  | global
  | local_project
  | advanced_specified
  | bundled_fallback.

(** What [findESLintDirectory] returns. *)
Record Location := {
  path : string;
  type : LocationType
}.

(** The settings of the package that the helpers read from [config]. *)
Record Config := {
  useGlobalEslint : bool;
  globalNodePath : option string;
  advancedLocalNodeModules : option string;
  disableEslintIgnore : bool;
  eslintRulesDirs : list string;
  eslintrcPath : option string
}.

(** The options object handed to [CLIEngine]; a property that is not
    set is [None]. *)
Record CLIEngineConfig (Rules : Type) := {
  rules : Rules;
  ignore : bool;
  fix_ : bool;
  ignorePath : option string;
  rulePaths : list string;
  configFile : option string
}.
Arguments rules {Rules} _.
Arguments ignore {Rules} _.
Arguments fix_ {Rules} _.
Arguments ignorePath {Rules} _.
Arguments rulePaths {Rules} _.
Arguments configFile {Rules} _.

(** ** The worker helpers *)

Section Worker.

Variable env : Env.

(** [ChildProcess.spawnSync(command, args, options)] *)
Definition spawn (command : string) (args : list string) : M SpawnSyncReturns := λ st,
  (Returns (spawnSync env (spawned st) command args),
   {| Cache := Cache st; cwd := cwd st; spawned := S (spawned st) |}).

(** [FS.accessSync(filePath, FS.R_OK)] succeeds, in a process whose
    working directory is [dir]. *)
Definition accessible (dir : string) (filePath : string) : bool :=
  bool_decide (is_Some (fs env !! Path.resolve dir [filePath])).

(** The [for (const fileName of names)] loop of atom-linter's [find]:
    the first name that is readable in [currentDir]. *)
Fixpoint findIn (dir : string) (currentDir : string) (names : list string)
    : option string :=
  match names with
  | [] => None
  | fileName :: others =>
      let filePath := Path.join [currentDir; fileName] in
      if accessible dir filePath then Some filePath
      else findIn dir currentDir others
  end.

(** The [while (chunks.length)] loop: [n] chunks of the directory are
    left, the directory they spell is probed, then the last is popped. *)
Fixpoint findFrom (dir : string) (directory : string) (chunks : list string)
    (names : list string) (n : nat) : option string :=
  match n with
  | 0 => None
  | S n' =>
      let currentDir := Path.joinSep (take n chunks) in
      let currentDir :=
        if String.eqb currentDir "" then Path.resolve dir [directory; "/"]
        else currentDir in
      match findIn dir currentDir names with
      | Some filePath => Some filePath
      | None => findFrom dir directory chunks names n'
      end
  end.

(** atom-linter's [find(directory, names)]: walk from [directory] up to
    the root and return the first of [names] found on the way. *)
Definition find (dir : string) (directory : string) (names : list string)
    : option string :=
  let chunks := Path.split directory in
  findFrom dir directory chunks names (length chunks).

(** atom-linter's [findCached]: [find] behind a memo table that is
    checked against the disk on every hit; with the files of [env] it
    returns what [find] returns. *)
Definition findCached (directory : string) (names : list string)
    : M (option string) :=
  let* st := getState in
  ret (find (cwd st) directory names).

Definition cleanPath (path : option string) : string :=
  match path with
  | Some p => if truthy path then resolveEnv env (fsNormalize env p) else ""
  | None => ""
  end.

Definition npmCommand : string :=
  if String.eqb (platform env) "win32" then "npm.cmd" else "npm".

Definition getNodePrefixPath : M string :=
  let* st := getState in
  match NODE_PREFIX_PATH (Cache st) with
  | None =>
      let* prefix :=
        tryCatch
          (let* r := spawn npmCommand ["get"; "prefix"] in
           match output r with
           | Some out =>
               match out !! 1 with
               | Some (Some stdout) => ret (trim stdout)
               | _ => throw (TypeError "Cannot read property 'toString'")
               end
           | None => throw (TypeError "Cannot read property '1' of null")
           end)
          (λ e, throw PrefixResolutionError) in
      let* _ := setNodePrefixPath prefix in
      ret prefix
  | Some prefix => ret prefix
  end.

(** [fs.statSync(dirPath).isDirectory()], [false] when [statSync]
    throws, for a process in state [st]. *)
Definition isDirectoryIn (st : State) (dirPath : string) : bool :=
  match fs env !! Path.resolve (cwd st) [dirPath] with
  | Some Dir => true
  | _ => false
  end.

Definition isDirectory (dirPath : string) : M bool :=
  let* st := getState in
  ret (isDirectoryIn st dirPath).

(** [process.chdir(directory)]: when [directory], resolved against the
    working directory, is a directory of the disk, it becomes the
    working directory; otherwise the call throws a system error,
    [ENOENT] for a path that does not exist (the empty path is one) and
    [ENOTDIR] for a file, and the working directory stays as it was.
    The disk has no symbolic links: the directory the process is in
    afterwards is the one the path spells. *)
Definition chdir (directory : string) : M unit := λ st,
  if String.eqb directory "" then (Throws (ChdirError "ENOENT"), st)
  else
    match fs env !! Path.resolve (cwd st) [directory] with
    | Some Dir =>
        (Returns (),
         {| Cache := Cache st;
            cwd := Path.resolve (cwd st) [directory];
            spawned := spawned st |})
    | Some File => (Throws (ChdirError "ENOTDIR"), st)
    | None => (Throws (ChdirError "ENOENT"), st)
    end.

(** [configGlobal || getNodePrefixPath()], the [prefixPath] of
    [findESLintDirectory]. *)
Definition globalPrefixPath (config : Config) : M string :=
  let configGlobal := cleanPath (globalNodePath config) in
  if String.eqb configGlobal "" then getNodePrefixPath
  else ret configGlobal.

Definition findESLintDirectory (modulesDir : option string) (config : Config)
    (projectPath : option string) : M Location :=
  let* (eslintDir, locationType) :=
    (if useGlobalEslint config then
       let* prefixPath := globalPrefixPath config in
       let eslintDir := Path.join [prefixPath; "node_modules"; "eslint"] in
       let* isDir := isDirectory eslintDir in
       if isDir then ret (eslintDir, global)
       else ret (Path.join [prefixPath; "lib"; "node_modules"; "eslint"], global)
     else if negb (truthy (advancedLocalNodeModules config)) then
       ret (Path.join [orEmpty modulesDir; "eslint"], local_project)
     else if Path.isAbsolute (cleanPath (advancedLocalNodeModules config)) then
       ret (Path.join [cleanPath (advancedLocalNodeModules config); "eslint"],
             advanced_specified)
     else
       ret (Path.join [orEmpty projectPath;
                        cleanPath (advancedLocalNodeModules config); "eslint"],
             advanced_specified)) in
  let* isDir := isDirectory eslintDir in
  if isDir then ret {| path := eslintDir; type := locationType |}
  else if useGlobalEslint config then throw PackageNotFoundError
  else
    let* st := getState in
    ret {| path := ESLINT_LOCAL_PATH (Cache st); type := bundled_fallback |}.

(** [require(id)] as a call: the loaded value or the loader's exception. *)
Definition load (id : string) : M JsObject :=
  match require env id with
  | Loaded exports => ret exports
  | LoadThrows code => throw (RequireError code)
  end.

Definition errorCode (e : Exception) : option string :=
  match e with
  | RequireError code => code
  | ChdirError code => Some code
  | _ => None
  end.

Definition getESLintFromDirectory (modulesDir : option string) (config : Config)
    (projectPath : option string) : M JsObject :=
  let* location := findESLintDirectory modulesDir config projectPath in
  let ESLintDirectory := path location in
  tryCatch (load ESLintDirectory)
    (λ e,
       if useGlobalEslint config
          && bool_decide (errorCode e = Some "MODULE_NOT_FOUND") then
         throw PackageNotFoundRestartError
       else
         let* st := getState in
         load (ESLINT_LOCAL_PATH (Cache st))).

Definition configFileNames : list string :=
  [".eslintrc.js"; ".eslintrc.yaml"; ".eslintrc.yml"; ".eslintrc.json";
   ".eslintrc"; "package.json"].

(** [getConfigPath] calls itself; [depth] bounds the nesting of those
    calls and [None] is the answer of a call that needs more.  The call
    only reads the state: [findCached] is [find] in the working
    directory of [st]. *)
Fixpoint getConfigPath (depth : nat) (fileDir : string) (st : State)
    : option (Outcome (option string)) :=
  match depth with
  | 0 => None
  | S depth' =>
      let configFile := find (cwd st) fileDir configFileNames in
      if truthy configFile then
        let file := orEmpty configFile in
        if String.eqb (Path.basename file) "package.json" then
          match require env file with
          | LoadThrows code => Some (Throws (RequireError code))
          | Loaded manifest =>
              if eslintConfig manifest then Some (Returns configFile)
              else
                getConfigPath depth'
                  (Path.resolve (cwd st) [Path.dirname file; ".."]) st
          end
        else Some (Returns configFile)
      else Some (Returns None)
  end.

Definition getRelativePath (fileDir filePath : string) (config : Config)
    (projectPath : option string) : M string :=
  let* ignoreFile :=
    (if disableEslintIgnore config then ret None
     else findCached fileDir [".eslintignore"]) in
  if truthy ignoreFile then
    let ignoreDir := Path.dirname (orEmpty ignoreFile) in
    let* _ := chdir ignoreDir in
    let* st := getState in
    ret (Path.relative (cwd st) ignoreDir filePath)
  else if truthy projectPath then
    let* _ := chdir (orEmpty projectPath) in
    let* st := getState in
    ret (Path.relative (cwd st) (orEmpty projectPath) filePath)
  else
    let* _ := chdir fileDir in
    ret (Path.basename filePath).

Definition getCLIEngineOptions {Rules : Type} (type_ : string) (config : Config)
    (rules_ : Rules) (filePath fileDir : string)
    (givenConfigPath : option string) : M (CLIEngineConfig Rules) :=
  let ignore_ := negb (disableEslintIgnore config) in
  let fix__ := String.eqb type_ "fix" in
  let* ignoreFile :=
    (if disableEslintIgnore config then ret None
     else findCached fileDir [".eslintignore"]) in
  let ignorePath_ := if truthy ignoreFile then ignoreFile else None in
  let* found :=
    arrayMap (λ p,
      let rulesDir := cleanPath (Some p) in
      if negb (Path.isAbsolute rulesDir) then findCached fileDir [rulesDir]
      else ret (Some rulesDir)) (eslintRulesDirs config) in
  let rulePaths_ := omap (λ p, if truthy p then p else None) found in
  let configFile_ :=
    if bool_decide (givenConfigPath = None) && truthy (eslintrcPath config)
    then Some (cleanPath (eslintrcPath config))
    else None in
  ret {| rules := rules_; ignore := ignore_; fix_ := fix__;
          ignorePath := ignorePath_; rulePaths := rulePaths_;
          configFile := configFile_ |}.

End Worker.

(** ** Rule maps and [didRulesChange] *)

(** A JavaScript [Set] of rule ids: its elements in insertion order,
    each once. *)
Module JsSet.

Definition t := list string.

Definition has (x : string) (s : t) : bool := bool_decide (x ∈ s).

Definition add (x : string) (s : t) : t := if has x s then s else (s ++ [x])%list.

Definition delete (x : string) (s : t) : t := filter (λ y, y ≠ x) s.

(** [new Set(iterable)] *)
Definition from (iterable : list string) : t :=
  fold_left (λ s x, add x s) iterable [].

Definition size (s : t) : nat := length s.

(** [s.forEach(callback)], the callback acting on a value [A] *)
Definition forEach {A} (s : t) (callback : string → A → A) (a : A) : A :=
  fold_left (λ acc x, callback x acc) s a.

End JsSet.

(** A JavaScript [Map] from rule ids to rule properties: its entries in
    insertion order. *)
Definition JsMap (V : Type) := list (string * V).

Definition keys {V} (m : JsMap V) : list string := map fst m.

Definition didRulesChange {V} (currentRules newRules : JsMap V) : bool :=
  let rulesChanged := false in
  let currentRuleIds := JsSet.from (keys currentRules) in
  let newRuleIds := JsSet.from (keys newRules) in
  let newRulesIds := JsSet.from (keys newRules) in
  let newRulesIds :=
    JsSet.forEach currentRuleIds (λ rule ids, JsSet.delete rule ids) newRulesIds in
  let rulesChanged :=
    if Nat.ltb 0 (JsSet.size newRulesIds) then true else rulesChanged in
  let removedRuleIds := JsSet.from currentRuleIds in
  let removedRuleIds :=
    JsSet.forEach newRuleIds (λ rule ids, JsSet.delete rule ids) removedRuleIds in
  let rulesChanged :=
    if Nat.ltb 0 (JsSet.size removedRuleIds) then true else rulesChanged in
  rulesChanged.

(** The set of rule ids of a rule map. *)
Definition keySet {V} (m : JsMap V) : gset string := list_to_set (keys m).

(** ** Sample processes *)

Definition noSpawn : SpawnSyncReturns :=
  {| status := None; output := None; error := Some "spawnSync npm ENOENT" |}.

Definition newline : string := String (ascii_of_nat 10) "".

Definition npmPrints (stdout : string) : SpawnSyncReturns :=
  {| status := Some 0%Z; output := Some [None; Some stdout; Some ""]; error := None |}.

Definition npmFails : SpawnSyncReturns :=
  {| status := Some 1%Z;
     output := Some [None; Some ""; Some "npm ERR! code EJSONPARSE"];
     error := None |}.

Definition eslintModule (id : string) : JsObject :=
  {| identity := id; eslintConfig := false |}.

Definition bareManifest (id : string) : JsObject :=
  {| identity := id; eslintConfig := false |}.

Definition bundledPath : string := "/atom/packages/linter-eslint/node_modules/eslint".

(** A machine with a project [/a/b/c] whose only configuration candidate
    is [/a/package.json], which has no [eslintConfig] section, and whose
    ignore file is [/a/.eslintignore]; ESLint is installed in
    [/a/node_modules] and bundled with the package; npm reports the
    prefix [/usr/local], where no ESLint is installed. *)
Definition sampleDisk : gmap string Node :=
  list_to_map
    [("/", Dir); ("/a", Dir); ("/a/b", Dir); ("/a/b/c", Dir);
     ("/a/package.json", File); ("/a/.eslintignore", File);
     ("/a/b/c/index.js", File);
     ("/a/node_modules", Dir); ("/a/node_modules/eslint", Dir);
     ("/usr", Dir); ("/usr/local", Dir);
     ("/atom", Dir); ("/atom/packages", Dir);
     ("/atom/packages/linter-eslint", Dir);
     ("/atom/packages/linter-eslint/node_modules", Dir);
     ("/atom/packages/linter-eslint/node_modules/eslint", Dir)].

Definition sampleEnv : Env :=
  {| fs := sampleDisk;
     fsTree := checkedTree sampleDisk I;
     platform := "linux";
     __dirname := "/atom/packages/linter-eslint/src";
     spawnSync := λ _ _ _, npmPrints ("/usr/local" ++ newline);
     require := λ id,
       if String.eqb id "/a/package.json" then Loaded (bareManifest id)
       else if String.eqb id "/a/node_modules/eslint" then Loaded (eslintModule id)
       else if String.eqb id bundledPath then Loaded (eslintModule id)
       else LoadThrows (Some "MODULE_NOT_FOUND");
     fsNormalize := Path.normalize;
     resolveEnv := id |}.

(** The same machine with a [package.json] that has no [eslintConfig]
    section in the root directory and nowhere else. *)
Definition rootManifestDisk : gmap string Node :=
  list_to_map
    [("/", Dir); ("/a", Dir); ("/a/b", Dir); ("/package.json", File)].

Definition rootManifestEnv : Env :=
  {| fs := rootManifestDisk;
     fsTree := checkedTree rootManifestDisk I;
     platform := "linux";
     __dirname := "/atom/packages/linter-eslint/src";
     spawnSync := λ _ _ _, npmPrints "/usr/local";
     require := λ id,
       if String.eqb id "/package.json" then Loaded (bareManifest id)
       else LoadThrows (Some "MODULE_NOT_FOUND");
     fsNormalize := Path.normalize;
     resolveEnv := id |}.

(** A machine whose [npm get prefix] exits with status 1 and prints
    nothing on its standard output. *)
Definition npmFailsEnv : Env :=
  {| fs := fs sampleEnv;
     fsTree := fsTree sampleEnv;
     platform := "linux";
     __dirname := __dirname sampleEnv;
     spawnSync := λ _ _ _, npmFails;
     require := require sampleEnv;
     fsNormalize := Path.normalize;
     resolveEnv := id |}.

(** A machine without npm. *)
Definition noNpmEnv : Env :=
  {| fs := fs sampleEnv;
     fsTree := fsTree sampleEnv;
     platform := "win32";
     __dirname := __dirname sampleEnv;
     spawnSync := λ _ _ _, noSpawn;
     require := require sampleEnv;
     fsNormalize := Path.normalize;
     resolveEnv := id |}.

(** A machine whose global ESLint is installed in
    [/usr/local/lib/node_modules/eslint] but is broken: loading it raises
    a [SyntaxError], which carries no [code]. *)
Definition brokenGlobalDisk : gmap string Node :=
  list_to_map
    [("/", Dir); ("/usr", Dir); ("/usr/local", Dir); ("/usr/local/lib", Dir);
     ("/usr/local/lib/node_modules", Dir);
     ("/usr/local/lib/node_modules/eslint", Dir);
     ("/atom", Dir); ("/atom/packages", Dir);
     ("/atom/packages/linter-eslint", Dir);
     ("/atom/packages/linter-eslint/node_modules", Dir);
     ("/atom/packages/linter-eslint/node_modules/eslint", Dir)].

Definition brokenGlobalEnv : Env :=
  {| fs := brokenGlobalDisk;
     fsTree := checkedTree brokenGlobalDisk I;
     platform := "linux";
     __dirname := "/atom/packages/linter-eslint/src";
     spawnSync := λ _ _ _, npmPrints "/usr/local";
     require := λ id,
       if String.eqb id bundledPath then Loaded (eslintModule id)
       else if String.eqb id "/usr/local/lib/node_modules/eslint" then LoadThrows None
       else LoadThrows (Some "MODULE_NOT_FOUND");
     fsNormalize := Path.normalize;
     resolveEnv := id |}.

Definition defaultConfig : Config :=
  {| useGlobalEslint := false;
     globalNodePath := None;
     advancedLocalNodeModules := None;
     disableEslintIgnore := false;
     eslintRulesDirs := [];
     eslintrcPath := None |}.

Definition globalConfig : Config :=
  {| useGlobalEslint := true;
     globalNodePath := None;
     advancedLocalNodeModules := None;
     disableEslintIgnore := false;
     eslintRulesDirs := [];
     eslintrcPath := None |}.

Definition noIgnoreConfig : Config :=
  {| useGlobalEslint := false;
     globalNodePath := None;
     advancedLocalNodeModules := None;
     disableEslintIgnore := true;
     eslintRulesDirs := [];
     eslintrcPath := Some "~/.eslintrc" |}.

(** The paths [find] probes, in the order it probes them: for each
    directory from [directory] up to the root, every name in turn. *)
Fixpoint probesFrom (dir : string) (directory : string) (chunks : list string)
    (names : list string) (n : nat) : list string :=
  match n with
  | 0 => []
  | S n' =>
      let currentDir := Path.joinSep (take n chunks) in
      let currentDir :=
        if String.eqb currentDir "" then Path.resolve dir [directory; "/"]
        else currentDir in
      (map (λ fileName, Path.join [currentDir; fileName]) names
       ++ probesFrom dir directory chunks names n')%list
  end.

Definition probes (dir : string) (directory : string) (names : list string)
    : list string :=
  let chunks := Path.split directory in
  probesFrom dir directory chunks names (length chunks).

(** The entry of [rulePaths] that a rule directory gives, before the
    empty ones are filtered out. *)
Definition rulesDirIn (env : Env) (st : State) (fileDir : string) (p : string)
    : option string :=
  let rulesDir := cleanPath env (Some p) in
  if negb (Path.isAbsolute rulesDir) then find env (cwd st) fileDir [rulesDir]
  else Some rulesDir.

(** The calls a worker process makes on the helpers that run in its
    state, and the state a sequence of them leaves. *)
Inductive HelperCall :=
  | CallGetNodePrefixPath
  | CallFindESLintDirectory (modulesDir : option string) (config : Config)
      (projectPath : option string)
  | CallGetESLintFromDirectory (modulesDir : option string) (config : Config)
      (projectPath : option string)
  | CallGetRelativePath (fileDir filePath : string) (config : Config)
      (projectPath : option string)
  | CallGetCLIEngineOptions (type_ : string) (config : Config)
      (filePath fileDir : string) (givenConfigPath : option string).

Definition stateAfter (env : Env) (call : HelperCall) (st : State) : State :=
  match call with
  | CallGetNodePrefixPath => snd (getNodePrefixPath env st)
  | CallFindESLintDirectory modulesDir config projectPath =>
      snd (findESLintDirectory env modulesDir config projectPath st)
  | CallGetESLintFromDirectory modulesDir config projectPath =>
      snd (getESLintFromDirectory env modulesDir config projectPath st)
  | CallGetRelativePath fileDir filePath config projectPath =>
      snd (getRelativePath env fileDir filePath config projectPath st)
  | CallGetCLIEngineOptions type_ config filePath fileDir givenConfigPath =>
      snd (getCLIEngineOptions env type_ config () filePath fileDir
             givenConfigPath st)
  end.

Definition stateAfterAll (env : Env) (calls : list HelperCall) (st : State)
    : State :=
  fold_left (λ st call, stateAfter env call st) calls st.

(** ** Ancestors of an absolute directory

    What a search that walks from an absolute directory up to the root
    meets on its way: the ancestor [take j segs] of [absolute segs] is
    the directory [j] levels below the root. *)

(** Relative paths: non-empty lists of names, joined by [/]. *)
Abbreviation areRels := (Forall (λ ns : list string, ns ≠ [] ∧ areNames ns)).

(** No file of [rels] exists in the ancestor [take j segs] of [segs]. *)
Definition noneAt (env : Env) (segs : list string) (rels : list (list string))
    (j : nat) : Prop :=
  Forall (λ ns, fs env !! absolute (take j segs ++ ns) = None) rels.

(** Every configuration candidate present in the ancestor [take j segs]
    is a [package.json] without [eslintConfig] section. *)
Definition noConfigAt (env : Env) (segs : list string) (j : nat) : Prop :=
  ∀ name, name ∈ configFileNames →
    is_Some (fs env !! absolute (take j segs ++ [name])) →
    name = "package.json"
    ∧ ∃ manifest,
        require env (absolute (take j segs ++ [name])) = Loaded manifest
        ∧ eslintConfig manifest = false.

(** [file] is the nearest usable configuration above [absolute segs]:
    it is the first candidate name present in the ancestor [take k segs],
    it has an [eslintConfig] section if it is a [package.json], and the
    directories between hold no configuration. *)
Definition nearestConfig (env : Env) (segs : list string) (file : string) : Prop :=
  ∃ k before name after,
    (k ≤ length segs)%nat
    ∧ configFileNames = (before ++ name :: after)%list
    ∧ file = absolute (take k segs ++ [name])
    ∧ is_Some (fs env !! file)
    ∧ (∀ n, n ∈ before → fs env !! absolute (take k segs ++ [n]) = None)
    ∧ (name = "package.json" →
       ∃ manifest, require env file = Loaded manifest
                   ∧ eslintConfig manifest = true)
    ∧ ∀ j, (k < j ≤ length segs)%nat → noConfigAt env segs j.

(** The nearest candidate above [absolute segs] that is not a bare
    manifest is a [package.json] that does not load. *)
Definition brokenManifest (env : Env) (segs : list string) (code : option string)
    : Prop :=
  ∃ k,
    (k ≤ length segs)%nat
    ∧ is_Some (fs env !! absolute (take k segs ++ ["package.json"]))
    ∧ require env (absolute (take k segs ++ ["package.json"])) = LoadThrows code
    ∧ ∀ j, (k < j ≤ length segs)%nat → noConfigAt env segs j.

(** What an answer of [getConfigPath] from [absolute segs] says about
    the disk. *)
Definition configAnswer (env : Env) (segs : list string)
    (outcome : Outcome (option string)) : Prop :=
  match outcome with
  | Returns (Some file) => nearestConfig env segs file
  | Returns None => ∀ j, (j ≤ length segs)%nat → noConfigAt env segs j
  | Throws e => ∃ code, e = RequireError code ∧ brokenManifest env segs code
  end.

(** A chunk that is a name or [..]. *)
Definition isStep (s : string) : bool := isName s || String.eqb s "..".

(** A segment that normalisation keeps: a chunk that is not empty. *)
Definition isSegment (s : string) : bool := negb (String.eqb s "") && noSep s.

(** The directory [findESLintDirectory] probes outside global mode. *)
Definition localESLintDir (env : Env) (modulesDir : option string) (config : Config)
    (projectPath : option string) : string :=
  if negb (truthy (advancedLocalNodeModules config)) then
    Path.join [orEmpty modulesDir; "eslint"]
  else if Path.isAbsolute (cleanPath env (advancedLocalNodeModules config)) then
    Path.join [cleanPath env (advancedLocalNodeModules config); "eslint"]
  else
    Path.join [orEmpty projectPath;
               cleanPath env (advancedLocalNodeModules config); "eslint"].

(** ** The module loader

    [refreshModulesPath] changes, besides [Cache], the environment
    variable [NODE_PATH] and the search paths of the module loader,
    which [Module._initPaths()] recomputes from [NODE_PATH].  A worker
    process is the state of its helpers together with the value of
    [process.env.NODE_PATH] ([None] while it is not set), the value of
    [NODE_PATH] the loader's search paths were last computed from, and
    the number of calls of [_initPaths]. *)
Record Process := {
  state : State;
  NODE_PATH : option string;
  modulePaths : option string;
  initPathsCalls : nat
}.

(** A process started with [NODE_PATH] set to [nodePath]. *)
Definition initialProcess (env : Env) (dir : string) (nodePath : option string)
    : Process :=
  {| state := initialState env dir;
     NODE_PATH := nodePath;
     modulePaths := nodePath;
     initPathsCalls := 0 |}.

(** The process with the state of its helpers replaced. *)
Definition withState (st : State) (p : Process) : Process :=
  {| state := st;
     NODE_PATH := NODE_PATH p;
     modulePaths := modulePaths p;
     initPathsCalls := initPathsCalls p |}.

(** A call of a helper that knows nothing of the loader. *)
Definition inState {A} (m : M A) (p : Process) : Outcome A * Process :=
  let '(outcome, st) := m (state p) in (outcome, withState st p).

(** [Cache.LAST_MODULES_PATH = modulesDir] *)
Definition setLastModulesPath (modulesDir : option string) (p : Process) : Process :=
  {| state :=
       {| Cache := {| ESLINT_LOCAL_PATH := ESLINT_LOCAL_PATH (Cache (state p));
                      NODE_PREFIX_PATH := NODE_PREFIX_PATH (Cache (state p));
                      LAST_MODULES_PATH := modulesDir |};
          cwd := cwd (state p);
          spawned := spawned (state p) |};
     NODE_PATH := NODE_PATH p;
     modulePaths := modulePaths p;
     initPathsCalls := initPathsCalls p |}.

(** [process.env.NODE_PATH = value] *)
Definition setNodePath (value : string) (p : Process) : Process :=
  {| state := state p;
     NODE_PATH := Some value;
     modulePaths := modulePaths p;
     initPathsCalls := initPathsCalls p |}.

(** [require('module').Module._initPaths()] *)
Definition initPaths (p : Process) : Process :=
  {| state := state p;
     NODE_PATH := NODE_PATH p;
     modulePaths := NODE_PATH p;
     initPathsCalls := S (initPathsCalls p) |}.

(** [modulesDir] is a string or [null]; [!==] tells the two apart, and
    [modulesDir || ''] is what [NODE_PATH] is set to. *)
Definition refreshModulesPath (modulesDir : option string) (p : Process) : Process :=
  if bool_decide (LAST_MODULES_PATH (Cache (state p)) ≠ modulesDir) then
    let p := setLastModulesPath modulesDir p in
    let p := setNodePath (orEmpty modulesDir) p in
    initPaths p
  else p.

(** The modules directory is the parent of what the upward search for
    [node_modules/eslint] finds, and the parent of [''], which is [.],
    when it finds nothing. *)
Definition getESLintInstance (env : Env) (fileDir : string) (config : Config)
    (projectPath : option string) (p : Process) : Outcome JsObject * Process :=
  match inState (findCached env fileDir ["node_modules/eslint"]) p with
  | (Returns found, p) =>
      let modulesDir := Path.dirname (orEmpty found) in
      let p := refreshModulesPath (Some modulesDir) p in
      inState (getESLintFromDirectory env (Some modulesDir) config projectPath) p
  | (Throws e, p) => (Throws e, p)
  end.

(** The calls a worker process makes, and the process a sequence of
    them leaves. *)
Inductive ProcessCall :=
  | CallHelper (call : HelperCall)
  | CallRefreshModulesPath (modulesDir : option string)
  | CallGetESLintInstance (fileDir : string) (config : Config)
      (projectPath : option string).

Definition processAfter (env : Env) (call : ProcessCall) (p : Process) : Process :=
  match call with
  | CallHelper call => withState (stateAfter env call (state p)) p
  | CallRefreshModulesPath modulesDir => refreshModulesPath modulesDir p
  | CallGetESLintInstance fileDir config projectPath =>
      snd (getESLintInstance env fileDir config projectPath p)
  end.

Definition processAfterAll (env : Env) (calls : list ProcessCall) (p : Process)
    : Process :=
  fold_left (λ p call, processAfter env call p) calls p.

(** The loader searches where [NODE_PATH] says, and [NODE_PATH] is the
    modules directory [Cache] remembers, if it remembers one. *)
Definition inSync (p : Process) : Prop :=
  modulePaths p = NODE_PATH p
  ∧ ∀ modulesDir,
      LAST_MODULES_PATH (Cache (state p)) = Some modulesDir →
      NODE_PATH p = Some modulesDir.

(** ** More sample processes *)

Definition configuredManifest (id : string) : JsObject :=
  {| identity := id; eslintConfig := true |}.

(** A machine with a project [/a/b/c] configured by [/a/.eslintrc.json];
    [/a/package.json] has an [eslintConfig] section too, and
    [/a/b/package.json] has none. *)
Definition configuredDisk : gmap string Node :=
  list_to_map
    [("/", Dir); ("/a", Dir); ("/a/b", Dir); ("/a/b/c", Dir);
     ("/a/.eslintrc.json", File); ("/a/package.json", File);
     ("/a/b/package.json", File)].

Definition configuredEnv : Env :=
  {| fs := configuredDisk;
     fsTree := checkedTree configuredDisk I;
     platform := "linux";
     __dirname := "/atom/packages/linter-eslint/src";
     spawnSync := λ _ _ _, npmPrints "/usr/local";
     require := λ id,
       if String.eqb id "/a/b/package.json" then Loaded (bareManifest id)
       else if String.eqb id "/a/package.json" then Loaded (configuredManifest id)
       else LoadThrows (Some "MODULE_NOT_FOUND");
     fsNormalize := Path.normalize;
     resolveEnv := id |}.

(** A machine whose [/a/package.json] is not valid JSON: loading it
    raises a [SyntaxError], which carries no [code]. *)
Definition brokenManifestDisk : gmap string Node :=
  list_to_map
    [("/", Dir); ("/a", Dir); ("/a/b", Dir); ("/a/package.json", File)].

Definition brokenManifestEnv : Env :=
  {| fs := brokenManifestDisk;
     fsTree := checkedTree brokenManifestDisk I;
     platform := "linux";
     __dirname := "/atom/packages/linter-eslint/src";
     spawnSync := λ _ _ _, npmPrints "/usr/local";
     require := λ id,
       if String.eqb id "/a/package.json" then LoadThrows None
       else LoadThrows (Some "MODULE_NOT_FOUND");
     fsNormalize := Path.normalize;
     resolveEnv := id |}.

(** Settings with two rule directories: one relative, one absolute. *)
Definition rulesConfig : Config :=
  {| useGlobalEslint := false;
     globalNodePath := None;
     advancedLocalNodeModules := None;
     disableEslintIgnore := false;
     eslintRulesDirs := ["node_modules/eslint"; "/opt/rules"; "no/such/rules"];
     eslintrcPath := None |}.

(** Global mode with the prefix given in the settings. *)
Definition configuredGlobalConfig : Config :=
  {| useGlobalEslint := true;
     globalNodePath := Some "/usr/local";
     advancedLocalNodeModules := None;
     disableEslintIgnore := false;
     eslintRulesDirs := [];
     eslintrcPath := None |}.

(** Runs the plumbing of a call (sequencing, [try]/[catch], state
    reads) and leaves the path and file-system computations folded. *)
Ltac run :=
  cbv [bind ret throw tryCatch getState isDirectory findCached chdir].

(** Decides [noConfigAt] on a sample machine: every candidate name at
    every level up to the given one is looked up. *)
Ltac sample_noConfigAt :=
  let name := fresh "name" in
  let Hname := fresh "Hname" in
  let Hdisk := fresh "Hdisk" in
  intros name Hname Hdisk;
  unfold configFileNames in Hname;
  repeat (apply elem_of_cons in Hname as [->|Hname]);
  try (by apply elem_of_nil in Hname);
  try (by destruct Hdisk as [? Hdisk]; vm_compute in Hdisk);
  (split; [reflexivity | by eexists]).

(** * Properties *)

(** ** The path functions on the examples of Node's documentation *)

Example path_documented_examples :
  Path.normalize "/foo/bar//baz/asdf/quux/.." = "/foo/bar/baz/asdf"
  ∧ Path.join ["/foo"; "bar"; "baz/asdf"; "quux"; ".."] = "/foo/bar/baz/asdf"
  ∧ Path.join [""; "eslint"] = "eslint"
  ∧ Path.resolve "/home/myself/node" ["/foo/bar"; "./baz"] = "/foo/bar/baz"
  ∧ Path.resolve "/home/myself/node" ["/foo/bar"; "/tmp/file/"] = "/tmp/file"
  ∧ Path.resolve "/home/myself/node"
      ["wwwroot"; "static_files/png/"; "../gif/image.gif"]
    = "/home/myself/node/wwwroot/static_files/gif/image.gif"
  ∧ Path.resolve "/home/myself/node" ["/"; ".."] = "/"
  ∧ Path.relative "/" "/data/orandea/test/aaa" "/data/orandea/impl/bbb"
    = "../../impl/bbb"
  ∧ Path.dirname "/foo/bar/baz/asdf/quux" = "/foo/bar/baz/asdf"
  ∧ Path.dirname "/package.json" = "/"
  ∧ Path.basename "/foo/bar/baz/asdf/quux.html" = "quux.html"
  ∧ Path.isAbsolute "/foo/bar" = true
  ∧ Path.isAbsolute "qux/" = false
  ∧ trim ("/usr/local" ++ newline) = "/usr/local".
Proof. repeat split. Qed.

(** The probes of a search from [/a/b]: each ancestor in turn, the root
    last, and in each the names in the order given. *)
Example probes_example dir :
  probes dir "/a/b" [".eslintrc"; "package.json"]
  = ["/a/b/.eslintrc"; "/a/b/package.json"; "/a/.eslintrc"; "/a/package.json";
     "/.eslintrc"; "/package.json"].
Proof. reflexivity. Qed.

(** ** Absolute paths under the path functions *)

Lemma split_noSep s : noSep s = true → Path.split s = [s].
Proof.
  unfold noSep, Path.chars. induction s as [|c s IH]; [done|].
  cbn [list_ascii_of_string forallb Path.split]. intros [Hc Hs]%andb_true_iff.
  apply negb_true_iff in Hc. rewrite Hc, (IH Hs). done.
Qed.

Lemma split_app_sep s r :
  noSep s = true → Path.split (s ++ "/" ++ r) = s :: Path.split r.
Proof.
  unfold noSep, Path.chars. induction s as [|c s IH]; [done|].
  cbn [list_ascii_of_string forallb]. intros [Hc Hs]%andb_true_iff.
  apply negb_true_iff in Hc.
  change (String c s ++ "/" ++ r) with (String c (s ++ "/" ++ r)).
  cbn [Path.split]. rewrite Hc, (IH Hs). done.
Qed.

Lemma split_joinSep segs :
  Forall (λ s, noSep s = true) segs → segs ≠ [] →
  Path.split (Path.joinSep segs) = segs.
Proof.
  induction 1 as [|x l Hx Hl IH]; [done|]. intros _.
  destruct l as [|y l]; [by apply split_noSep|].
  change (Path.joinSep (x :: y :: l)) with (x ++ "/" ++ Path.joinSep (y :: l)).
  rewrite (split_app_sep _ _ Hx), IH; done.
Qed.

Lemma isName_noSep s : isName s = true → noSep s = true.
Proof. unfold isName. by intros [_ ?]%andb_true_iff. Qed.

Lemma isName_nonempty s : isName s = true → s ≠ "".
Proof. by destruct s. Qed.

Lemma names_noSep segs :
  areNames segs → Forall (λ s, noSep s = true) segs.
Proof. intros H. eapply Forall_impl; [exact H|]. apply isName_noSep. Qed.

Lemma joinSep_cons x l :
  l ≠ [] → Path.joinSep (x :: l) = x ++ "/" ++ Path.joinSep l.
Proof. by destruct l. Qed.

Lemma append_cons (x : ascii) (a b : string) : String x a ++ b = String x (a ++ b).
Proof. reflexivity. Qed.

Lemma append_assoc (a b c : string) : (a ++ b) ++ c = a ++ (b ++ c).
Proof. induction a as [|x a IH]; [done|]. rewrite !append_cons. by f_equal. Qed.

Lemma joinSep_snoc l x :
  l ≠ [] → Path.joinSep (l ++ [x]) = Path.joinSep l ++ "/" ++ x.
Proof.
  induction l as [|y l IH]; [done|]. intros _.
  destruct l as [|z l]; [done|].
  change ((y :: z :: l) ++ [x])%list with (y :: ((z :: l) ++ [x]))%list.
  rewrite joinSep_cons by done. rewrite IH by done.
  rewrite (joinSep_cons y (z :: l)) by done. by rewrite !append_assoc.
Qed.

Lemma split_absolute segs :
  areNames segs →
  Path.split (absolute segs) = "" :: (if decide (segs = []) then [""] else segs).
Proof.
  intros Hsegs. unfold absolute. change ("/" ++ ?x) with (String "/" x).
  cbn [Path.split]. change (Path.isSep "/") with true. cbv iota. f_equal.
  case_decide as Hempty; [by subst|].
  by apply split_joinSep; [apply names_noSep|].
Qed.

Lemma split_nonempty s : Path.split s ≠ [].
Proof.
  destruct s as [|c s]; [done|]. cbn [Path.split].
  destruct (Path.isSep c); [done|]. by destruct (Path.split s).
Qed.

(** Splitting distributes over a separator. *)
Lemma split_app a b : Path.split (a ++ "/" ++ b) = (Path.split a ++ Path.split b)%list.
Proof.
  induction a as [|c a IH]; [done|].
  rewrite append_cons. cbn [Path.split]. rewrite IH.
  destruct (Path.isSep c); [done|].
  pose proof (split_nonempty a). by destruct (Path.split a).
Qed.

Lemma normalize_chunks allow chunks acc :
  forallb chunkOK chunks = true →
  fold_left (Path.normalizeStep allow) chunks acc
  = (rev (filter (λ s, s ≠ "") chunks) ++ acc)%list.
Proof.
  revert acc. induction chunks as [|x l IH]; intros acc; [done|].
  cbn [forallb fold_left]. intros [Hx Hl]%andb_true_iff. rewrite (IH _ Hl).
  unfold chunkOK in Hx. destruct (String.eqb x "") eqn:Hempty.
  - apply String.eqb_eq in Hempty as ->. by rewrite filter_cons_False by auto.
  - apply String.eqb_neq in Hempty. rewrite filter_cons_True by done.
    cbn [rev]. rewrite <- app_assoc. f_equal. cbn [orb] in Hx.
    unfold Path.normalizeStep. unfold isName in Hx.
    apply andb_true_iff in Hx as [[[H1 H2]%andb_true_iff H3]%andb_true_iff _].
    apply negb_true_iff in H1, H2, H3. by rewrite H1, H2, H3.
Qed.

Lemma normalizeString_segments path allow :
  forallb chunkOK (Path.split path) = true →
  Path.normalizeString path allow = Path.joinSep (Path.segments path).
Proof.
  intros Hchunks. unfold Path.normalizeString, Path.segments.
  by rewrite (normalize_chunks _ _ _ Hchunks), app_nil_r, rev_involutive.
Qed.

Lemma segments_app a b :
  Path.segments (a ++ "/" ++ b) = (Path.segments a ++ Path.segments b)%list.
Proof. unfold Path.segments. by rewrite split_app, filter_app. Qed.

Lemma filter_names segs :
  areNames segs → filter (λ s, s ≠ "") segs = segs.
Proof.
  induction 1 as [|x l Hx Hl IH]; [done|].
  rewrite filter_cons_True by by apply isName_nonempty. by f_equal.
Qed.

Lemma forallb_chunkOK_names segs :
  areNames segs → forallb chunkOK segs = true.
Proof.
  induction 1 as [|x l Hx Hl IH]; [done|]. cbn [forallb].
  unfold chunkOK at 1. rewrite Hx, IH. by destruct (String.eqb x "").
Qed.

Lemma split_joinSep_names segs :
  areNames segs →
  Path.split (Path.joinSep segs) = if decide (segs = []) then [""] else segs.
Proof.
  intros Hsegs. case_decide as Hempty; [by subst|].
  by apply split_joinSep; [apply names_noSep|].
Qed.

Lemma segments_joinSep segs :
  areNames segs → Path.segments (Path.joinSep segs) = segs.
Proof.
  intros Hsegs. unfold Path.segments. rewrite (split_joinSep_names _ Hsegs).
  case_decide; [by subst|]. by apply filter_names.
Qed.

Lemma chunks_joinSep segs :
  areNames segs →
  forallb chunkOK (Path.split (Path.joinSep segs)) = true.
Proof.
  intros Hsegs. rewrite (split_joinSep_names _ Hsegs).
  case_decide; [done|]. by apply forallb_chunkOK_names.
Qed.

Lemma absolute_app segs : absolute segs = "" ++ "/" ++ Path.joinSep segs.
Proof. reflexivity. Qed.

Lemma segments_absolute segs :
  areNames segs → Path.segments (absolute segs) = segs.
Proof.
  intros Hsegs. by rewrite absolute_app, segments_app, segments_joinSep.
Qed.

Lemma chunks_absolute segs :
  areNames segs →
  forallb chunkOK (Path.split (absolute segs)) = true.
Proof.
  intros Hsegs. rewrite absolute_app, split_app, forallb_app.
  by rewrite chunks_joinSep.
Qed.

Lemma joinSep_names_nonempty segs :
  areNames segs → segs ≠ [] → Path.joinSep segs ≠ "".
Proof.
  intros Hsegs Hne. destruct Hsegs as [|x l Hx Hl]; [done|].
  apply isName_nonempty in Hx. destruct x; [done|]. by destruct l.
Qed.

Lemma endsWithSep_app a b : b ≠ "" → Path.endsWithSep (a ++ b) = Path.endsWithSep b.
Proof.
  intros Hb. induction a as [|c a IH]; [done|]. rewrite append_cons.
  cbn [Path.endsWithSep]. rewrite IH.
  destruct (a ++ b) eqn:Hab; [|done]. by destruct a, b.
Qed.

Lemma endsWithSep_noSep s : noSep s = true → Path.endsWithSep s = false.
Proof.
  unfold noSep, Path.chars. induction s as [|c s IH]; [done|].
  cbn [list_ascii_of_string forallb Path.endsWithSep].
  intros [Hc Hs]%andb_true_iff. apply negb_true_iff in Hc.
  destruct s; [done|]. by apply IH.
Qed.

Lemma segments_name name : isName name = true → Path.segments name = [name].
Proof.
  intros Hname. unfold Path.segments.
  rewrite (split_noSep _ (isName_noSep _ Hname)).
  by rewrite filter_cons_True by by apply isName_nonempty.
Qed.

(** A name below an absolute directory. *)
Lemma join_absolute segs name :
  areNames segs → isName name = true →
  Path.join [absolute segs; name] = absolute (segs ++ [name]).
Proof.
  intros Hsegs Hname. pose proof (isName_nonempty _ Hname) as Hne.
  unfold Path.join. rewrite filter_cons_True by done.
  rewrite filter_cons_True by done. rewrite filter_nil.
  change (Path.joinSep [absolute segs; name]) with (absolute segs ++ "/" ++ name).
  unfold Path.normalize.
  change (String.eqb (absolute segs ++ "/" ++ name) "") with false.
  change (Path.isAbsolute (absolute segs ++ "/" ++ name)) with true. cbv iota.
  rewrite normalizeString_segments.
  2:{ rewrite split_app, forallb_app, (chunks_absolute _ Hsegs).
      rewrite (split_noSep _ (isName_noSep _ Hname)). cbn [forallb].
      unfold chunkOK. by rewrite Hname, orb_true_r. }
  rewrite segments_app, (segments_absolute _ Hsegs), (segments_name _ Hname).
  assert (Path.joinSep (segs ++ [name]) ≠ "") as Hbody.
  { apply joinSep_names_nonempty; [|by destruct segs].
    apply Forall_app. split; [done|]. by apply Forall_singleton. }
  apply String.eqb_neq in Hbody. rewrite Hbody.
  rewrite <- append_assoc, endsWithSep_app by done.
  by rewrite (endsWithSep_noSep _ (isName_noSep _ Hname)).
Qed.

Lemma resolve_absolute dir segs :
  areNames segs →
  Path.resolve dir [absolute segs] = absolute segs.
Proof.
  intros Hsegs. unfold Path.resolve. cbn [rev app Path.resolveLoop].
  change (String.eqb (absolute segs) "") with false.
  change (Path.isAbsolute (absolute segs)) with true. cbv iota beta.
  rewrite normalizeString_segments.
  2:{ by rewrite split_app, forallb_app, (chunks_absolute _ Hsegs). }
  by rewrite segments_app, (segments_absolute _ Hsegs), app_nil_r.
Qed.

(** The parent of an absolute directory; the root is its own parent. *)
Lemma resolve_parent dir segs :
  areNames segs →
  Path.resolve dir [absolute segs; ".."] = absolute (removelast segs).
Proof.
  intros Hsegs. unfold Path.resolve. cbn [rev app Path.resolveLoop].
  change (String.eqb ".." "") with false. change (Path.isAbsolute "..") with false.
  change (String.eqb (absolute segs) "") with false.
  change (Path.isAbsolute (absolute segs)) with true. cbv iota beta.
  unfold Path.normalizeString. rewrite split_app, fold_left_app.
  rewrite (normalize_chunks _ _ _ (chunks_absolute _ Hsegs)).
  fold (Path.segments (absolute segs)). rewrite (segments_absolute _ Hsegs), app_nil_r.
  change (Path.split (".." ++ "/" ++ "")) with [".."; ""]. cbn [fold_left negb].
  assert (Path.normalizeStep false (Path.normalizeStep false (rev segs) "..") ""
          = rev (removelast segs)) as ->; [|by rewrite rev_involutive].
  change (Path.normalizeStep false ?res "") with res.
  destruct segs as [|x l _] using rev_ind; [done|].
  rewrite removelast_last, rev_app_distr. cbn [rev app].
  apply Forall_app in Hsegs as [_ Hx]. apply Forall_inv in Hx.
  unfold Path.normalizeStep. change (String.eqb ".." "") with false.
  change (String.eqb ".." ".") with false. change (String.eqb ".." "..") with true.
  cbn [orb]. unfold isName in Hx.
  apply andb_true_iff in Hx as [[[_ _]%andb_true_iff H3]%andb_true_iff _].
  apply negb_true_iff in H3. by rewrite H3.
Qed.

Lemma chars_app a b : Path.chars (a ++ b) = (Path.chars a ++ Path.chars b)%list.
Proof.
  unfold Path.chars. induction a as [|c a IH]; [done|].
  rewrite append_cons. cbn [list_ascii_of_string]. by rewrite IH.
Qed.

Lemma str_chars s : Path.str (Path.chars s) = s.
Proof. apply string_of_list_ascii_of_string. Qed.

Lemma forallb_rev {A} (p : A → bool) l : forallb p (rev l) = forallb p l.
Proof.
  induction l as [|x l IH]; [done|]. cbn [rev forallb].
  rewrite forallb_app, IH. cbn [forallb]. rewrite andb_true_r. apply andb_comm.
Qed.

Lemma dropWhile_all {A} (p : A → bool) l rest :
  forallb p l = true → Path.dropWhile p (l ++ rest) = Path.dropWhile p rest.
Proof.
  induction l as [|x l IH]; [done|]. cbn [forallb app Path.dropWhile].
  intros [-> Hl]%andb_true_iff. by apply IH.
Qed.

Lemma takeWhile_all {A} (p : A → bool) l x rest :
  forallb p l = true → p x = false → Path.takeWhile p (l ++ x :: rest) = l.
Proof.
  intros Hl Hx. induction l as [|y l IH]; cbn [app Path.takeWhile forallb] in *.
  - by rewrite Hx.
  - apply andb_true_iff in Hl as [-> Hl]. by rewrite IH.
Qed.

Lemma dropWhile_keep {A} (p : A → bool) l rest :
  l ≠ [] → forallb (λ x, negb (p x)) l = true →
  Path.dropWhile p (l ++ rest) = (l ++ rest)%list.
Proof.
  destruct l as [|x l]; [done|]. cbn [forallb app Path.dropWhile].
  intros _ [Hx _]%andb_true_iff. apply negb_true_iff in Hx. by rewrite Hx.
Qed.

(** The reversed characters of a name: no separator among them. *)
Lemma name_chars name :
  isName name = true →
  forallb (λ c, negb (Path.isSep c)) (rev (Path.chars name)) = true
  ∧ rev (Path.chars name) ≠ [].
Proof.
  intros Hname. split.
  - rewrite forallb_rev. by apply isName_noSep.
  - apply isName_nonempty in Hname. destruct name as [|c s]; [done|].
    intros Hrev. apply (f_equal length) in Hrev. by rewrite length_rev in Hrev.
Qed.

Lemma basename_app prefix name :
  isName name = true → Path.basename (prefix ++ "/" ++ name) = name.
Proof.
  intros Hname. destruct (name_chars _ Hname) as [Hchars Hne].
  unfold Path.basename. rewrite !chars_app, !rev_app_distr.
  change (rev (Path.chars "/")) with ["/"%char].
  rewrite <- app_assoc. cbn [app].
  rewrite (dropWhile_keep Path.isSep) by done.
  rewrite takeWhile_all by done.
  by rewrite rev_involutive, str_chars.
Qed.

Lemma dirname_root name : isName name = true → Path.dirname ("/" ++ name) = "/".
Proof.
  intros Hname. destruct (name_chars _ Hname) as [Hchars Hne].
  unfold Path.dirname. change (Path.chars ("/" ++ name)) with ("/"%char :: Path.chars name).
  cbv iota beta zeta.
  rewrite <- (app_nil_r (rev (Path.chars name))).
  rewrite (dropWhile_keep Path.isSep) by done.
  by rewrite dropWhile_all by done.
Qed.

Lemma dirname_app dir name :
  dir ≠ "" → isName name = true →
  Path.dirname (("/" ++ dir) ++ "/" ++ name) = "/" ++ dir.
Proof.
  intros Hdir Hname. destruct (name_chars _ Hname) as [Hchars Hne].
  unfold Path.dirname.
  change (Path.chars (("/" ++ dir) ++ "/" ++ name))
    with ("/"%char :: Path.chars (dir ++ "/" ++ name)).
  cbv iota beta zeta. rewrite !chars_app, !rev_app_distr.
  change (rev (Path.chars "/")) with ["/"%char]. rewrite <- app_assoc. cbn [app].
  rewrite (dropWhile_keep Path.isSep) by done.
  rewrite dropWhile_all by done. cbn [Path.dropWhile]. change (Path.isSep "/") with true.
  cbn [negb andb]. rewrite bool_decide_eq_false_2.
  - rewrite rev_involutive. change ("/"%char :: Path.chars dir) with (Path.chars ("/" ++ dir)).
    apply str_chars.
  - intros Hrev. apply (f_equal length) in Hrev. rewrite length_rev in Hrev.
    by destruct dir.
Qed.

Lemma absolute_snoc segs name :
  absolute (segs ++ [name])
  = if decide (segs = []) then "/" ++ name else absolute segs ++ "/" ++ name.
Proof.
  case_decide as Hempty; [by subst|].
  unfold absolute. by rewrite joinSep_snoc, append_assoc.
Qed.

Lemma basename_absolute segs name :
  isName name = true → Path.basename (absolute (segs ++ [name])) = name.
Proof.
  intros Hname. rewrite absolute_snoc. case_decide.
  - by apply (basename_app "").
  - by apply basename_app.
Qed.

Lemma dirname_absolute segs name :
  areNames segs → isName name = true →
  Path.dirname (absolute (segs ++ [name])) = absolute segs.
Proof.
  intros Hsegs Hname. rewrite absolute_snoc. case_decide as Hempty.
  - subst. by apply dirname_root.
  - apply dirname_app; [|done]. by apply joinSep_names_nonempty.
Qed.

(** The directories [find] visits from an absolute directory are its
    ancestors, nearest first. *)
Lemma currentDir_absolute dir segs n :
  areNames segs →
  (n < length (Path.split (absolute segs)))%nat →
  (let currentDir := Path.joinSep (take (S n) (Path.split (absolute segs))) in
   if String.eqb currentDir "" then Path.resolve dir [absolute segs; "/"]
   else currentDir)
  = absolute (take n segs).
Proof.
  intros Hsegs. rewrite (split_absolute _ Hsegs). cbv zeta.
  case_decide as Hempty.
  - subst. intros Hn. destruct n as [|[|n]]; [done|done|cbn in Hn; lia].
  - cbn [length take]. intros Hn.
    destruct (take n segs) as [|x l] eqn:Htake; [done|].
    rewrite joinSep_cons by done. done.
Qed.

Lemma length_split_absolute segs :
  areNames segs →
  (length segs < length (Path.split (absolute segs)))%nat.
Proof.
  intros Hsegs. rewrite (split_absolute _ Hsegs).
  case_decide; [subst; cbn; lia | cbn; lia].
Qed.

Lemma accessible_absolute env dir segs :
  areNames segs →
  accessible env dir (absolute segs) = bool_decide (is_Some (fs env !! absolute segs)).
Proof. intros Hsegs. unfold accessible. by rewrite resolve_absolute. Qed.

Lemma findIn_absolute env dir segs names file :
  areNames segs →
  areNames names →
  findIn env dir (absolute segs) names = Some file →
  ∃ name, name ∈ names ∧ file = absolute (segs ++ [name])
          ∧ is_Some (fs env !! file).
Proof.
  intros Hsegs Hnames. induction Hnames as [|x l Hx Hl IH]; [done|].
  cbn [findIn]. rewrite (join_absolute _ _ Hsegs Hx).
  rewrite accessible_absolute.
  2:{ apply Forall_app. split; [done|]. by apply Forall_singleton. }
  case_bool_decide as Hfile.
  - intros [= <-]. exists x. split; [left|done].
  - intros Hrest. destruct (IH Hrest) as [name [Hin Hname]].
    exists name. split; [by right|done].
Qed.

Lemma find_absolute env dir segs names file :
  areNames segs →
  areNames names →
  find env dir (absolute segs) names = Some file →
  ∃ k name, (k ≤ length segs)%nat ∧ name ∈ names
            ∧ file = absolute (take k segs ++ [name])
            ∧ is_Some (fs env !! file)
            ∧ findIn env dir (absolute (take k segs)) names = Some file.
Proof.
  intros Hsegs Hnames. unfold find.
  assert (∀ n, (n ≤ length (Path.split (absolute segs)))%nat →
            findFrom env dir (absolute segs) (Path.split (absolute segs)) names n
            = Some file →
            ∃ k name, (k ≤ length segs)%nat ∧ name ∈ names
              ∧ file = absolute (take k segs ++ [name])
              ∧ is_Some (fs env !! file)
              ∧ findIn env dir (absolute (take k segs)) names = Some file) as Hloop;
    [|by apply Hloop].
  induction n as [|n IH]; [done|]. intros Hn. cbn [findFrom].
  pose proof (currentDir_absolute dir segs n Hsegs) as Hdir.
  cbv zeta in Hdir. rewrite Hdir by lia.
  destruct (findIn env dir (absolute (take n segs)) names) as [found|] eqn:Hin.
  - intros [= <-]. apply findIn_absolute in Hin as Hfound; [|by apply Forall_take|done].
    destruct Hfound as [name [Hname [Hfile Hdisk]]].
    assert (take (n `min` length segs) segs = take n segs) as Htake.
    { destruct (decide (n ≤ length segs)%nat).
      - by rewrite Nat.min_l by lia.
      - rewrite Nat.min_r by lia. by rewrite !take_ge by lia. }
    exists (n `min` length segs)%nat, name. rewrite Htake.
    split; [lia|]. done.
  - intros Hrest. apply IH; [lia|done].
Qed.

Lemma configFileNames_names : areNames configFileNames.
Proof. repeat constructor. Qed.

Lemma Forall_removelast {A} (P : A → Prop) l : Forall P l → Forall P (removelast l).
Proof. intros Hl. rewrite removelast_firstn_len. by apply Forall_take. Qed.

Lemma length_removelast_take {A} (l : list A) k n :
  (k ≤ length l)%nat → (length l ≤ S n)%nat → (length (removelast (take k l)) ≤ n)%nat.
Proof.
  intros Hk Hn. rewrite removelast_firstn_len, !length_take. lia.
Qed.

Lemma findIn_none_absolute env dir segs names name :
  areNames segs →
  areNames names →
  findIn env dir (absolute segs) names = None →
  name ∈ names → fs env !! absolute (segs ++ [name]) = None.
Proof.
  intros Hsegs Hnames. induction Hnames as [|x l Hx Hl IH]; [by intros _ ?%elem_of_nil|].
  cbn [findIn]. rewrite (join_absolute _ _ Hsegs Hx).
  rewrite accessible_absolute.
  2:{ apply Forall_app. split; [done|]. by apply Forall_singleton. }
  case_bool_decide as Hfile; [done|]. intros Hrest [->|Hin]%elem_of_cons.
  - by apply eq_None_not_Some.
  - by apply IH.
Qed.

(** A search that finds nothing has probed every name in every
    ancestor. *)
Lemma find_none_absolute env dir segs names k name :
  areNames segs →
  areNames names →
  find env dir (absolute segs) names = None →
  (k ≤ length segs)%nat → name ∈ names →
  fs env !! absolute (take k segs ++ [name]) = None.
Proof.
  intros Hsegs Hnames Hfind Hk Hname. unfold find in Hfind.
  assert (∀ n, (n ≤ length (Path.split (absolute segs)))%nat →
            findFrom env dir (absolute segs) (Path.split (absolute segs)) names n
            = None →
            (k < n)%nat →
            findIn env dir (absolute (take k segs)) names = None) as Hloop.
  { induction n as [|n IH]; [lia|]. intros Hn. cbn [findFrom].
    pose proof (currentDir_absolute dir segs n Hsegs) as Hdir.
    cbv zeta in Hdir. rewrite Hdir by lia.
    destruct (findIn env dir (absolute (take n segs)) names) as [found|] eqn:Hin;
      [done|].
    intros Hrest Hlt. destruct (decide (k = n)) as [->|Hne]; [done|].
    apply IH; [lia|done|lia]. }
  apply (findIn_none_absolute env dir (take k segs) names);
    [by apply Forall_take|done| |done].
  apply (Hloop _ (Nat.le_refl _) Hfind).
  pose proof (length_split_absolute _ Hsegs). lia.
Qed.

Lemma absolute_inj s t :
  areNames s → areNames t →
  absolute s = absolute t → s = t.
Proof.
  intros Hs Ht Heq.
  by rewrite <- (segments_absolute _ Hs), <- (segments_absolute _ Ht), Heq.
Qed.

(** In a tree [a/b/c] below [p] whose only configuration candidate is
    [a/package.json], the search from [a/b/c] stops at that file and the
    search from [p], the parent of [a], finds nothing. *)
Lemma find_single_manifest_tree env dir p a b c :
  areNames (p ++ [a; b; c]) →
  (∀ q, Path.basename q ∈ configFileNames → is_Some (fs env !! q) →
        q = absolute (p ++ [a; "package.json"])) →
  is_Some (fs env !! absolute (p ++ [a; "package.json"])) →
  find env dir (absolute (p ++ [a; b; c])) configFileNames
  = Some (absolute (p ++ [a; "package.json"]))
  ∧ find env dir (absolute p) configFileNames = None.
Proof.
  intros Htree Honly Hmanifest.
  assert (areNames p) as Hp by by apply Forall_app in Htree as [? _].
  assert (∀ segs file,
            areNames segs →
            find env dir (absolute segs) configFileNames = Some file →
            file = absolute (p ++ [a; "package.json"])
            ∧ ∃ k name, (k ≤ length segs)%nat
                ∧ file = absolute (take k segs ++ [name])
                ∧ isName name = true) as Hfound.
  { intros segs file Hsegs Hfind.
    destruct (find_absolute _ _ _ _ _ Hsegs configFileNames_names Hfind)
      as [k [name [Hk [Hname [Hfile [Hdisk _]]]]]].
    assert (isName name = true) as Hclean
      by (by eapply (proj1 (Forall_forall _ _) configFileNames_names)).
    split; [|by exists k, name].
    apply Honly; [|done]. rewrite Hfile. by rewrite basename_absolute. }
  split.
  - destruct (find env dir (absolute (p ++ [a; b; c])) configFileNames)
      as [file|] eqn:Hfind.
    + by destruct (Hfound _ _ Htree Hfind) as [-> _].
    + exfalso. destruct Hmanifest as [node Hnode].
      pose proof (find_none_absolute env dir (p ++ [a; b; c]) configFileNames
                    (S (length p)) "package.json" Htree configFileNames_names Hfind)
        as Hprobe.
      assert (take (S (length p)) (p ++ [a; b; c]) = p ++ [a])%list as Htake.
      { change [a; b; c] with ([a] ++ [b; c])%list. rewrite app_assoc.
        apply take_app_length'. rewrite length_app. cbn. lia. }
      rewrite Htake, <- app_assoc in Hprobe. cbn [app] in Hprobe.
      rewrite Hprobe in Hnode; [done| |].
      * rewrite length_app. cbn. lia.
      * repeat constructor.
  - destruct (find env dir (absolute p) configFileNames) as [file|] eqn:Hfind; [|done].
    exfalso. destruct (Hfound _ _ Hp Hfind) as [-> [k [name [Hk [Hfile Hname]]]]].
    apply absolute_inj in Hfile.
    + apply (f_equal length) in Hfile.
      rewrite !length_app, length_take in Hfile. cbn in Hfile. lia.
    + apply Forall_app. split; [done|].
      apply Forall_app in Htree as [_ Habc]. apply Forall_inv in Habc.
      by repeat constructor.
    + apply Forall_app. split; [by apply Forall_take|]. by apply Forall_singleton.
Qed.

(** ** Rule-set comparison *)

Lemma JsSet_add_fold_elem (l : list string) (acc : JsSet.t) (x : string) :
  x ∈ fold_left (λ s y, JsSet.add y s) l acc ↔ x ∈ acc ∨ x ∈ l.
Proof.
  revert acc. induction l as [|y l IH]; intros acc; simpl.
  - rewrite elem_of_nil. tauto.
  - rewrite IH, elem_of_cons. unfold JsSet.add, JsSet.has.
    case_bool_decide as Hy.
    + split; [intros [?|?]; auto | intros [?|[->|?]]; auto].
    + rewrite elem_of_app, list_elem_of_singleton. tauto.
Qed.

Lemma JsSet_from_elem (l : list string) (x : string) :
  x ∈ JsSet.from l ↔ x ∈ l.
Proof.
  unfold JsSet.from. rewrite JsSet_add_fold_elem, elem_of_nil. tauto.
Qed.

Lemma JsSet_delete_elem (y : string) (s : JsSet.t) (x : string) :
  x ∈ JsSet.delete y s ↔ x ∈ s ∧ x ≠ y.
Proof. unfold JsSet.delete. rewrite list_elem_of_filter. tauto. Qed.

Lemma JsSet_forEach_delete_elem (removed s : JsSet.t) (x : string) :
  x ∈ JsSet.forEach removed (λ rule ids, JsSet.delete rule ids) s
  ↔ x ∈ s ∧ x ∉ removed.
Proof.
  unfold JsSet.forEach. revert s.
  induction removed as [|y removed IH]; intros s; simpl.
  - rewrite elem_of_nil. tauto.
  - rewrite IH, JsSet_delete_elem, not_elem_of_cons. tauto.
Qed.

Lemma JsSet_size_positive (s : JsSet.t) :
  Nat.ltb 0 (JsSet.size s) = true ↔ ∃ x, x ∈ s.
Proof.
  destruct s as [|y s]; simpl.
  - split; [discriminate | intros [x Hx]; by apply elem_of_nil in Hx].
  - split; [intros _; exists y; left | reflexivity].
Qed.

Lemma JsSet_size_zero (s : JsSet.t) :
  Nat.ltb 0 (JsSet.size s) = false ↔ ∀ x, x ∉ s.
Proof.
  destruct s as [|y s]; simpl.
  - split; [intros _ x; apply not_elem_of_nil | reflexivity].
  - split; [discriminate | intros H; destruct (H y); left].
Qed.

(** The two [forEach] loops compute the ids that were added and the ids
    that were removed. *)
Lemma didRulesChange_true {V} (currentRules newRules : JsMap V) :
  didRulesChange currentRules newRules = true
  ↔ (∃ x, x ∈ keys newRules ∧ x ∉ keys currentRules)
    ∨ (∃ x, x ∈ keys currentRules ∧ x ∉ keys newRules).
Proof.
  unfold didRulesChange.
  destruct (Nat.ltb 0 (JsSet.size (JsSet.forEach (JsSet.from (keys newRules)) _ _)))
    eqn:Hremoved.
  - apply JsSet_size_positive in Hremoved as [x Hx].
    apply JsSet_forEach_delete_elem in Hx as [Hin Hout].
    rewrite !JsSet_from_elem in Hin. rewrite JsSet_from_elem in Hout.
    split; [intros _; right; eauto | reflexivity].
  - destruct (Nat.ltb 0 (JsSet.size (JsSet.forEach (JsSet.from (keys currentRules)) _ _)))
      eqn:Hadded.
    + apply JsSet_size_positive in Hadded as [x Hx].
      apply JsSet_forEach_delete_elem in Hx as [Hin Hout].
      rewrite JsSet_from_elem in Hin. rewrite JsSet_from_elem in Hout.
      split; [intros _; left; eauto | reflexivity].
    + split; [discriminate |].
      rewrite JsSet_size_zero in Hremoved. rewrite JsSet_size_zero in Hadded.
      intros [[x [Hin Hout]] | [x [Hin Hout]]]; exfalso.
      * apply (Hadded x), JsSet_forEach_delete_elem.
        by rewrite !JsSet_from_elem.
      * apply (Hremoved x), JsSet_forEach_delete_elem.
        by rewrite !JsSet_from_elem.
Qed.

Lemma keySet_elem {V} (m : JsMap V) (x : string) : x ∈ keySet m ↔ x ∈ keys m.
Proof. unfold keySet. apply elem_of_list_to_set. Qed.

Lemma didRulesChange_keySet {V} (previous current : JsMap V) :
  didRulesChange previous current = true ↔ keySet current ≠ keySet previous.
Proof.
  rewrite didRulesChange_true. split.
  - intros [[x [Hin Hout]] | [x [Hin Hout]]] Heq; apply Hout, keySet_elem.
    + rewrite <- Heq. by apply keySet_elem.
    + rewrite Heq. by apply keySet_elem.
  - intros Hne.
    destruct (decide (Forall (λ x, x ∈ keys previous) (keys current))) as [Hsub|Hsub].
    + destruct (decide (Forall (λ x, x ∈ keys current) (keys previous))) as [Hsup|Hsup].
      * exfalso. apply Hne. apply set_eq. intros x. rewrite !keySet_elem.
        rewrite Forall_forall in Hsub, Hsup. split; auto.
      * apply not_Forall_Exists in Hsup; [|solve_decision].
        apply Exists_exists in Hsup as [x [Hin Hout]]. right. eauto.
    + apply not_Forall_Exists in Hsub; [|solve_decision].
      apply Exists_exists in Hsub as [x [Hin Hout]]. left. eauto.
Qed.

(** C3.  [didRulesChange previous current] is [true] exactly when the
    set of keys of [current] differs from the set of keys of [previous]:
    the answer depends neither on the order of the entries nor on the
    values stored under the keys.  In particular it is [false] for
    [{x:1}] against [{x:1}] and [true] for [{x:1}] against [{x:1,y:2}],
    for [{x:1,y:2}] against [{x:1}] and for [{x:1}] against [{y:1}]. *)
Theorem didRulesChange_iff_key_sets_differ :
  (∀ (V : Type) (previous current : JsMap V),
     didRulesChange previous current = true ↔ keySet current ≠ keySet previous)
  ∧ (∀ (V : Type) (previous previous' current current' : JsMap V),
       keys previous ≡ₚ keys previous' → keys current ≡ₚ keys current' →
       didRulesChange previous current = didRulesChange previous' current')
  ∧ (∀ (V W : Type) (previous current : JsMap V) (previous' current' : JsMap W),
       keys previous = keys previous' → keys current = keys current' →
       didRulesChange previous current = didRulesChange previous' current')
  ∧ didRulesChange [("x", 1)] [("x", 1)] = false
  ∧ didRulesChange [("x", 1)] [("x", 1); ("y", 2)] = true
  ∧ didRulesChange [("x", 1); ("y", 2)] [("x", 1)] = true
  ∧ didRulesChange [("x", 1)] [("y", 1)] = true.
Proof.
  split; [intros; apply didRulesChange_keySet |].
  split.
  { intros V previous previous' current current' Hp Hc.
    apply eq_true_iff_eq. rewrite !didRulesChange_keySet.
    assert (keySet previous = keySet previous') as ->.
    { apply set_eq. intros x. rewrite !keySet_elem. by rewrite Hp. }
    assert (keySet current = keySet current') as ->.
    { apply set_eq. intros x. rewrite !keySet_elem. by rewrite Hc. }
    reflexivity. }
  split.
  { intros V W previous current previous' current' Hp Hc.
    unfold didRulesChange. by rewrite Hp, Hc. }
  repeat split; reflexivity.
Qed.

(** The comparison on a reordered map with other values. *)
Lemma didRulesChange_iff_key_sets_differ_witness :
  didRulesChange [("x", 1); ("y", 2)] [("y", 5); ("x", 7)]
  = didRulesChange [("y", 2); ("x", 1)] [("x", 7); ("y", 5)].
Proof.
  apply (proj1 (proj2 didRulesChange_iff_key_sets_differ)); apply perm_swap.
Defined.

(** ** Locating the ESLint package *)

(** What [findESLintDirectory] does in global mode once the prefix is
    known. *)
Lemma findESLintDirectory_global env modulesDir config projectPath st prefix st1 :
  useGlobalEslint config = true →
  globalPrefixPath env config st = (Returns prefix, st1) →
  findESLintDirectory env modulesDir config projectPath st =
    let npmDir := Path.join [prefix; "node_modules"; "eslint"] in
    let libDir := Path.join [prefix; "lib"; "node_modules"; "eslint"] in
    if isDirectoryIn env st1 npmDir then
      (Returns {| path := npmDir; type := global |}, st1)
    else if isDirectoryIn env st1 libDir then
      (Returns {| path := libDir; type := global |}, st1)
    else (Throws PackageNotFoundError, st1).
Proof.
  intros Hglobal Hprefix. unfold findESLintDirectory, bind at 1.
  rewrite Hglobal. unfold bind at 1. rewrite Hprefix. run.
  destruct (isDirectoryIn env st1 (Path.join [prefix; "node_modules"; "eslint"]))
    eqn:Hnpm; cbv beta iota.
  - by rewrite Hnpm.
  - by destruct (isDirectoryIn env st1
                   (Path.join [prefix; "lib"; "node_modules"; "eslint"])).
Qed.

Lemma findESLintDirectory_global_throws env modulesDir config projectPath st e st1 :
  useGlobalEslint config = true →
  globalPrefixPath env config st = (Throws e, st1) →
  findESLintDirectory env modulesDir config projectPath st = (Throws e, st1).
Proof.
  intros Hglobal Hprefix. unfold findESLintDirectory, bind at 1.
  rewrite Hglobal. unfold bind at 1. by rewrite Hprefix.
Qed.

Lemma findESLintDirectory_global_returns
    env modulesDir config projectPath st location st' :
  useGlobalEslint config = true →
  findESLintDirectory env modulesDir config projectPath st
  = (Returns location, st') →
  type location = global ∧ isDirectoryIn env st' (path location) = true.
Proof.
  intros Hglobal.
  destruct (globalPrefixPath env config st) as [[prefix|e] st1] eqn:Hprefix.
  - rewrite (findESLintDirectory_global _ _ _ _ _ _ _ Hglobal Hprefix). simpl.
    destruct (isDirectoryIn env st1 (Path.join [prefix; "node_modules"; "eslint"]))
      eqn:Hnpm.
    { intros [= <- <-]. by simpl. }
    destruct (isDirectoryIn env st1 (Path.join [prefix; "lib"; "node_modules"; "eslint"]))
      eqn:Hlib; [|discriminate].
    intros [= <- <-]. by simpl.
  - by rewrite (findESLintDirectory_global_throws _ _ _ _ _ _ _ Hglobal Hprefix).
Qed.

(** C1.  With [useGlobalEslint] set, when the resolved prefix (the
    cleaned [globalNodePath] if it is not empty, npm's prefix otherwise)
    has neither [<prefix>/node_modules/eslint] nor
    [<prefix>/lib/node_modules/eslint] as a directory,
    [findESLintDirectory] throws the package-not-found error; and
    whatever it returns in global mode is a [global] location, never the
    bundled fallback. *)
Theorem findESLintDirectory_global_no_fallback
    env modulesDir config projectPath st :
  useGlobalEslint config = true →
  globalPrefixPath env config st
  = (if String.eqb (cleanPath env (globalNodePath config)) ""
     then getNodePrefixPath env st
     else (Returns (cleanPath env (globalNodePath config)), st))
  ∧ (∀ prefix st1,
       globalPrefixPath env config st = (Returns prefix, st1) →
       isDirectoryIn env st1 (Path.join [prefix; "node_modules"; "eslint"]) = false →
       isDirectoryIn env st1 (Path.join [prefix; "lib"; "node_modules"; "eslint"])
       = false →
       findESLintDirectory env modulesDir config projectPath st
       = (Throws PackageNotFoundError, st1))
  ∧ (∀ location st',
       findESLintDirectory env modulesDir config projectPath st
       = (Returns location, st') →
       type location = global ∧ type location ≠ bundled_fallback
       ∧ isDirectoryIn env st' (path location) = true).
Proof.
  intros Hglobal. split.
  { unfold globalPrefixPath. by destruct (String.eqb _ ""). }
  split.
  - intros prefix st1 Hprefix Hnpm Hlib.
    rewrite (findESLintDirectory_global _ _ _ _ _ _ _ Hglobal Hprefix).
    simpl. by rewrite Hnpm, Hlib.
  - intros location st' Hfound.
    destruct (findESLintDirectory_global_returns _ _ _ _ _ _ _ Hglobal Hfound)
      as [Htype Hdir].
    rewrite Htype. done.
Qed.

(** On the sample machine npm reports [/usr/local], which has no ESLint. *)
Lemma findESLintDirectory_global_no_fallback_witness :
  findESLintDirectory sampleEnv None globalConfig None (initialState sampleEnv "/")
  = (Throws PackageNotFoundError,
     snd (getNodePrefixPath sampleEnv (initialState sampleEnv "/"))).
Proof.
  apply (proj1 (proj2 (findESLintDirectory_global_no_fallback
                         sampleEnv None globalConfig None
                         (initialState sampleEnv "/") eq_refl)) "/usr/local");
    vm_compute; reflexivity.
Defined.

(** C4.  Without [useGlobalEslint] and without
    [advancedLocalNodeModules], [findESLintDirectory] returns
    [<modulesDir>/eslint] as a [local_project] location when that is a
    directory and the bundled path as a [bundled_fallback] location when
    it is not; it never throws and changes nothing. *)
Theorem findESLintDirectory_local_or_bundled
    env modulesDir config projectPath st :
  useGlobalEslint config = false →
  advancedLocalNodeModules config = None →
  let eslintDir := Path.join [orEmpty modulesDir; "eslint"] in
  (isDirectoryIn env st eslintDir = true →
   findESLintDirectory env modulesDir config projectPath st
   = (Returns {| path := eslintDir; type := local_project |}, st))
  ∧ (isDirectoryIn env st eslintDir = false →
     findESLintDirectory env modulesDir config projectPath st
     = (Returns {| path := ESLINT_LOCAL_PATH (Cache st);
                   type := bundled_fallback |}, st))
  ∧ (∃ location,
       findESLintDirectory env modulesDir config projectPath st
       = (Returns location, st)).
Proof.
  intros Hlocal Hadvanced eslintDir.
  assert (findESLintDirectory env modulesDir config projectPath st
          = if isDirectoryIn env st eslintDir
            then (Returns {| path := eslintDir; type := local_project |}, st)
            else (Returns {| path := ESLINT_LOCAL_PATH (Cache st);
                             type := bundled_fallback |}, st)) as Hrun.
  { unfold findESLintDirectory. rewrite Hlocal, Hadvanced.
    cbv [truthy negb]. run. fold eslintDir.
    by destruct (isDirectoryIn env st eslintDir). }
  rewrite Hrun. repeat split.
  - by intros ->.
  - by intros ->.
  - destruct (isDirectoryIn env st eslintDir); eauto.
Qed.

(** The project of the sample machine has ESLint in [/a/node_modules]. *)
Lemma findESLintDirectory_local_or_bundled_witness :
  findESLintDirectory sampleEnv (Some "/a/node_modules") defaultConfig (Some "/a")
    (initialState sampleEnv "/")
  = (Returns {| path := "/a/node_modules/eslint"; type := local_project |},
     initialState sampleEnv "/").
Proof.
  apply (proj1 (findESLintDirectory_local_or_bundled
                  sampleEnv (Some "/a/node_modules") defaultConfig (Some "/a")
                  (initialState sampleEnv "/") eq_refl eq_refl)).
  vm_compute. reflexivity.
Defined.

(** Outside global mode the located package is never a [global] one and
    the search neither throws nor touches the state. *)
Lemma findESLintDirectory_local env modulesDir config projectPath st :
  useGlobalEslint config = false →
  ∃ location,
    findESLintDirectory env modulesDir config projectPath st
    = (Returns location, st)
    ∧ type location ≠ global.
Proof.
  intros Hlocal. unfold findESLintDirectory. rewrite Hlocal.
  destruct (negb (truthy (advancedLocalNodeModules config)));
    [|destruct (Path.isAbsolute _)]; run;
    match goal with
    | |- context [isDirectoryIn env st ?d] => destruct (isDirectoryIn env st d)
    end; eexists; split; try reflexivity; done.
Qed.

Lemma findESLintDirectory_type env modulesDir config projectPath st location st1 :
  findESLintDirectory env modulesDir config projectPath st
  = (Returns location, st1) →
  type location = global ↔ useGlobalEslint config = true.
Proof.
  intros Hfound. destruct (useGlobalEslint config) eqn:Hmode.
  - split; [done | intros _].
    by apply (findESLintDirectory_global_returns
                env modulesDir config projectPath st _ _ Hmode) in Hfound as [? _].
  - destruct (findESLintDirectory_local env modulesDir config projectPath st Hmode)
      as [location' [Hrun Htype]].
    rewrite Hrun in Hfound. injection Hfound as <- <-. split; [done | discriminate].
Qed.

(** [getESLintFromDirectory] once the package has been located. *)
Lemma getESLintFromDirectory_located
    env modulesDir config projectPath st location st1 :
  findESLintDirectory env modulesDir config projectPath st
  = (Returns location, st1) →
  getESLintFromDirectory env modulesDir config projectPath st =
    match require env (path location) with
    | Loaded exports => (Returns exports, st1)
    | LoadThrows code =>
        if useGlobalEslint config
           && bool_decide (code = Some "MODULE_NOT_FOUND")
        then (Throws PackageNotFoundRestartError, st1)
        else load env (ESLINT_LOCAL_PATH (Cache st1)) st1
    end.
Proof.
  intros Hfound. unfold getESLintFromDirectory, bind. rewrite Hfound.
  unfold tryCatch, load at 1.
  destruct (require env (path location)) as [exports|code]; run; [done|].
  simpl. by destruct (useGlobalEslint config && _).
Qed.

(** C2, as the code has it.  When loading the located package fails:
    if the location is [global] and the failure is a module-not-found
    error, the call throws the restart error; in every other case (the
    location is not global, or the failure is of another kind) the call
    loads the bundled package instead, and returns it when it loads. *)
Theorem getESLintFromDirectory_load_failure
    env modulesDir config projectPath st location st1 code :
  findESLintDirectory env modulesDir config projectPath st
  = (Returns location, st1) →
  require env (path location) = LoadThrows code →
  (type location = global ↔ useGlobalEslint config = true)
  ∧ (type location = global → code = Some "MODULE_NOT_FOUND" →
     getESLintFromDirectory env modulesDir config projectPath st
     = (Throws PackageNotFoundRestartError, st1))
  ∧ (type location ≠ global ∨ code ≠ Some "MODULE_NOT_FOUND" →
     getESLintFromDirectory env modulesDir config projectPath st
     = load env (ESLINT_LOCAL_PATH (Cache st1)) st1)
  ∧ (type location ≠ global ∨ code ≠ Some "MODULE_NOT_FOUND" →
     ∀ bundled,
       require env (ESLINT_LOCAL_PATH (Cache st1)) = Loaded bundled →
       getESLintFromDirectory env modulesDir config projectPath st
       = (Returns bundled, st1)).
Proof.
  intros Hfound Hload.
  pose proof (findESLintDirectory_type _ _ _ _ _ _ _ Hfound) as Htype.
  rewrite (getESLintFromDirectory_located _ _ _ _ _ _ _ Hfound), Hload.
  split; [exact Htype|].
  assert (type location ≠ global ∨ code ≠ Some "MODULE_NOT_FOUND" →
          useGlobalEslint config
          && bool_decide (code = Some "MODULE_NOT_FOUND") = false) as Hother.
  { intros [Hlocal|Hcode].
    - destruct (useGlobalEslint config); [|done]. by destruct Hlocal, Htype as [_ ->].
    - rewrite bool_decide_eq_false_2 by done. apply andb_false_r. }
  repeat split.
  - intros Hglobal ->. apply Htype in Hglobal. by rewrite Hglobal.
  - intros Hcase. by rewrite (Hother Hcase).
  - intros Hcase bundled Hbundled. rewrite (Hother Hcase).
    unfold load. by rewrite Hbundled.
Qed.

(** A global ESLint that is found but fails to load with an error other
    than module-not-found is replaced by the bundled package. *)
Lemma getESLintFromDirectory_load_failure_witness :
  getESLintFromDirectory brokenGlobalEnv None globalConfig None
    (initialState brokenGlobalEnv "/")
  = (Returns (eslintModule bundledPath),
     snd (getNodePrefixPath brokenGlobalEnv (initialState brokenGlobalEnv "/"))).
Proof.
  apply (proj2 (proj2 (proj2 (getESLintFromDirectory_load_failure
           brokenGlobalEnv None globalConfig None (initialState brokenGlobalEnv "/")
           {| path := "/usr/local/lib/node_modules/eslint"; type := global |}
           (snd (getNodePrefixPath brokenGlobalEnv (initialState brokenGlobalEnv "/")))
           None eq_refl eq_refl)))).
  - right. discriminate.
  - reflexivity.
Defined.

(** The claim as stated fails on a machine whose global ESLint is found
    but does not load for a reason other than a missing module: the
    location is [global], loading it fails, and the call returns the
    bundled package instead of throwing. *)
Lemma getESLintFromDirectory_global_failure_falls_back :
  fst (findESLintDirectory brokenGlobalEnv None globalConfig None
         (initialState brokenGlobalEnv "/"))
  = Returns {| path := "/usr/local/lib/node_modules/eslint"; type := global |}
  ∧ require brokenGlobalEnv "/usr/local/lib/node_modules/eslint" = LoadThrows None
  ∧ fst (getESLintFromDirectory brokenGlobalEnv None globalConfig None
           (initialState brokenGlobalEnv "/"))
    = Returns (eslintModule bundledPath)
  ∧ ¬ (∃ e, fst (getESLintFromDirectory brokenGlobalEnv None globalConfig None
                   (initialState brokenGlobalEnv "/")) = Throws e).
Proof.
  repeat split; try reflexivity. intros [e He]. vm_compute in He. discriminate.
Qed.

(** ** Upward searches *)

Lemma normalize_nonempty (p : string) : Path.normalize p ≠ "".
Proof.
  unfold Path.normalize.
  destruct (String.eqb p ""); [done|].
  destruct (Path.normalizeString p (negb (Path.isAbsolute p))) as [|c body].
  - simpl. by destruct (Path.isAbsolute p), (Path.endsWithSep p).
  - simpl. by destruct (Path.isAbsolute p), (Path.endsWithSep p).
Qed.

Lemma join_nonempty (paths : list string) : Path.join paths ≠ "".
Proof.
  unfold Path.join. destruct (filter _ paths); [done|apply normalize_nonempty].
Qed.

Lemma truthy_nonempty (s : string) : s ≠ "" → truthy (Some s) = true.
Proof. intros Hs. simpl. by destruct s. Qed.

Lemma findIn_truthy env dir currentDir names file :
  findIn env dir currentDir names = Some file → truthy (Some file) = true.
Proof.
  induction names as [|fileName others IH]; simpl; [done|].
  destruct (accessible env dir _); [|exact IH].
  intros [= <-]. apply truthy_nonempty, join_nonempty.
Qed.

Lemma findFrom_truthy env dir directory chunks names n file :
  findFrom env dir directory chunks names n = Some file →
  truthy (Some file) = true.
Proof.
  induction n as [|n IH]; [done|]. cbn [findFrom].
  destruct (findIn env dir _ names) as [found|] eqn:Hin; [|exact IH].
  intros [= <-]. by apply findIn_truthy in Hin.
Qed.

(** A file that [find] returns passes the [if (file)] test. *)
Lemma find_truthy env dir directory names :
  truthy (find env dir directory names)
  = bool_decide (is_Some (find env dir directory names)).
Proof.
  destruct (find env dir directory names) as [file|] eqn:Hfind.
  - unfold find in Hfind. apply findFrom_truthy in Hfind.
    rewrite Hfind. symmetry. apply bool_decide_eq_true. eauto.
  - done.
Qed.

Lemma find_if_truthy env dir directory names :
  (if truthy (find env dir directory names)
   then find env dir directory names else None)
  = find env dir directory names.
Proof.
  rewrite find_truthy. by destruct (find env dir directory names).
Qed.

(** The ignore file both [getRelativePath] and [getCLIEngineOptions]
    look for. *)
Lemma ignoreFile_run env config fileDir st :
  (if disableEslintIgnore config then ret None
   else findCached env fileDir [".eslintignore"]) st
  = (Returns (if disableEslintIgnore config then None
              else find env (cwd st) fileDir [".eslintignore"]), st).
Proof. by destruct (disableEslintIgnore config). Qed.

(** Mapping a callback that only reads the state. *)
Lemma arrayMap_reads {A B} (callback : A → M B) (f : State → A → B) array st :
  (∀ x, callback x st = (Returns (f st x), st)) →
  arrayMap callback array st = (Returns (map (f st) array), st).
Proof.
  intros Hreads. induction array as [|x array IH]; [done|].
  cbn [arrayMap map]. unfold bind at 1. rewrite Hreads.
  unfold bind at 1. by rewrite IH.
Qed.

(** Resolving the rule directories reads the disk and nothing else. *)
Lemma rulesDirs_run env fileDir dirs st :
  arrayMap (λ p,
    let rulesDir := cleanPath env (Some p) in
    if negb (Path.isAbsolute rulesDir) then findCached env fileDir [rulesDir]
    else ret (Some rulesDir)) dirs st
  = (Returns (map (rulesDirIn env st fileDir) dirs), st).
Proof.
  apply (arrayMap_reads _ (λ st p, rulesDirIn env st fileDir p)).
  intros p. unfold rulesDirIn. cbv zeta.
  by destruct (negb (Path.isAbsolute (cleanPath env (Some p)))).
Qed.

(** ** Paths that end in a name *)

Lemma split_chunks_noSep s : Forall (λ chunk, noSep chunk = true) (Path.split s).
Proof.
  induction s as [|c s IH]; [by repeat constructor|]. cbn [Path.split].
  destruct (Path.isSep c) eqn:Hc; [by constructor|].
  destruct (Path.split s) as [|chunk chunks]; [by repeat constructor; cbn; rewrite Hc|].
  inversion IH as [|? ? Hchunk Hchunks]; subst. constructor; [|done].
  unfold noSep, Path.chars in *. cbn [list_ascii_of_string forallb].
  by rewrite Hc, Hchunk.
Qed.

Lemma isSegment_noSep s : isSegment s = true → noSep s = true.
Proof. unfold isSegment. by intros [_ ?]%andb_true_iff. Qed.

Lemma isSegment_nonempty s : isSegment s = true → s ≠ "".
Proof. by destruct s. Qed.

Lemma isName_isSegment s : isName s = true → isSegment s = true.
Proof.
  unfold isName, isSegment.
  intros [[[-> _]%andb_true_iff _]%andb_true_iff ->]%andb_true_iff. done.
Qed.

(** Normalisation keeps segments only. *)
Lemma normalizeStep_segments allow res chunk :
  noSep chunk = true →
  Forall (λ s, isSegment s = true) res →
  Forall (λ s, isSegment s = true) (Path.normalizeStep allow res chunk).
Proof.
  intros Hchunk Hres. unfold Path.normalizeStep.
  destruct (String.eqb chunk "") eqn:Hempty; [done|].
  destruct (String.eqb chunk ".") eqn:Hdot; [done|]. cbn [orb].
  destruct (String.eqb chunk "..") eqn:Hup.
  - destruct res as [|top below].
    + destruct allow; by repeat constructor.
    + destruct (String.eqb top "..").
      * destruct allow; [|done]. by constructor.
      * by inversion Hres.
  - constructor; [|done]. unfold isSegment. by rewrite Hempty, Hchunk.
Qed.

Lemma normalize_segments allow chunks res :
  Forall (λ chunk, noSep chunk = true) chunks →
  Forall (λ s, isSegment s = true) res →
  Forall (λ s, isSegment s = true) (fold_left (Path.normalizeStep allow) chunks res).
Proof.
  intros Hchunks. revert res.
  induction Hchunks as [|chunk chunks Hchunk Hchunks IH]; intros res Hres; [done|].
  cbn [fold_left]. by apply IH, normalizeStep_segments.
Qed.

Lemma normalizeStep_name allow res name :
  isName name = true → Path.normalizeStep allow res name = name :: res.
Proof.
  unfold isName, Path.normalizeStep.
  intros [[[H1 H2]%andb_true_iff H3]%andb_true_iff _]%andb_true_iff.
  apply negb_true_iff in H1, H2, H3. by rewrite H1, H2, H3.
Qed.

Lemma joinSep_segments_nonempty segs :
  Forall (λ s, isSegment s = true) segs → segs ≠ [] → Path.joinSep segs ≠ "".
Proof.
  intros Hsegs Hne. destruct segs as [|x l]; [done|].
  apply Forall_inv, isSegment_nonempty in Hsegs.
  destruct x; [done|]. by destruct l.
Qed.

Lemma isAbsolute_segments segs :
  Forall (λ s, isSegment s = true) segs →
  Path.isAbsolute (Path.joinSep segs) = false.
Proof.
  intros Hsegs. destruct segs as [|x l]; [done|].
  apply Forall_inv in Hsegs. pose proof (isSegment_noSep _ Hsegs) as Hsep.
  apply isSegment_nonempty in Hsegs. destruct x as [|c x]; [done|].
  unfold noSep, Path.chars in Hsep. cbn [list_ascii_of_string forallb] in Hsep.
  apply andb_true_iff in Hsep as [Hc%negb_true_iff _].
  destruct l; cbn [Path.joinSep]; [done|]. by rewrite append_cons.
Qed.

(** [Path.resolve] of one argument, as the normalisation of the chunks
    of the working directory, if the argument is relative, and of the
    argument. *)
Lemma resolve_chunks dir arg :
  arg ≠ "" →
  let absolute := Path.isAbsolute arg || Path.isAbsolute dir in
  let before :=
    if Path.isAbsolute arg || String.eqb dir "" then [] else Path.split dir in
  let body :=
    Path.joinSep
      (rev (fold_left (Path.normalizeStep (negb absolute))
              (before ++ Path.split arg) [])) in
  Path.resolve dir [arg]
  = if absolute then "/" ++ body
    else if String.eqb body "" then "." else body.
Proof.
  intros Harg. apply String.eqb_neq in Harg. cbv zeta.
  unfold Path.resolve. cbn [rev app Path.resolveLoop]. rewrite Harg.
  destruct (Path.isAbsolute arg) eqn:Habs; cbn [orb].
  - unfold Path.normalizeString. rewrite split_app, fold_left_app. by cbn.
  - destruct (String.eqb dir "") eqn:Hdir.
    + apply String.eqb_eq in Hdir as ->. cbn [Path.isAbsolute app].
      unfold Path.normalizeString. rewrite split_app, fold_left_app. by cbn.
    + destruct (Path.isAbsolute dir); unfold Path.normalizeString;
        rewrite !split_app, !fold_left_app; by cbn.
Qed.

Lemma dirname_name name : isName name = true → Path.dirname name = ".".
Proof.
  intros Hname. destruct (name_chars _ Hname) as [Hchars Hne].
  pose proof (isName_noSep _ Hname) as Hsep.
  destruct name as [|c s]; [done|]. unfold Path.dirname.
  change (Path.chars (String c s)) with (c :: Path.chars s). cbv iota beta zeta.
  unfold noSep in Hsep. change (Path.chars (String c s)) with (c :: Path.chars s) in Hsep.
  cbn [forallb] in Hsep. apply andb_true_iff in Hsep as [Hc%negb_true_iff Hs].
  rewrite Hc.
  assert (Path.dropWhile (λ c, negb (Path.isSep c))
            (Path.dropWhile Path.isSep (rev (Path.chars s))) = []) as ->; [|done].
  destruct (rev (Path.chars s)) as [|x l] eqn:Hrev; [done|].
  assert (forallb (λ c, negb (Path.isSep c)) (x :: l) = true) as Hall
    by by rewrite <- Hrev, forallb_rev.
  rewrite <- (app_nil_r (x :: l)).
  rewrite (dropWhile_keep Path.isSep) by done.
  by rewrite dropWhile_all.
Qed.

(** The directory of a name below a relative path. *)
Lemma dirname_relative_app dir name :
  dir ≠ "" → Path.isAbsolute dir = false → isName name = true →
  Path.dirname (dir ++ "/" ++ name) = dir.
Proof.
  intros Hdir Hrel Hname. destruct (name_chars _ Hname) as [Hchars Hne].
  destruct dir as [|c dir]; [done|]. cbn [Path.isAbsolute] in Hrel.
  unfold Path.dirname. rewrite append_cons.
  change (Path.chars (String c (dir ++ "/" ++ name)))
    with (c :: Path.chars (dir ++ "/" ++ name)).
  cbv iota beta zeta. rewrite Hrel, !chars_app, !rev_app_distr.
  change (rev (Path.chars "/")) with ["/"%char]. rewrite <- app_assoc. cbn [app].
  rewrite (dropWhile_keep Path.isSep) by done.
  rewrite dropWhile_all by done. cbn [Path.dropWhile]. change (Path.isSep "/") with true.
  cbn [negb andb]. rewrite rev_involutive.
  change (c :: Path.chars dir) with (Path.chars (String c dir)). apply str_chars.
Qed.

(** The directory of a normalised path that ends in a name. *)
Lemma dirname_segments (absolute : bool) segs name :
  Forall (λ s, isSegment s = true) segs →
  isName name = true →
  Path.dirname ((if absolute then "/" else "") ++ Path.joinSep (segs ++ [name]))
  = if absolute then "/" ++ Path.joinSep segs
    else if String.eqb (Path.joinSep segs) "" then "." else Path.joinSep segs.
Proof.
  intros Hsegs Hname. destruct (decide (segs = [])) as [->|Hne].
  - destruct absolute; [by apply dirname_root | by apply dirname_name].
  - rewrite joinSep_snoc by done.
    pose proof (joinSep_segments_nonempty _ Hsegs Hne) as Hbody.
    destruct absolute.
    + rewrite <- append_assoc. by apply dirname_app.
    + apply String.eqb_neq in Hbody as Hbody'. rewrite Hbody'.
      apply dirname_relative_app; [done| |done]. by apply isAbsolute_segments.
Qed.

Lemma normalize_name name : isName name = true → Path.normalize name = name.
Proof.
  intros Hname. pose proof (isName_noSep _ Hname) as Hsep.
  pose proof (isName_nonempty _ Hname) as Hne.
  unfold Path.normalize. apply String.eqb_neq in Hne as Hne'. rewrite Hne'.
  assert (Path.isAbsolute name = false) as ->.
  { apply (isAbsolute_segments [name]). constructor; [|done].
    by apply isName_isSegment. }
  rewrite (endsWithSep_noSep _ Hsep). cbv zeta. unfold Path.normalizeString.
  rewrite (split_noSep _ Hsep). cbn [fold_left].
  rewrite normalizeStep_name by done. cbn [rev app Path.joinSep]. by rewrite Hne'.
Qed.

(** What [find] probes: a normalised path that ends in the name. *)
Lemma join_name currentDir name :
  isName name = true →
  ∃ segs,
    Forall (λ s, isSegment s = true) segs
    ∧ Path.join [currentDir; name]
      = (if Path.isAbsolute currentDir then "/" else "")
        ++ Path.joinSep (segs ++ [name]).
Proof.
  intros Hname. pose proof (isName_nonempty _ Hname) as Hne.
  pose proof (isName_noSep _ Hname) as Hsep.
  unfold Path.join. destruct (decide (currentDir = "")) as [->|Hdir].
  - rewrite filter_cons_False by (by intros []).
    rewrite filter_cons_True by done. rewrite filter_nil.
    exists []. split; [done|]. cbn [Path.joinSep Path.isAbsolute app].
    by apply normalize_name.
  - rewrite !filter_cons_True by done. rewrite filter_nil.
    change (Path.joinSep [currentDir; name]) with (currentDir ++ "/" ++ name).
    exists (rev (fold_left (Path.normalizeStep (negb (Path.isAbsolute currentDir)))
                   (Path.split currentDir) [])).
    split.
    { apply Forall_rev, normalize_segments; [apply split_chunks_noSep|done]. }
    unfold Path.normalize.
    assert (String.eqb (currentDir ++ "/" ++ name) "" = false) as ->
      by (by destruct currentDir).
    assert (Path.isAbsolute (currentDir ++ "/" ++ name) = Path.isAbsolute currentDir)
      as -> by (by destruct currentDir).
    assert (Path.endsWithSep (currentDir ++ "/" ++ name) = false) as ->.
    { rewrite endsWithSep_app by done. rewrite (endsWithSep_app "/" name) by done.
      by apply endsWithSep_noSep. }
    cbv zeta. unfold Path.normalizeString.
    rewrite split_app, (split_noSep _ Hsep), fold_left_app. cbn [fold_left].
    rewrite normalizeStep_name by done. cbn [rev].
    set (segs := rev (fold_left _ (Path.split currentDir) [])).
    assert (String.eqb (Path.joinSep (segs ++ [name])) "" = false) as ->.
    { apply String.eqb_neq. destruct segs as [|x l]; [done|].
      rewrite joinSep_snoc by done. destruct (Path.joinSep (x :: l)); done. }
    by destruct (Path.isAbsolute currentDir).
Qed.

Lemma split_prefixed (absolute : bool) segs :
  Forall (λ s, isSegment s = true) segs → segs ≠ [] →
  Path.split ((if absolute then "/" else "") ++ Path.joinSep segs)
  = ((if absolute then [""] else []) ++ segs)%list.
Proof.
  intros Hsegs Hne.
  assert (Path.split (Path.joinSep segs) = segs) as Hsplit.
  { apply split_joinSep; [|done].
    eapply Forall_impl; [exact Hsegs|]. apply isSegment_noSep. }
  destruct absolute; [|done].
  change ("/" ++ Path.joinSep segs) with (String "/" (Path.joinSep segs)).
  cbn [Path.split]. change (Path.isSep "/") with true. cbv iota.
  by rewrite Hsplit.
Qed.

(** Going to the directory of a path that ends in a name, and taking
    the directory of where the path leads, come to the same. *)
Lemma resolve_dirname dir currentDir name :
  isName name = true →
  Path.dirname (Path.join [currentDir; name]) ≠ ""
  ∧ Path.dirname (Path.resolve dir [Path.join [currentDir; name]])
    = Path.resolve dir [Path.dirname (Path.join [currentDir; name])].
Proof.
  intros Hname. destruct (join_name currentDir name Hname) as [segs [Hsegs ->]].
  set (abs := Path.isAbsolute currentDir).
  assert (Forall (λ s, isSegment s = true) (segs ++ [name])) as Hfile.
  { apply Forall_app. split; [done|]. apply Forall_singleton.
    by apply isName_isSegment. }
  set (file := (if abs then "/" else "") ++ Path.joinSep (segs ++ [name])).
  set (parent := Path.dirname file).
  assert (parent = if abs then "/" ++ Path.joinSep segs
                   else if String.eqb (Path.joinSep segs) "" then "."
                        else Path.joinSep segs) as Hparent
    by by apply dirname_segments.
  assert (file ≠ "") as Hfile_ne.
  { unfold file. pose proof (joinSep_segments_nonempty (segs ++ [name]) Hfile
                                ltac:(by destruct segs)) as Hbody.
    destruct abs; [done|]. by destruct (Path.joinSep (segs ++ [name])). }
  assert (parent ≠ "") as Hparent_ne.
  { rewrite Hparent. destruct abs; [done|].
    destruct (String.eqb (Path.joinSep segs) "") eqn:Hempty; [done|].
    by apply String.eqb_neq. }
  split; [done|].
  assert (Path.isAbsolute file = abs) as Hfile_abs.
  { unfold file. destruct abs; [done|]. by apply isAbsolute_segments. }
  assert (Path.isAbsolute parent = abs) as Hparent_abs.
  { rewrite Hparent. destruct abs; [done|].
    destruct (String.eqb (Path.joinSep segs) ""); [done|].
    by apply isAbsolute_segments. }
  rewrite (resolve_chunks dir file Hfile_ne), (resolve_chunks dir parent Hparent_ne).
  cbv zeta. rewrite Hfile_abs, Hparent_abs.
  set (absolute := abs || Path.isAbsolute dir).
  set (before := if abs || String.eqb dir "" then [] else Path.split dir).
  set (stack := fold_left (Path.normalizeStep (negb absolute))
                  (before ++ (if abs then [""] else []) ++ segs)%list []).
  assert (fold_left (Path.normalizeStep (negb absolute))
            (before ++ Path.split file) [] = name :: stack) as ->.
  { unfold file. rewrite split_prefixed by (done || by destruct segs).
    rewrite !app_assoc, fold_left_app. cbn [fold_left].
    rewrite normalizeStep_name by done. unfold stack. by rewrite !app_assoc. }
  assert (fold_left (Path.normalizeStep (negb absolute))
            (before ++ Path.split parent) [] = stack) as ->.
  { unfold stack. rewrite Hparent, !fold_left_app.
    destruct (decide (segs = [])) as [->|Hne].
    - cbn [Path.joinSep]. by destruct abs.
    - pose proof (joinSep_segments_nonempty _ Hsegs Hne) as Hbody.
      apply String.eqb_neq in Hbody. rewrite Hbody.
      destruct abs.
      + rewrite (split_prefixed true segs Hsegs Hne). by rewrite fold_left_app.
      + rewrite split_joinSep; [done| |done].
        eapply Forall_impl; [exact Hsegs|]. apply isSegment_noSep. }
  assert (Forall (λ s, isSegment s = true) stack) as Hstack.
  { apply normalize_segments; [|done]. apply Forall_app. split.
    - unfold before. destruct (abs || String.eqb dir ""); [done|].
      apply split_chunks_noSep.
    - apply Forall_app. split; [by destruct abs; repeat constructor|].
      eapply Forall_impl; [exact Hsegs|]. apply isSegment_noSep. }
  cbn [rev].
  assert (String.eqb (Path.joinSep (rev stack ++ [name])) "" = false) as ->.
  { apply String.eqb_neq, joinSep_segments_nonempty; [|by destruct (rev stack)].
    apply Forall_app. split; [by apply Forall_rev|].
    apply Forall_singleton. by apply isName_isSegment. }
  pose proof (dirname_segments absolute (rev stack) name
                (Forall_rev Hstack) Hname) as Hdir.
  by destruct absolute.
Qed.

(** What the inner loop of [find] returns is one of the names, joined
    to the directory and readable. *)
Lemma findIn_found env dir currentDir names file :
  findIn env dir currentDir names = Some file →
  ∃ name, name ∈ names ∧ file = Path.join [currentDir; name]
          ∧ is_Some (fs env !! Path.resolve dir [file]).
Proof.
  induction names as [|name names IH]; [done|]. cbn [findIn].
  destruct (accessible env dir (Path.join [currentDir; name])) eqn:Hfile.
  - intros [= <-]. exists name. split; [left|]. split; [done|].
    unfold accessible in Hfile. by apply bool_decide_eq_true in Hfile.
  - intros Hrest. destruct (IH Hrest) as [name' [Hname' Hfound]].
    exists name'. split; [by right|done].
Qed.

Lemma find_found env dir directory names file :
  find env dir directory names = Some file →
  ∃ currentDir name, name ∈ names ∧ file = Path.join [currentDir; name]
                     ∧ is_Some (fs env !! Path.resolve dir [file]).
Proof.
  unfold find. generalize (length (Path.split directory)) as n.
  induction n as [|n IH]; [done|]. cbn [findFrom].
  match goal with
  | |- context [findIn env dir ?d names] =>
      destruct (findIn env dir d names) as [found|] eqn:Hin; [|exact IH];
      intros [= <-]; exists d
  end.
  by apply findIn_found.
Qed.

(** On a disk that is a tree, whatever exists lies in a directory. *)
Lemma parent_directory env p :
  is_Some (fs env !! p) → fs env !! Path.dirname p = Some Dir.
Proof. intros [node Hnode]. exact (fsTree env p node Hnode). Qed.

(** The directory of a file that [find] has found exists: a process can
    move there. *)
Lemma find_directory env dir directory names file :
  areNames names →
  find env dir directory names = Some file →
  Path.dirname file ≠ ""
  ∧ fs env !! Path.resolve dir [Path.dirname file] = Some Dir.
Proof.
  intros Hnames Hfind.
  destruct (find_found _ _ _ _ _ Hfind) as [currentDir [name [Hname [-> Hdisk]]]].
  assert (isName name = true) as Hclean
    by (by eapply (proj1 (Forall_forall _ _) Hnames)).
  destruct (resolve_dirname dir currentDir name Hclean) as [Hne <-].
  split; [done|]. by apply parent_directory.
Qed.

(** ** Relative paths between absolute directories *)

Lemma eqb_refl_string (s : string) : String.eqb s s = true.
Proof. by apply String.eqb_eq. Qed.

Lemma dropCommon_same xs : Path.dropCommon xs xs = ([], []).
Proof.
  induction xs as [|x xs IH]; [done|]. cbn [Path.dropCommon].
  by rewrite eqb_refl_string.
Qed.

Lemma dropCommon_prefix xs zs : Path.dropCommon xs (xs ++ zs)%list = ([], zs).
Proof.
  induction xs as [|x xs IH]; [by destruct zs|]. cbn [Path.dropCommon app].
  by rewrite eqb_refl_string.
Qed.

(** The two lists [dropCommon] returns are what is left of its
    arguments after a prefix they share. *)
Lemma dropCommon_split xs ys :
  ∃ common,
    xs = (common ++ fst (Path.dropCommon xs ys))%list
    ∧ ys = (common ++ snd (Path.dropCommon xs ys))%list.
Proof.
  revert ys. induction xs as [|x xs IH]; intros ys; [by exists []|].
  destruct ys as [|y ys]; [by exists []|]. cbn [Path.dropCommon].
  destruct (String.eqb x y) eqn:Heq; [|by exists []].
  apply String.eqb_eq in Heq as <-. destruct (IH ys) as [common [Hxs Hys]].
  exists (x :: common). cbn [app]. by rewrite <- Hxs, <- Hys.
Qed.

Lemma relative_absolute dir xs ys :
  areNames xs → areNames ys →
  Path.relative dir (absolute xs) (absolute ys)
  = Path.joinSep (map (λ _, "..") (fst (Path.dropCommon xs ys))
                  ++ snd (Path.dropCommon xs ys))%list.
Proof.
  intros Hxs Hys. unfold Path.relative.
  destruct (String.eqb (absolute xs) (absolute ys)) eqn:Heq.
  - apply String.eqb_eq, absolute_inj in Heq as <-; [|done..].
    by rewrite dropCommon_same.
  - rewrite !resolve_absolute, Heq by done.
    rewrite !segments_absolute by done.
    by destruct (Path.dropCommon xs ys).
Qed.

(** A [..] takes a name off the stack of segments. *)
Lemma normalize_parents allow stack acc :
  areNames stack →
  fold_left (Path.normalizeStep allow) (map (λ _ : string, "..") stack)
    (stack ++ acc)%list
  = acc.
Proof.
  induction 1 as [|x stack Hx Hstack IH]; [done|].
  cbn [map fold_left app]. unfold Path.normalizeStep at 2.
  change (String.eqb ".." "" || String.eqb ".." ".") with false.
  change (String.eqb ".." "..") with true. cbv iota.
  unfold isName in Hx.
  apply andb_true_iff in Hx as [[[_ _]%andb_true_iff Hx]%andb_true_iff _].
  apply negb_true_iff in Hx. by rewrite Hx.
Qed.

Lemma map_const_rev {A B} (b : B) (l : list A) :
  map (λ _, b) (rev l) = map (λ _, b) l.
Proof.
  induction l as [|x l IH]; [done|]. cbn [rev map]. rewrite map_app, IH.
  clear. induction l as [|y l IH]; [done|]. cbn [map app] in *. by f_equal.
Qed.

Lemma normalize_parents_rev allow (up : list string) acc :
  areNames up →
  fold_left (Path.normalizeStep allow) (map (λ _ : string, "..") up)
    (rev up ++ acc)%list
  = acc.
Proof.
  intros Hup. rewrite <- (map_const_rev ".." up).
  apply normalize_parents. by apply Forall_rev.
Qed.

Lemma isAbsolute_joinSep h t :
  isName h = true → Path.isAbsolute (Path.joinSep (h :: t)) = false.
Proof.
  intros Hh. pose proof (isName_noSep _ Hh) as Hsep.
  apply isName_nonempty in Hh. destruct h as [|c h]; [done|].
  unfold noSep, Path.chars in Hsep. cbn [list_ascii_of_string forallb] in Hsep.
  apply andb_true_iff in Hsep as [Hc%negb_true_iff _].
  destruct t; cbn [Path.joinSep]; [done|]. by rewrite append_cons.
Qed.

Lemma joinSep_nonempty h t : h ≠ "" → Path.joinSep (h :: t) ≠ "".
Proof.
  intros Hh. destruct h as [|c h]; [done|]. by destruct t.
Qed.

Lemma isStep_noSep s : isStep s = true → noSep s = true.
Proof.
  intros [H|H]%orb_true_iff; [by apply isName_noSep|].
  by apply String.eqb_eq in H as ->.
Qed.

(** Resolving, in the directory [common ++ up], the path that climbs
    out of [up] and goes down [down]. *)
Lemma resolve_relative common up down :
  areNames common → areNames up → areNames down →
  Path.resolve (absolute (common ++ up)%list)
    [Path.joinSep (map (λ _, "..") up ++ down)%list]
  = absolute (common ++ down)%list.
Proof.
  intros Hcommon Hup Hdown.
  assert (areNames (common ++ up)) as Hdir by by apply Forall_app.
  set (steps := (map (λ _ : string, "..") up ++ down)%list).
  destruct steps as [|h t] eqn:Hsteps.
  { apply app_eq_nil in Hsteps as [Hup' ->]. destruct up; [|done].
    rewrite !app_nil_r. unfold Path.resolve. cbn [rev app Path.resolveLoop Path.joinSep].
    change (String.eqb "" "") with true. cbv iota.
    change (String.eqb (absolute common) "") with false.
    change (Path.isAbsolute (absolute common)) with true. cbv iota beta.
    rewrite normalizeString_segments.
    2:{ by rewrite split_app, forallb_app, (chunks_absolute _ Hcommon). }
    by rewrite segments_app, (segments_absolute _ Hcommon), app_nil_r. }
  assert (Forall (λ s, isStep s = true) (h :: t)) as Hsafe.
  { rewrite <- Hsteps. apply Forall_app. split.
    - clear. induction up as [|x up IH]; by constructor.
    - eapply Forall_impl; [exact Hdown|]. intros s Hs. unfold isStep.
      by rewrite Hs. }
  assert (h ≠ "") as Hh.
  { apply Forall_inv in Hsafe. intros ->. done. }
  assert (Path.isAbsolute (Path.joinSep (h :: t)) = false) as Hrel.
  { apply Forall_inv in Hsafe. apply isStep_noSep in Hsafe.
    destruct h as [|c h]; [done|].
    unfold noSep, Path.chars in Hsafe. cbn [list_ascii_of_string forallb] in Hsafe.
    apply andb_true_iff in Hsafe as [Hc%negb_true_iff _].
    destruct t; cbn [Path.joinSep]; [done|]. by rewrite append_cons. }
  unfold Path.resolve. cbn [rev app Path.resolveLoop].
  pose proof (joinSep_nonempty h t Hh) as Hne.
  apply String.eqb_neq in Hne. rewrite Hne, Hrel.
  change (String.eqb (absolute (common ++ up)) "") with false.
  change (Path.isAbsolute (absolute (common ++ up))) with true. cbv iota beta.
  unfold Path.normalizeString. rewrite !split_app, !fold_left_app.
  rewrite (normalize_chunks _ _ _ (chunks_absolute _ Hdir)).
  fold (Path.segments (absolute (common ++ up))).
  rewrite (segments_absolute _ Hdir), app_nil_r.
  rewrite split_joinSep.
  2:{ eapply Forall_impl; [exact Hsafe|]. intros s. apply isStep_noSep. }
  2:{ done. }
  rewrite <- Hsteps. unfold steps. rewrite fold_left_app, rev_app_distr.
  rewrite normalize_parents_rev by done.
  rewrite (normalize_chunks _ _ _ (forallb_chunkOK_names _ Hdown)).
  rewrite (filter_names _ Hdown).
  change (Path.split "") with [""]. cbn [fold_left].
  unfold Path.normalizeStep. change (String.eqb "" "" || String.eqb "" ".") with true.
  cbv iota. by rewrite <- rev_app_distr, rev_involutive.
Qed.

(** The relative path from one absolute directory to another, resolved
    in the first, is the second. *)
Lemma relative_round_trip dir dsegs fsegs :
  areNames dsegs → areNames fsegs →
  Path.resolve (absolute dsegs)
    [Path.relative dir (absolute dsegs) (absolute fsegs)]
  = absolute fsegs.
Proof.
  intros Hd Hf. rewrite relative_absolute by done.
  destruct (dropCommon_split dsegs fsegs) as [common [Hdsegs Hfsegs]].
  destruct (Path.dropCommon dsegs fsegs) as [up down]. cbn [fst snd] in *.
  subst dsegs fsegs.
  apply Forall_app in Hd as [Hcommon Hup]. apply Forall_app in Hf as [_ Hdown].
  by apply resolve_relative.
Qed.

(** ** The working directory *)

(** [process.chdir] moves the process to a directory of the disk. *)
Lemma chdir_directory env directory st :
  directory ≠ "" →
  fs env !! Path.resolve (cwd st) [directory] = Some Dir →
  chdir env directory st
  = (Returns (),
     {| Cache := Cache st;
        cwd := Path.resolve (cwd st) [directory];
        spawned := spawned st |}).
Proof.
  intros Hne%String.eqb_neq Hdir. unfold chdir. by rewrite Hne, Hdir.
Qed.

(** Anywhere else it throws, and the process stays where it was. *)
Lemma chdir_throws env directory st :
  fs env !! Path.resolve (cwd st) [directory] ≠ Some Dir →
  ∃ code, chdir env directory st = (Throws (ChdirError code), st).
Proof.
  intros Hdir. unfold chdir. destruct (String.eqb directory ""); [eauto|].
  destruct (fs env !! Path.resolve (cwd st) [directory]) as [[]|]; by eauto.
Qed.

Lemma chdir_state env directory st :
  Cache (snd (chdir env directory st)) = Cache st
  ∧ spawned (snd (chdir env directory st)) = spawned st.
Proof.
  unfold chdir. destruct (String.eqb directory ""); [done|].
  by destruct (fs env !! Path.resolve (cwd st) [directory]) as [[]|].
Qed.

(** For an absolute directory nothing but the disk matters. *)
Lemma chdir_absolute env segs st :
  areNames segs →
  fs env !! absolute segs = Some Dir →
  chdir env (absolute segs) st
  = (Returns (),
     {| Cache := Cache st; cwd := absolute segs; spawned := spawned st |}).
Proof.
  intros Hsegs Hdir. rewrite chdir_directory by (by rewrite ?resolve_absolute).
  by rewrite resolve_absolute.
Qed.

Lemma chdir_absolute_throws env segs st :
  areNames segs →
  fs env !! absolute segs ≠ Some Dir →
  ∃ code, chdir env (absolute segs) st = (Throws (ChdirError code), st).
Proof.
  intros Hsegs Hdir. apply chdir_throws. by rewrite resolve_absolute.
Qed.

(** What [getRelativePath] does: it moves to one of three directories
    and names the file from there; when it cannot move there, the
    exception of [process.chdir] is its own. *)
Lemma getRelativePath_run env fileDir filePath config projectPath st :
  getRelativePath env fileDir filePath config projectPath st =
    let ignoreFile :=
      if disableEslintIgnore config then None
      else find env (cwd st) fileDir [".eslintignore"] in
    let directory :=
      if truthy ignoreFile then Path.dirname (orEmpty ignoreFile)
      else if truthy projectPath then orEmpty projectPath
      else fileDir in
    match chdir env directory st with
    | (Returns _, st') =>
        (Returns
           (if truthy ignoreFile || truthy projectPath
            then Path.relative (cwd st') directory filePath
            else Path.basename filePath),
         st')
    | (Throws e, st') => (Throws e, st')
    end.
Proof.
  unfold getRelativePath, bind at 1. rewrite ignoreFile_run. cbv zeta.
  destruct (truthy (if disableEslintIgnore config then None else _));
    [|destruct (truthy projectPath)]; unfold bind;
    match goal with
    | |- context [chdir env ?d st] => by destruct (chdir env d st) as [[[]|e] st']
    end.
Qed.

(** C9, as the code has it.  With [disableEslintIgnore] set and a
    project path that is absolute and names a directory of the disk,
    [getRelativePath] changes the working directory to the project path
    and returns the path of the file relative to it: the path that,
    resolved in the project directory, is the file.  When the project
    path does not name a directory, the call throws the error of
    [process.chdir] and the working directory stays as it was. *)
Theorem getRelativePath_project_root
    env fileDir filePath config projectPath root st :
  disableEslintIgnore config = true →
  projectPath = Some root →
  root ≠ "" →
  (∀ rsegs fsegs,
     areNames rsegs → areNames fsegs →
     root = absolute rsegs → filePath = absolute fsegs →
     fs env !! root = Some Dir →
     getRelativePath env fileDir filePath config projectPath st
     = (Returns (Path.joinSep
                   (map (λ _, "..") (fst (Path.dropCommon rsegs fsegs))
                    ++ snd (Path.dropCommon rsegs fsegs))%list),
        {| Cache := Cache st; cwd := root; spawned := spawned st |})
     ∧ Path.resolve root
         [Path.joinSep
            (map (λ _, "..") (fst (Path.dropCommon rsegs fsegs))
             ++ snd (Path.dropCommon rsegs fsegs))%list]
       = filePath)
  ∧ (fs env !! Path.resolve (cwd st) [root] ≠ Some Dir →
     ∃ code,
       getRelativePath env fileDir filePath config projectPath st
       = (Throws (ChdirError code), st)).
Proof.
  intros Hdisabled -> Hroot.
  assert (getRelativePath env fileDir filePath config (Some root) st
          = match chdir env root st with
            | (Returns _, st') =>
                (Returns (Path.relative (cwd st') root filePath), st')
            | (Throws e, st') => (Throws e, st')
            end) as Hrun.
  { rewrite getRelativePath_run, Hdisabled. cbv zeta.
    change (truthy None) with false. cbv iota.
    by rewrite (truthy_nonempty _ Hroot). }
  rewrite Hrun. split.
  - intros rsegs fsegs Hrsegs Hfsegs -> -> Hdir.
    rewrite chdir_directory by (by rewrite ?resolve_absolute).
    rewrite resolve_absolute by done. cbn [cwd].
    rewrite <- relative_absolute with (dir := absolute rsegs) by done.
    split; [done|]. by apply relative_round_trip.
  - intros Hmissing. destruct (chdir_throws env root st Hmissing) as [code ->].
    by exists code.
Qed.

(** In the project [/a] of the sample machine, from any directory. *)
Lemma getRelativePath_project_root_witness :
  getRelativePath sampleEnv "/a/b/c" "/a/b/c/index.js" noIgnoreConfig (Some "/a")
    (initialState sampleEnv "/usr")
  = (Returns "b/c/index.js", initialState sampleEnv "/a")
  ∧ Path.resolve "/a" ["b/c/index.js"] = "/a/b/c/index.js".
Proof.
  apply (proj1 (getRelativePath_project_root sampleEnv "/a/b/c" "/a/b/c/index.js"
                  noIgnoreConfig (Some "/a") "/a" (initialState sampleEnv "/usr")
                  eq_refl eq_refl ltac:(discriminate))
           ["a"] ["a"; "b"; "c"; "index.js"]).
  - by repeat constructor.
  - by repeat constructor.
  - reflexivity.
  - reflexivity.
  - reflexivity.
Defined.

(** The claim as stated fails in two ways.  For a project path that
    does not exist the call throws and the working directory stays
    where it was.  For a relative project path, here [a] for a process
    in [/], the call moves to [/a] and then reads [a] from there, as
    [/a/a]: the path it returns leads from [/a] to [/b/c/index.js], not
    to the file. *)
Lemma getRelativePath_project_root_missing_or_relative :
  getRelativePath sampleEnv "/a/b/c" "/a/b/c/index.js" noIgnoreConfig
    (Some "/nowhere") (initialState sampleEnv "/usr")
  = (Throws (ChdirError "ENOENT"), initialState sampleEnv "/usr")
  ∧ getRelativePath sampleEnv "/a/b/c" "/a/b/c/index.js" noIgnoreConfig
      (Some "a") (initialState sampleEnv "/")
    = (Returns "../b/c/index.js", initialState sampleEnv "/a")
  ∧ Path.resolve "/a" ["../b/c/index.js"] = "/b/c/index.js".
Proof. repeat split. Qed.

(** ** The options of the engine *)

(** The options [getCLIEngineOptions] builds, spelled out. *)
Lemma getCLIEngineOptions_run {Rules : Type} env type_ config (rules_ : Rules)
    filePath fileDir givenConfigPath st :
  getCLIEngineOptions env type_ config rules_ filePath fileDir givenConfigPath st
  = (Returns
       {| rules := rules_;
          ignore := negb (disableEslintIgnore config);
          fix_ := String.eqb type_ "fix";
          ignorePath :=
            if disableEslintIgnore config then None
            else find env (cwd st) fileDir [".eslintignore"];
          rulePaths :=
            omap (λ p, if truthy p then p else None)
              (map (rulesDirIn env st fileDir) (eslintRulesDirs config));
          configFile :=
            match givenConfigPath with
            | None =>
                if truthy (eslintrcPath config)
                then Some (cleanPath env (eslintrcPath config)) else None
            | Some _ => None
            end |},
     st).
Proof.
  unfold getCLIEngineOptions, bind at 1. rewrite ignoreFile_run.
  unfold bind at 1. rewrite rulesDirs_run. unfold ret.
  do 2 f_equal. f_equal.
  - destruct (disableEslintIgnore config); [done|apply find_if_truthy].
  - by destruct givenConfigPath.
Qed.

(** C7.  The options [getCLIEngineOptions] returns have [fix] equal to
    [type === 'fix'] and [ignore] equal to the negation of
    [disableEslintIgnore]; [ignorePath] is set exactly when ignoring is
    not disabled and an [.eslintignore] is found upward from [fileDir],
    and is that file; [configFile] is set exactly when the given
    configuration path is [null] and [eslintrcPath] is configured, and
    is the cleaned [eslintrcPath]. *)
Theorem getCLIEngineOptions_fields {Rules : Type} env type_ config (rules_ : Rules)
    filePath fileDir givenConfigPath st :
  ∃ options,
    fst (getCLIEngineOptions env type_ config rules_ filePath fileDir
           givenConfigPath st) = Returns options
    ∧ fix_ options = String.eqb type_ "fix"
    ∧ ignore options = negb (disableEslintIgnore config)
    ∧ ignorePath options
      = (if disableEslintIgnore config then None
         else find env (cwd st) fileDir [".eslintignore"])
    ∧ (is_Some (ignorePath options)
       ↔ disableEslintIgnore config = false
         ∧ is_Some (find env (cwd st) fileDir [".eslintignore"]))
    ∧ configFile options
      = (match givenConfigPath with
         | None =>
             if truthy (eslintrcPath config)
             then Some (cleanPath env (eslintrcPath config)) else None
         | Some _ => None
         end)
    ∧ (is_Some (configFile options)
       ↔ givenConfigPath = None ∧ truthy (eslintrcPath config) = true).
Proof.
  rewrite getCLIEngineOptions_run. eexists. split; [reflexivity|].
  cbn [fix_ ignore ignorePath configFile].
  do 3 (split; [reflexivity|]). split; [|split; [reflexivity|]].
  - destruct (disableEslintIgnore config).
    + split; [intros [? [=]] | intros [[=] _]].
    + split; [by intros Hfound | by intros [_ Hfound]].
  - destruct givenConfigPath as [given|].
    + split; [intros [? [=]] | intros [[=] _]].
    + destruct (truthy (eslintrcPath config)).
      * split; [by intros _ | intros _; eauto].
      * split; [intros [? [=]] | intros [_ [=]]].
Qed.

(** A fix job on the sample machine with the ignore file disabled and a
    fallback configuration [~/.eslintrc]. *)
Lemma getCLIEngineOptions_fields_witness :
  ∃ options,
    fst (getCLIEngineOptions sampleEnv "fix" noIgnoreConfig () "/a/b/c/index.js"
           "/a/b/c" None (initialState sampleEnv "/")) = Returns options
    ∧ fix_ options = true
    ∧ ignore options = false
    ∧ ignorePath options = None
    ∧ configFile options = Some "~/.eslintrc".
Proof.
  destruct (getCLIEngineOptions_fields sampleEnv "fix" noIgnoreConfig ()
              "/a/b/c/index.js" "/a/b/c" None (initialState sampleEnv "/"))
    as [options [Hrun [Hfix [Hignore [Hpath [_ [Hconfig _]]]]]]].
  exists options. repeat split; assumption.
Defined.

(** C10.  [getCLIEngineOptions] leaves the process state, and so the
    working directory, as it was; the [.eslintignore] it finds is only
    recorded as [ignorePath], whereas [getRelativePath], which makes the
    same search, moves the working directory to that file's directory. *)
Theorem getCLIEngineOptions_keeps_cwd {Rules : Type} env type_ config
    (rules_ : Rules) filePath fileDir givenConfigPath projectPath st :
  snd (getCLIEngineOptions env type_ config rules_ filePath fileDir
         givenConfigPath st) = st
  ∧ cwd (snd (getCLIEngineOptions env type_ config rules_ filePath fileDir
                givenConfigPath st)) = cwd st
  ∧ (∀ ignoreFile,
       disableEslintIgnore config = false →
       find env (cwd st) fileDir [".eslintignore"] = Some ignoreFile →
       (∃ options,
          fst (getCLIEngineOptions env type_ config rules_ filePath fileDir
                 givenConfigPath st) = Returns options
          ∧ ignorePath options = Some ignoreFile)
       ∧ cwd (snd (getRelativePath env fileDir filePath config projectPath st))
         = Path.resolve (cwd st) [Path.dirname ignoreFile]).
Proof.
  rewrite getCLIEngineOptions_run. do 2 (split; [reflexivity|]).
  intros ignoreFile Henabled Hfound. split.
  - eexists. split; [reflexivity|]. cbn [ignorePath]. by rewrite Henabled.
  - pose proof (find_truthy env (cwd st) fileDir [".eslintignore"]) as Htruthy.
    rewrite Hfound in Htruthy.
    rewrite getRelativePath_run, Henabled. cbv zeta.
    rewrite Hfound, Htruthy, bool_decide_eq_true_2 by eauto. cbn [orEmpty].
    destruct (find_directory env (cwd st) fileDir [".eslintignore"] ignoreFile
                ltac:(by repeat constructor) Hfound) as [Hne Hdir].
    by rewrite chdir_directory.
Qed.

(** On the sample machine the ignore file of [/a/b/c] is
    [/a/.eslintignore]: the options record it and the working directory
    stays [/usr], while [getRelativePath] moves to [/a]. *)
Lemma getCLIEngineOptions_keeps_cwd_witness :
  (∃ options,
     fst (getCLIEngineOptions sampleEnv "lint" defaultConfig () "/a/b/c/index.js"
            "/a/b/c" None (initialState sampleEnv "/usr")) = Returns options
     ∧ ignorePath options = Some "/a/.eslintignore")
  ∧ cwd (snd (getRelativePath sampleEnv "/a/b/c" "/a/b/c/index.js" defaultConfig
                (Some "/a/b") (initialState sampleEnv "/usr")))
    = "/a".
Proof.
  apply (proj2 (proj2 (getCLIEngineOptions_keeps_cwd sampleEnv "lint" defaultConfig
           () "/a/b/c/index.js" "/a/b/c" None (Some "/a/b")
           (initialState sampleEnv "/usr"))) "/a/.eslintignore");
    reflexivity.
Defined.

(** ** Finding the configuration file *)

Lemma findIn_probes env dir currentDir names rest :
  List.find (accessible env dir)
    (map (λ fileName, Path.join [currentDir; fileName]) names ++ rest)%list
  = match findIn env dir currentDir names with
    | Some file => Some file
    | None => List.find (accessible env dir) rest
    end.
Proof.
  induction names as [|fileName others IH]; [done|].
  cbn [map app List.find findIn].
  by destruct (accessible env dir (Path.join [currentDir; fileName])).
Qed.

(** [find] returns the first probe that is readable. *)
Lemma find_probes env dir directory names :
  find env dir directory names
  = List.find (accessible env dir) (probes dir directory names).
Proof.
  unfold find, probes. generalize (Path.split directory) at 1 3. intros chunks.
  induction (length _) as [|n IH]; [done|].
  cbn [findFrom probesFrom]. rewrite findIn_probes.
  by destruct (findIn env dir _ names).
Qed.

(** The four ways a call of [getConfigPath] goes on. *)
Lemma getConfigPath_none env depth fileDir st :
  find env (cwd st) fileDir configFileNames = None →
  getConfigPath env (S depth) fileDir st = Some (Returns None).
Proof. intros Hfind. cbn [getConfigPath]. by rewrite Hfind. Qed.

Lemma getConfigPath_found env depth fileDir st file :
  find env (cwd st) fileDir configFileNames = Some file →
  Path.basename file ≠ "package.json" →
  getConfigPath env (S depth) fileDir st = Some (Returns (Some file)).
Proof.
  intros Hfind Hname. cbn [getConfigPath].
  pose proof (find_truthy env (cwd st) fileDir configFileNames) as Htruthy.
  rewrite Hfind in *. rewrite Htruthy, bool_decide_eq_true_2 by eauto. cbn [orEmpty].
  by apply String.eqb_neq in Hname as ->.
Qed.

Lemma getConfigPath_manifest env depth fileDir st file :
  find env (cwd st) fileDir configFileNames = Some file →
  Path.basename file = "package.json" →
  getConfigPath env (S depth) fileDir st =
    match require env file with
    | LoadThrows code => Some (Throws (RequireError code))
    | Loaded manifest =>
        if eslintConfig manifest then Some (Returns (Some file))
        else getConfigPath env depth
               (Path.resolve (cwd st) [Path.dirname file; ".."]) st
    end.
Proof.
  intros Hfind Hname. cbn [getConfigPath].
  pose proof (find_truthy env (cwd st) fileDir configFileNames) as Htruthy.
  rewrite Hfind in *. rewrite Htruthy, bool_decide_eq_true_2 by eauto. cbn [orEmpty].
  by apply String.eqb_eq in Hname as ->.
Qed.

(** A call that returns keeps its answer when deeper nesting is
    allowed. *)
Lemma getConfigPath_deeper env depth depth' fileDir st answer :
  getConfigPath env depth fileDir st = Some answer →
  (depth ≤ depth')%nat →
  getConfigPath env depth' fileDir st = Some answer.
Proof.
  revert depth' fileDir. induction depth as [|depth IH]; intros depth' fileDir; [done|].
  intros Hanswer Hle. destruct depth' as [|depth']; [lia|].
  cbn [getConfigPath] in *.
  destruct (truthy (find env (cwd st) fileDir configFileNames)); [|done].
  destruct (String.eqb _ "package.json"); [|done].
  destruct (require env _) as [manifest|code]; [|done].
  destruct (eslintConfig manifest); [done|].
  apply IH; [done|lia].
Qed.

(** A manifest without configuration whose directory is its own parent
    sends the search back to where it started. *)
Lemma getConfigPath_restarts_in_place env fileDir st file manifest :
  find env (cwd st) fileDir configFileNames = Some file →
  Path.basename file = "package.json" →
  require env file = Loaded manifest →
  eslintConfig manifest = false →
  Path.resolve (cwd st) [Path.dirname file; ".."] = fileDir →
  ∀ depth, getConfigPath env depth fileDir st = None.
Proof.
  intros Hfind Hname Hload Hbare Hparent depth.
  induction depth as [|depth IH]; [done|].
  rewrite (getConfigPath_manifest _ _ _ _ _ Hfind Hname), Hload, Hbare, Hparent.
  exact IH.
Qed.

(** The directory a bare manifest sends the search to is the parent of
    the manifest's directory. *)
Lemma restart_directory dir segs :
  areNames segs →
  Path.resolve dir [Path.dirname (absolute (segs ++ ["package.json"])); ".."]
  = absolute (removelast segs).
Proof.
  intros Hsegs. by rewrite dirname_absolute, resolve_parent.
Qed.

(** The search in a tree [a/b/c], anywhere on disk, whose only candidate
    is a bare [a/package.json]. *)
Lemma getConfigPath_single_manifest_tree env st p a b c manifest depth :
  areNames (p ++ [a; b; c]) →
  (∀ q, Path.basename q ∈ configFileNames → is_Some (fs env !! q) →
        q = absolute (p ++ [a; "package.json"])) →
  is_Some (fs env !! absolute (p ++ [a; "package.json"])) →
  require env (absolute (p ++ [a; "package.json"])) = Loaded manifest →
  eslintConfig manifest = false →
  getConfigPath env (S (S depth)) (absolute (p ++ [a; b; c])) st
  = Some (Returns None).
Proof.
  intros Htree Honly Hmanifest Hload Hbare.
  destruct (find_single_manifest_tree env (cwd st) p a b c Htree Honly Hmanifest)
    as [Hfirst Hparent].
  assert (areNames (p ++ [a])) as Hpa.
  { apply Forall_app in Htree as [Hp Habc]. apply Forall_inv in Habc.
    apply Forall_app. split; [done|]. by apply Forall_singleton. }
  change (p ++ [a; "package.json"])%list with (p ++ [a] ++ ["package.json"])%list in *.
  rewrite app_assoc in *.
  rewrite (getConfigPath_manifest _ _ _ _ _ Hfirst)
    by by apply basename_absolute.
  rewrite Hload, Hbare, dirname_absolute, resolve_parent, removelast_last by done.
  by apply getConfigPath_none.
Qed.

Lemma sampleEnv_single_manifest p :
  Path.basename p ∈ configFileNames → is_Some (fs sampleEnv !! p) →
  p = "/a/package.json".
Proof.
  intros Hname [node Hnode]. cbn [sampleEnv fs] in Hnode.
  apply elem_of_list_to_map_2 in Hnode.
  repeat (apply elem_of_cons in Hnode as [[= -> ->] | Hnode]);
    try reflexivity; try (by apply elem_of_nil in Hnode);
    exfalso; vm_compute in Hname;
    repeat (apply elem_of_cons in Hname as [[=] | Hname]);
    by apply elem_of_nil in Hname.
Qed.

(** C5.  [getConfigPath] takes the first match of an upward search for
    the candidate names, of which [package.json] is the last: nothing
    found gives [null], a match other than [package.json] is returned,
    and so is a [package.json] with an [eslintConfig] section; a
    [package.json] without one makes the whole search start again from
    the parent of the directory of that file (for [/x/y/package.json]
    from [/x]).  Consequently, when the
    only candidate on disk is [a/package.json], for a directory [a]
    anywhere on disk, and it has no [eslintConfig] section, the search
    from [a/b/c] returns [null]. *)
Theorem getConfigPath_skips_bare_manifest :
  last configFileNames = Some "package.json"
  ∧ (∀ env dir directory,
       find env dir directory configFileNames
       = List.find (accessible env dir) (probes dir directory configFileNames))
  ∧ (∀ env depth fileDir st,
       (find env (cwd st) fileDir configFileNames = None →
        getConfigPath env (S depth) fileDir st = Some (Returns None))
       ∧ (∀ file,
            find env (cwd st) fileDir configFileNames = Some file →
            Path.basename file ≠ "package.json" →
            getConfigPath env (S depth) fileDir st = Some (Returns (Some file)))
       ∧ (∀ file manifest,
            find env (cwd st) fileDir configFileNames = Some file →
            Path.basename file = "package.json" →
            require env file = Loaded manifest →
            eslintConfig manifest = true →
            getConfigPath env (S depth) fileDir st = Some (Returns (Some file)))
       ∧ (∀ file manifest,
            find env (cwd st) fileDir configFileNames = Some file →
            Path.basename file = "package.json" →
            require env file = Loaded manifest →
            eslintConfig manifest = false →
            getConfigPath env (S depth) fileDir st
            = getConfigPath env depth
                (Path.resolve (cwd st) [Path.dirname file; ".."]) st))
  ∧ (∀ dir segs,
       areNames segs →
       Path.resolve dir [Path.dirname (absolute (segs ++ ["package.json"])); ".."]
       = absolute (removelast segs))
  ∧ (∀ env st p a b c manifest depth,
       areNames (p ++ [a; b; c]) →
       (∀ q, Path.basename q ∈ configFileNames → is_Some (fs env !! q) →
             q = absolute (p ++ [a; "package.json"])) →
       is_Some (fs env !! absolute (p ++ [a; "package.json"])) →
       require env (absolute (p ++ [a; "package.json"])) = Loaded manifest →
       eslintConfig manifest = false →
       getConfigPath env (S (S depth)) (absolute (p ++ [a; b; c])) st
       = Some (Returns None)).
Proof.
  split; [reflexivity|]. split; [intros; apply find_probes|]. split.
  - intros env depth fileDir st. split; [apply getConfigPath_none|].
    split; [apply getConfigPath_found|].
    split; intros file manifest Hfind Hname Hload Hconfig;
      by rewrite (getConfigPath_manifest _ _ _ _ _ Hfind Hname), Hload, Hconfig.
  - split; [apply restart_directory|].
    intros env st p a b c manifest depth. apply getConfigPath_single_manifest_tree.
Qed.

(** The project [/a/b/c] of the sample machine has no configuration. *)
Lemma getConfigPath_skips_bare_manifest_witness :
  getConfigPath sampleEnv 2 "/a/b/c" (initialState sampleEnv "/") = Some (Returns None).
Proof.
  apply (proj2 (proj2 (proj2 (proj2 getConfigPath_skips_bare_manifest)))
           sampleEnv (initialState sampleEnv "/") [] "a" "b" "c"
           (bareManifest "/a/package.json") 0).
  - by repeat constructor.
  - exact sampleEnv_single_manifest.
  - by eexists.
  - reflexivity.
  - reflexivity.
Defined.

(** C6 fails on a disk with a [package.json] without configuration in
    the root directory: every search that reaches it is sent back to the
    root, where it finds the same file again, so the call returns at no
    nesting depth. *)
Theorem getConfigPath_root_manifest_never_returns :
  ∀ depth,
    getConfigPath rootManifestEnv depth "/" (initialState rootManifestEnv "/a/b")
    = None
    ∧ getConfigPath rootManifestEnv depth "/a/b"
        (initialState rootManifestEnv "/a/b")
      = None.
Proof.
  assert (∀ depth,
            getConfigPath rootManifestEnv depth "/"
              (initialState rootManifestEnv "/a/b") = None) as Hroot.
  { by apply (getConfigPath_restarts_in_place rootManifestEnv "/"
                (initialState rootManifestEnv "/a/b") "/package.json"
                (bareManifest "/package.json")). }
  intros depth. split; [apply Hroot|].
  destruct depth as [|depth]; [reflexivity|].
  rewrite (getConfigPath_manifest rootManifestEnv depth "/a/b"
             (initialState rootManifestEnv "/a/b") "/package.json");
    [apply Hroot | reflexivity | reflexivity].
Qed.

(** The same on any disk: a bare [/package.json] that is the first match
    in the root directory keeps the search in the root for ever. *)
Lemma getConfigPath_root_loops env st manifest :
  find env (cwd st) "/" configFileNames = Some "/package.json" →
  require env "/package.json" = Loaded manifest →
  eslintConfig manifest = false →
  ∀ depth, getConfigPath env depth "/" st = None.
Proof.
  intros Hfind Hload Hbare.
  by apply (getConfigPath_restarts_in_place env "/" st "/package.json" manifest).
Qed.

(** X1.  The root is the only place where a search can go on for ever.
    Unless a bare [/package.json] is the first match in the root
    directory, the search from any absolute directory returns, at a
    nesting depth of at most one call per segment of the directory plus
    one. *)
Theorem getConfigPath_returns_above_root env st segs :
  areNames segs →
  (∀ manifest,
     find env (cwd st) "/" configFileNames = Some "/package.json" →
     require env "/package.json" = Loaded manifest →
     eslintConfig manifest = true) →
  ∃ answer,
    ∀ depth, (length segs < depth)%nat →
      getConfigPath env depth (absolute segs) st = Some answer.
Proof.
  intros Hsegs Hroot.
  assert (∀ n segs, areNames segs → (length segs ≤ n)%nat →
            ∃ answer, getConfigPath env (S n) (absolute segs) st = Some answer)
    as Hall.
  2:{ destruct (Hall (length segs) segs Hsegs (Nat.le_refl _)) as [answer Hanswer].
      exists answer. intros depth Hdepth.
      apply (getConfigPath_deeper _ _ _ _ _ _ Hanswer). lia. }
  clear segs Hsegs. induction n as [|n IH]; intros segs Hsegs Hlen.
  - destruct (find env (cwd st) (absolute segs) configFileNames) as [file|] eqn:Hfind;
      [|rewrite (getConfigPath_none _ _ _ _ Hfind); eauto].
    destruct (find_absolute _ _ _ _ _ Hsegs configFileNames_names Hfind)
      as [k [name [Hk [Hname [Hfile [Hdisk Hin]]]]]].
    assert (isName name = true) as Hclean
      by (by eapply (proj1 (Forall_forall _ _) configFileNames_names)).
    destruct (decide (name = "package.json")) as [->|Hother].
    + rewrite (getConfigPath_manifest _ _ _ _ _ Hfind)
        by (rewrite Hfile; by apply basename_absolute).
      destruct (require env file) as [manifest|code] eqn:Hload; [|eauto].
      destruct (eslintConfig manifest) eqn:Hconfig; [eauto|].
      destruct segs; [|cbn in Hlen; lia]. destruct k; [|cbn in Hk; lia].
      cbn in Hfile. subst file.
      rewrite (Hroot manifest Hfind Hload) in Hconfig. done.
    + rewrite (getConfigPath_found _ _ _ _ _ Hfind); [eauto|].
      rewrite Hfile. by rewrite basename_absolute.
  - destruct (find env (cwd st) (absolute segs) configFileNames) as [file|] eqn:Hfind;
      [|rewrite (getConfigPath_none _ _ _ _ Hfind); eauto].
    destruct (find_absolute _ _ _ _ _ Hsegs configFileNames_names Hfind)
      as [k [name [Hk [Hname [Hfile [Hdisk Hin]]]]]].
    assert (isName name = true) as Hclean
      by (by eapply (proj1 (Forall_forall _ _) configFileNames_names)).
    destruct (decide (name = "package.json")) as [->|Hother].
    + rewrite (getConfigPath_manifest _ _ _ _ _ Hfind)
        by (rewrite Hfile; by apply basename_absolute).
      destruct (require env file) as [manifest|code] eqn:Hload; [|eauto].
      destruct (eslintConfig manifest) eqn:Hconfig; [eauto|].
      rewrite Hfile, dirname_absolute by (by try apply Forall_take).
      rewrite resolve_parent by by apply Forall_take.
      apply IH.
      * by apply Forall_removelast, Forall_take.
      * by apply length_removelast_take.
    + rewrite (getConfigPath_found _ _ _ _ _ Hfind); [eauto|].
      rewrite Hfile. by rewrite basename_absolute.
Qed.

(** ** The package-manager prefix *)

Lemma getNodePrefixPath_cached env st prefix :
  NODE_PREFIX_PATH (Cache st) = Some prefix →
  getNodePrefixPath env st = (Returns prefix, st).
Proof. intros Hcached. unfold getNodePrefixPath. run. by rewrite Hcached. Qed.

Lemma getNodePrefixPath_spawns env st :
  NODE_PREFIX_PATH (Cache st) = None →
  getNodePrefixPath env st =
    match output (spawnSync env (spawned st) (npmCommand env) ["get"; "prefix"]) with
    | Some out =>
        match out !! 1 with
        | Some (Some stdout) => (Returns (trim stdout), memoized st (trim stdout))
        | _ => (Throws PrefixResolutionError,
                {| Cache := Cache st; cwd := cwd st; spawned := S (spawned st) |})
        end
    | None => (Throws PrefixResolutionError,
               {| Cache := Cache st; cwd := cwd st; spawned := S (spawned st) |})
    end.
Proof.
  intros Hempty. unfold getNodePrefixPath. run. rewrite Hempty.
  cbv [spawn setNodePrefixPath].
  destruct (output _) as [out|]; [|done].
  by destruct (out !! 1) as [[stdout|]|].
Qed.

Lemma getNodePrefixPath_returns env st prefix st' :
  getNodePrefixPath env st = (Returns prefix, st') →
  NODE_PREFIX_PATH (Cache st') = Some prefix ∧ (spawned st' ≤ S (spawned st))%nat.
Proof.
  destruct (NODE_PREFIX_PATH (Cache st)) as [cached|] eqn:Hcache.
  - rewrite (getNodePrefixPath_cached _ _ _ Hcache). intros [= <- <-]. split; [done|lia].
  - rewrite (getNodePrefixPath_spawns _ _ Hcache).
    destruct (output _) as [out|]; [|discriminate].
    destruct (out !! 1) as [[stdout|]|]; try discriminate.
    intros [= <- <-]. by split.
Qed.

(** Every helper keeps a memoized prefix and starts no subprocess while
    there is one. *)
Lemma findESLintDirectory_state env modulesDir config projectPath st :
  snd (findESLintDirectory env modulesDir config projectPath st)
  = if useGlobalEslint config then snd (globalPrefixPath env config st) else st.
Proof.
  destruct (useGlobalEslint config) eqn:Hmode.
  - destruct (globalPrefixPath env config st) as [[prefix|e] st1] eqn:Hprefix.
    + rewrite (findESLintDirectory_global _ _ _ _ _ _ _ Hmode Hprefix). cbv zeta.
      by repeat destruct (isDirectoryIn env st1 _).
    + by rewrite (findESLintDirectory_global_throws _ _ _ _ _ _ _ Hmode Hprefix).
  - destruct (findESLintDirectory_local env modulesDir config projectPath st Hmode)
      as [location [-> _]]. done.
Qed.

Lemma getESLintFromDirectory_state env modulesDir config projectPath st :
  snd (getESLintFromDirectory env modulesDir config projectPath st)
  = snd (findESLintDirectory env modulesDir config projectPath st).
Proof.
  destruct (findESLintDirectory env modulesDir config projectPath st)
    as [[location|e] st1] eqn:Hfound.
  - rewrite (getESLintFromDirectory_located _ _ _ _ _ _ _ Hfound).
    destruct (require env (path location)) as [exports|code]; [done|].
    destruct (useGlobalEslint config && _); [done|].
    unfold load. by destruct (require env _).
  - unfold getESLintFromDirectory, bind. by rewrite Hfound.
Qed.

Lemma getRelativePath_state env fileDir filePath config projectPath st :
  Cache (snd (getRelativePath env fileDir filePath config projectPath st)) = Cache st
  ∧ spawned (snd (getRelativePath env fileDir filePath config projectPath st))
    = spawned st.
Proof.
  rewrite getRelativePath_run. cbv zeta.
  match goal with
  | |- context [chdir env ?d st] =>
      pose proof (chdir_state env d st) as Hstate;
      by destruct (chdir env d st) as [[[]|e] st']
  end.
Qed.

Lemma memoized_prefix_kept env call st prefix :
  NODE_PREFIX_PATH (Cache st) = Some prefix →
  NODE_PREFIX_PATH (Cache (stateAfter env call st)) = Some prefix
  ∧ spawned (stateAfter env call st) = spawned st.
Proof.
  intros Hcached.
  assert (snd (getNodePrefixPath env st) = st) as Hprefix
    by by rewrite (getNodePrefixPath_cached _ _ _ Hcached).
  assert (∀ config, snd (globalPrefixPath env config st) = st) as Hglobal.
  { intros config. unfold globalPrefixPath. by destruct (String.eqb _ ""). }
  assert (∀ modulesDir config projectPath,
            snd (findESLintDirectory env modulesDir config projectPath st) = st)
    as Hfind.
  { intros. rewrite findESLintDirectory_state, Hglobal.
    by destruct (useGlobalEslint config). }
  destruct call; cbn [stateAfter].
  - by rewrite Hprefix.
  - by rewrite Hfind.
  - by rewrite getESLintFromDirectory_state, Hfind.
  - destruct (getRelativePath_state env fileDir filePath config projectPath st)
      as [-> ->]. done.
  - by rewrite getCLIEngineOptions_run.
Qed.

Lemma memoized_prefix_kept_all env calls st prefix :
  NODE_PREFIX_PATH (Cache st) = Some prefix →
  NODE_PREFIX_PATH (Cache (stateAfterAll env calls st)) = Some prefix
  ∧ spawned (stateAfterAll env calls st) = spawned st.
Proof.
  revert st. induction calls as [|call calls IH]; intros st Hcached; [done|].
  change (stateAfterAll env (call :: calls) st)
    with (stateAfterAll env calls (stateAfter env call st)).
  destruct (memoized_prefix_kept env call st prefix Hcached) as [Hkept Hcount].
  destruct (IH _ Hkept) as [Hkept' Hcount'].
  split; [done|]. by rewrite Hcount'.
Qed.

(** C8, as the code has it.  [getNodePrefixPath] starts [npm get prefix]
    only while no prefix is memoized.  With a memoized prefix it returns
    that prefix and starts nothing; a call that returns has started at
    most one subprocess, and after it, whatever helpers the process
    calls, no subprocess is started any more and [getNodePrefixPath]
    returns the same prefix.  Without a memoized
    prefix it throws the prefix-resolution error, and memoizes nothing,
    when the subprocess could not be started; and whenever the
    subprocess delivered a standard output, whatever its exit status, it
    returns and memoizes the trimmed output. *)
Theorem getNodePrefixPath_memoizes env st :
  (∀ prefix,
     NODE_PREFIX_PATH (Cache st) = Some prefix →
     getNodePrefixPath env st = (Returns prefix, st))
  ∧ (∀ prefix st',
       getNodePrefixPath env st = (Returns prefix, st') →
       (spawned st' ≤ S (spawned st))%nat
       ∧ ∀ calls,
           spawned (stateAfterAll env calls st') = spawned st'
           ∧ fst (getNodePrefixPath env (stateAfterAll env calls st'))
             = Returns prefix)
  ∧ (NODE_PREFIX_PATH (Cache st) = None →
     let r := spawnSync env (spawned st) (npmCommand env) ["get"; "prefix"] in
     (couldNotSpawn r →
      fst (getNodePrefixPath env st) = Throws PrefixResolutionError
      ∧ NODE_PREFIX_PATH (Cache (snd (getNodePrefixPath env st))) = None)
     ∧ (∀ out stdout,
          output r = Some out → out !! 1 = Some (Some stdout) →
          getNodePrefixPath env st
          = (Returns (trim stdout), memoized st (trim stdout)))).
Proof.
  split; [apply getNodePrefixPath_cached|]. split.
  - intros prefix st' Hcall.
    destruct (getNodePrefixPath_returns _ _ _ _ Hcall) as [Hcached Hcount].
    split; [exact Hcount|]. intros calls.
    destruct (memoized_prefix_kept_all env calls st' prefix Hcached) as [Hkept Hsame].
    split; [exact Hsame|]. by rewrite (getNodePrefixPath_cached _ _ _ Hkept).
  - intros Hempty r. rewrite (getNodePrefixPath_spawns _ _ Hempty). fold r. split.
    + intros [_ Hout]. rewrite Hout. by simpl.
    + intros out stdout Hout Hstdout. by rewrite Hout, Hstdout.
Qed.

(** On the sample machine the first call starts npm and memoizes
    [/usr/local]; the second returns it from the cache. *)
Lemma getNodePrefixPath_memoizes_witness :
  let st' := memoized (initialState sampleEnv "/") "/usr/local" in
  let calls := [CallGetRelativePath "/a/b/c" "/a/b/c/index.js" defaultConfig None;
                CallFindESLintDirectory None globalConfig None] in
  spawned (stateAfterAll sampleEnv calls st') = 1
  ∧ fst (getNodePrefixPath sampleEnv (stateAfterAll sampleEnv calls st'))
    = Returns "/usr/local".
Proof.
  apply (proj2 (proj1 (proj2 (getNodePrefixPath_memoizes
           sampleEnv (initialState sampleEnv "/"))) "/usr/local"
           (memoized (initialState sampleEnv "/") "/usr/local") eq_refl)).
Defined.

(** Without npm the call throws and memoizes nothing, so the next call
    tries again. *)
Example getNodePrefixPath_without_npm :
  couldNotSpawn (spawnSync noNpmEnv 0 "npm.cmd" ["get"; "prefix"])
  ∧ getNodePrefixPath noNpmEnv (initialState noNpmEnv "/")
    = (Throws PrefixResolutionError,
       {| Cache := initialCache noNpmEnv; cwd := "/"; spawned := 1 |})
  ∧ spawned (stateAfterAll noNpmEnv [CallGetNodePrefixPath; CallGetNodePrefixPath]
               (initialState noNpmEnv "/")) = 2.
Proof. repeat split. by eexists. Qed.

(** The claim as stated fails when npm runs and exits with a non-zero
    status: the call does not throw, it returns what npm printed (here
    nothing) and memoizes it. *)
Lemma getNodePrefixPath_abnormal_exit_returns :
  exitedAbnormally (spawnSync npmFailsEnv 0 (npmCommand npmFailsEnv) ["get"; "prefix"])
  ∧ getNodePrefixPath npmFailsEnv (initialState npmFailsEnv "/")
    = (Returns "", memoized (initialState npmFailsEnv "/") "")
  ∧ fst (getNodePrefixPath npmFailsEnv (initialState npmFailsEnv "/"))
    ≠ Throws PrefixResolutionError.
Proof. repeat split; discriminate. Qed.

(** * Further properties *)

(** ** Upward searches from an absolute directory *)

Lemma endsWithSep_joinSep ns :
  areNames ns → ns ≠ [] → Path.endsWithSep (Path.joinSep ns) = false.
Proof.
  intros Hns Hne. destruct ns as [|x l _] using rev_ind; [done|].
  apply Forall_app in Hns as [Hl Hx]. apply Forall_inv in Hx.
  destruct l as [|y l].
  - by apply endsWithSep_noSep, isName_noSep.
  - rewrite joinSep_snoc by done. rewrite <- append_assoc.
    rewrite endsWithSep_app by by apply isName_nonempty.
    by apply endsWithSep_noSep, isName_noSep.
Qed.

(** A relative path below an absolute directory. *)
Lemma join_absolute_rel segs ns :
  areNames segs → areNames ns → ns ≠ [] →
  Path.join [absolute segs; Path.joinSep ns] = absolute (segs ++ ns).
Proof.
  intros Hsegs Hns Hne.
  pose proof (joinSep_names_nonempty _ Hns Hne) as Hrel.
  unfold Path.join. rewrite filter_cons_True by done.
  rewrite filter_cons_True by done. rewrite filter_nil.
  change (Path.joinSep [absolute segs; Path.joinSep ns])
    with (absolute segs ++ "/" ++ Path.joinSep ns).
  unfold Path.normalize.
  change (String.eqb (absolute segs ++ "/" ++ Path.joinSep ns) "") with false.
  change (Path.isAbsolute (absolute segs ++ "/" ++ Path.joinSep ns)) with true.
  cbv iota.
  rewrite normalizeString_segments
    by (by rewrite split_app, forallb_app, (chunks_absolute _ Hsegs), chunks_joinSep).
  rewrite segments_app, (segments_absolute _ Hsegs), (segments_joinSep _ Hns).
  assert (Path.joinSep (segs ++ ns) ≠ "") as Hbody.
  { apply joinSep_names_nonempty; [by apply Forall_app|]. by destruct segs, ns. }
  apply String.eqb_neq in Hbody. rewrite Hbody.
  rewrite <- append_assoc, endsWithSep_app by done.
  by rewrite endsWithSep_joinSep.
Qed.

Lemma areNames_app_rel segs ns :
  areNames segs → areNames ns → areNames (segs ++ ns).
Proof. intros. by apply Forall_app. Qed.

(** The inner loop of [find] in an absolute directory: the first of the
    relative paths that exists there. *)
Lemma findIn_rel_spec env dir segs rels :
  areNames segs → areRels rels →
  match findIn env dir (absolute segs) (map Path.joinSep rels) with
  | Some file =>
      ∃ before ns after,
        rels = (before ++ ns :: after)%list
        ∧ file = absolute (segs ++ ns)
        ∧ is_Some (fs env !! file)
        ∧ Forall (λ ms, fs env !! absolute (segs ++ ms) = None) before
  | None => Forall (λ ms, fs env !! absolute (segs ++ ms) = None) rels
  end.
Proof.
  intros Hsegs Hrels.
  induction Hrels as [|ns rels [Hne Hns] Hrels IH]; [by constructor|].
  cbn [map findIn]. rewrite (join_absolute_rel _ _ Hsegs Hns Hne).
  rewrite accessible_absolute by by apply Forall_app.
  case_bool_decide as Hfile.
  - exists [], ns, rels. by repeat split.
  - apply eq_None_not_Some in Hfile.
    destruct (findIn env dir (absolute segs) (map Path.joinSep rels)) as [file|].
    + destruct IH as [before [ms [after [-> [Hfile' [Hdisk Hbefore]]]]]].
      exists (ns :: before), ms, after. repeat split; try done. by constructor.
    + by constructor.
Qed.

(** [find] from an absolute directory returns the first of the relative
    paths that exists in the nearest ancestor holding one of them. *)
Lemma find_rel_spec env dir segs rels :
  areNames segs → areRels rels →
  match find env dir (absolute segs) (map Path.joinSep rels) with
  | Some file =>
      ∃ k before ns after,
        (k ≤ length segs)%nat
        ∧ rels = (before ++ ns :: after)%list
        ∧ file = absolute (take k segs ++ ns)
        ∧ is_Some (fs env !! file)
        ∧ noneAt env segs before k
        ∧ ∀ j, (k < j ≤ length segs)%nat → noneAt env segs rels j
  | None => ∀ j, (j ≤ length segs)%nat → noneAt env segs rels j
  end.
Proof.
  intros Hsegs Hrels. unfold find.
  pose proof (length_split_absolute _ Hsegs) as Hlen.
  assert (∀ n, (n ≤ length (Path.split (absolute segs)))%nat →
            match findFrom env dir (absolute segs) (Path.split (absolute segs))
                    (map Path.joinSep rels) n with
            | Some file =>
                ∃ m before ns after,
                  (m < n)%nat
                  ∧ rels = (before ++ ns :: after)%list
                  ∧ file = absolute (take m segs ++ ns)
                  ∧ is_Some (fs env !! file)
                  ∧ noneAt env segs before m
                  ∧ ∀ j, (m < j < n)%nat → noneAt env segs rels j
            | None => ∀ j, (j < n)%nat → noneAt env segs rels j
            end) as Hloop.
  { induction n as [|n IH]; [intros _ j Hj; lia|]. intros Hn. cbn [findFrom].
    pose proof (currentDir_absolute dir segs n Hsegs) as Hdir.
    cbv zeta in Hdir. rewrite Hdir by lia.
    pose proof (findIn_rel_spec env dir (take n segs) rels
                  (Forall_take _ _ _ Hsegs) Hrels) as Hin.
    destruct (findIn env dir (absolute (take n segs)) (map Path.joinSep rels))
      as [file|].
    - destruct Hin as [before [ns [after [Hsplit [Hfile [Hdisk Hbefore]]]]]].
      exists n, before, ns, after. repeat split; try done; try lia.
    - specialize (IH ltac:(lia)).
      destruct (findFrom env dir (absolute segs) _ _ n) as [file|].
      + destruct IH as [m [before [ns [after [Hm [Hsplit [Hfile [Hdisk [Hbefore Hnear]]]]]]]]].
        exists m, before, ns, after. repeat split; try done; try lia.
        intros j Hj. destruct (decide (j = n)) as [->|]; [done|]. apply Hnear. lia.
      + intros j Hj. destruct (decide (j = n)) as [->|]; [done|]. apply IH. lia. }
  specialize (Hloop _ (Nat.le_refl _)).
  destruct (findFrom env dir (absolute segs) _ _ _) as [file|].
  - destruct Hloop as [m [before [ns [after [Hm [Hsplit [Hfile [Hdisk [Hbefore Hnear]]]]]]]]].
    assert (take (m `min` length segs) segs = take m segs) as Htake.
    { destruct (decide (m ≤ length segs)%nat).
      - by rewrite Nat.min_l by lia.
      - rewrite Nat.min_r by lia. by rewrite !take_ge by lia. }
    exists (m `min` length segs)%nat, before, ns, after.
    unfold noneAt in *. rewrite Htake. repeat split; try done; try lia.
    intros j Hj. apply Hnear. lia.
  - intros j Hj. apply Hloop. lia.
Qed.

Lemma joinSep_singletons names :
  map Path.joinSep (map (λ n, [n]) names) = names.
Proof. induction names as [|n names IH]; [done|]. cbn [map]. by rewrite IH. Qed.

Lemma areRels_singletons names :
  areNames names → areRels (map (λ n, [n]) names).
Proof.
  induction 1 as [|n names Hn Hnames IH]; constructor; [|done].
  split; [done|]. by apply Forall_singleton.
Qed.

(** [find] for plain names: the nearest ancestor holding one of them,
    and in it the first name that exists. *)
Lemma find_names_spec env dir segs names :
  areNames segs → areNames names →
  match find env dir (absolute segs) names with
  | Some file =>
      ∃ k before name after,
        (k ≤ length segs)%nat
        ∧ names = (before ++ name :: after)%list
        ∧ file = absolute (take k segs ++ [name])
        ∧ is_Some (fs env !! file)
        ∧ (∀ n, n ∈ before → fs env !! absolute (take k segs ++ [n]) = None)
        ∧ ∀ j n, (k < j ≤ length segs)%nat → n ∈ names →
            fs env !! absolute (take j segs ++ [n]) = None
  | None =>
      ∀ j n, (j ≤ length segs)%nat → n ∈ names →
        fs env !! absolute (take j segs ++ [n]) = None
  end.
Proof.
  intros Hsegs Hnames.
  pose proof (find_rel_spec env dir segs _ Hsegs (areRels_singletons _ Hnames))
    as Hspec.
  rewrite joinSep_singletons in Hspec.
  assert (∀ j l n, noneAt env segs (map (λ n, [n]) l) j → n ∈ l →
            fs env !! absolute (take j segs ++ [n]) = None) as Hnone.
  { intros j l n Hall Hn. unfold noneAt in Hall. rewrite Forall_forall in Hall.
    apply (Hall [n]). apply list_elem_of_In.
    apply (in_map (λ n : string, [n])). by apply list_elem_of_In. }
  destruct (find env dir (absolute segs) names) as [file|].
  - destruct Hspec as [k [beforeR [ns [afterR [Hk [Hsplit [Hfile [Hdisk [Hbefore Hnear]]]]]]]]].
    apply map_eq_app in Hsplit as [before [rest [-> [<- Hrest]]]].
    apply map_eq_cons in Hrest as [name [after [-> [<- <-]]]].
    exists k, before, name, after. repeat split; try done.
    + intros n Hn. by apply (Hnone k before).
    + intros j n Hj Hn. apply (Hnone j (before ++ name :: after)%list); [|done].
      by apply Hnear.
  - intros j n Hj Hn. apply (Hnone j names); [|done]. by apply Hspec.
Qed.

Lemma manifest_last before after n :
  configFileNames = (before ++ "package.json" :: after)%list →
  n ∈ configFileNames → n ≠ "package.json" → n ∈ before.
Proof.
  intros Hsplit Hn Hne. rewrite Hsplit in Hn.
  apply elem_of_app in Hn as [Hn|Hn]; [done|].
  apply elem_of_cons in Hn as [->|Hn]; [done|]. exfalso.
  unfold configFileNames in Hsplit.
  do 6 (destruct before as [|? before]; [by simplify_eq/=; apply elem_of_nil in Hn|];
        simplify_eq/=).
  by destruct before.
Qed.

Lemma removelast_take {A} (l : list A) k :
  (k ≤ length l)%nat → removelast (take k l) = take (k - 1) l.
Proof.
  intros Hk. rewrite removelast_firstn_len, length_take, take_take.
  f_equal. lia.
Qed.

Lemma getConfigPath_answer_from env st segs :
  areNames segs →
  ∀ depth m outcome,
    (m ≤ length segs)%nat →
    (∀ j, (m < j ≤ length segs)%nat → noConfigAt env segs j) →
    getConfigPath env depth (absolute (take m segs)) st = Some outcome →
    configAnswer env segs outcome.
Proof.
  intros Hsegs. induction depth as [|depth IH]; [done|].
  intros m outcome Hm Habove.
  pose proof (find_names_spec env (cwd st) (take m segs) configFileNames
                (Forall_take _ _ _ Hsegs) configFileNames_names) as Hspec.
  rewrite length_take, Nat.min_l in Hspec by done.
  destruct (find env (cwd st) (absolute (take m segs)) configFileNames)
    as [file|] eqn:Hfind.
  - destruct Hspec as [k [before [name [after [Hk [Hsplit [Hfile [Hdisk [Hbefore Hnear]]]]]]]]].
    rewrite take_take, Nat.min_l in Hfile by done.
    assert (∀ n, n ∈ before → fs env !! absolute (take k segs ++ [n]) = None)
      as Hbefore'.
    { intros n Hn. specialize (Hbefore n Hn).
      by rewrite take_take, Nat.min_l in Hbefore by done. }
    assert (∀ j, (k < j ≤ length segs)%nat → noConfigAt env segs j) as Hskipped.
    { intros j Hj. destruct (decide (j ≤ m)%nat) as [Hjm|Hjm]; [|apply Habove; lia].
      intros n Hn [node Hnode]. specialize (Hnear j n ltac:(lia) Hn).
      rewrite take_take, Nat.min_l in Hnear by done. by rewrite Hnear in Hnode. }
    assert (isName name = true) as Hclean.
    { eapply (proj1 (Forall_forall _ _) configFileNames_names).
      rewrite Hsplit. apply elem_of_app. right. left. }
    destruct (decide (name = "package.json")) as [->|Hother].
    + rewrite (getConfigPath_manifest _ _ _ _ _ Hfind)
        by (rewrite Hfile; by apply basename_absolute).
      destruct (require env file) as [manifest|code] eqn:Hload.
      * destruct (eslintConfig manifest) eqn:Hconfig.
        { intros [= <-]. exists k, before, "package.json", after.
          split_and!; try done; try lia. intros _. by exists manifest. }
        rewrite Hfile, restart_directory by by apply Forall_take.
        rewrite removelast_take by lia.
        apply IH; [lia|]. intros j Hj.
        destruct (decide (j = k)) as [->|Hjk]; [|apply Hskipped; lia].
        intros n Hn Hpresent.
        destruct (decide (n = "package.json")) as [->|Hn'].
        { split; [done|]. exists manifest. by rewrite <- Hfile. }
        apply (manifest_last _ _ _ Hsplit Hn), Hbefore' in Hn'.
        destruct Hpresent as [node Hnode]. by rewrite Hn' in Hnode.
      * intros [= <-]. exists code. split; [done|]. exists k. rewrite <- Hfile.
        split_and!; try done; lia.
    + rewrite (getConfigPath_found _ _ _ _ _ Hfind)
        by (rewrite Hfile; by rewrite basename_absolute).
      intros [= <-]. exists k, before, name, after.
      split_and!; try done; lia.
  - rewrite (getConfigPath_none _ _ _ _ Hfind). intros [= <-] j Hj.
    destruct (decide (j ≤ m)%nat) as [Hjm|Hjm]; [|apply Habove; lia].
    intros n Hn [node Hnode]. specialize (Hspec j n Hjm Hn).
    rewrite take_take, Nat.min_l in Hspec by done. by rewrite Hspec in Hnode.
Qed.

(** Two ways of splitting a list at the first element that has a
    property split it at the same element. *)
Lemma first_present_unique {A} (P : A → Prop) (b1 b2 : list A) x1 x2 a1 a2 :
  (b1 ++ x1 :: a1 = b2 ++ x2 :: a2)%list →
  (∀ y, y ∈ b1 → ¬ P y) → P x1 →
  (∀ y, y ∈ b2 → ¬ P y) → P x2 →
  x1 = x2.
Proof.
  revert b2. induction b1 as [|y b1 IH]; intros [|z b2] Heq H1 Hx1 H2 Hx2;
    cbn [app] in Heq; injection Heq as Hhead Htail.
  - done.
  - subst z. destruct (H2 x1); [left|done].
  - subst y. destruct (H1 x2); [left|done].
  - apply (IH b2 Htail); try done.
    + intros y' Hy'. apply H1. by right.
    + intros y' Hy'. apply H2. by right.
Qed.

(** Going up from the ancestor [m], the search stops at the nearest
    usable configuration [file] in ancestor [k]. *)
Lemma getConfigPath_finds_from env st segs k before name after file :
  areNames segs →
  (k ≤ length segs)%nat →
  configFileNames = (before ++ name :: after)%list →
  file = absolute (take k segs ++ [name]) →
  is_Some (fs env !! file) →
  (∀ n, n ∈ before → fs env !! absolute (take k segs ++ [n]) = None) →
  (name = "package.json" →
   ∃ manifest, require env file = Loaded manifest ∧ eslintConfig manifest = true) →
  (∀ j, (k < j ≤ length segs)%nat → noConfigAt env segs j) →
  ∀ depth m, (k ≤ m ≤ length segs)%nat → (m - k < depth)%nat →
    getConfigPath env depth (absolute (take m segs)) st = Some (Returns (Some file)).
Proof.
  intros Hsegs Hk Hsplit Hfile Hdisk Hbefore Husable Hskipped.
  induction depth as [|depth IH]; [intros; lia|]. intros m Hm Hdepth.
  pose proof (find_names_spec env (cwd st) (take m segs) configFileNames
                (Forall_take _ _ _ Hsegs) configFileNames_names) as Hspec.
  rewrite length_take, Nat.min_l in Hspec by lia.
  assert (name ∈ configFileNames) as Hname.
  { rewrite Hsplit. apply elem_of_app. right. left. }
  destruct (find env (cwd st) (absolute (take m segs)) configFileNames)
    as [file'|] eqn:Hfind.
  - destruct Hspec as [k' [before' [name' [after' [Hk' [Hsplit' [Hfile' [Hdisk' [Hbefore' Hnear]]]]]]]]].
    rewrite take_take, Nat.min_l in Hfile' by done.
    assert (isName name' = true) as Hclean.
    { eapply (proj1 (Forall_forall _ _) configFileNames_names).
      rewrite Hsplit'. apply elem_of_app. right. left. }
    assert (k ≤ k')%nat as Hkk'.
    { destruct (decide (k ≤ k')%nat); [done|]. exfalso.
      specialize (Hnear k name ltac:(lia) Hname).
      rewrite take_take, Nat.min_l, <- Hfile in Hnear by lia.
      destruct Hdisk as [node Hnode]. by rewrite Hnear in Hnode. }
    destruct (decide (k' = k)) as [->|Hne].
    + assert (name' = name) as ->.
      { apply (first_present_unique
                 (λ n, is_Some (fs env !! absolute (take k segs ++ [n])))
                 before' before name' name after' after).
        - by rewrite <- Hsplit, <- Hsplit'.
        - intros n Hn [node Hnode]. specialize (Hbefore' n Hn).
          rewrite take_take, Nat.min_l in Hbefore' by done.
          by rewrite Hbefore' in Hnode.
        - by rewrite <- Hfile'.
        - intros n Hn [node Hnode]. by rewrite (Hbefore n Hn) in Hnode.
        - by rewrite <- Hfile. }
      rewrite <- Hfile in Hfile'. subst file'.
      destruct (decide (name = "package.json")) as [Hpkg|Hother].
      * rewrite (getConfigPath_manifest _ _ _ _ _ Hfind)
          by (rewrite Hfile, Hpkg; by apply basename_absolute).
        destruct (Husable Hpkg) as [manifest [-> ->]]. done.
      * apply (getConfigPath_found _ _ _ _ _ Hfind).
        rewrite Hfile. by rewrite basename_absolute.
    + destruct (Hskipped k' ltac:(lia) name') as [-> [manifest [Hload Hbare]]].
      { rewrite Hsplit'. apply elem_of_app. right. left. }
      { by rewrite <- Hfile'. }
      rewrite (getConfigPath_manifest _ _ _ _ _ Hfind)
        by (rewrite Hfile'; by apply basename_absolute).
      rewrite Hfile', Hload, Hbare, restart_directory by by apply Forall_take.
      rewrite removelast_take by lia. apply IH; lia.
  - exfalso. specialize (Hspec k name ltac:(lia) Hname).
    rewrite take_take, Nat.min_l, <- Hfile in Hspec by lia.
    destruct Hdisk as [node Hnode]. by rewrite Hspec in Hnode.
Qed.

(** Going up from the ancestor [m] through directories that hold at
    most a bare manifest, to a root that holds none, the search ends
    with nothing. *)
Lemma getConfigPath_null_from env st segs :
  areNames segs →
  (∀ j, (j ≤ length segs)%nat → noConfigAt env segs j) →
  fs env !! "/package.json" = None →
  ∀ depth m, (m ≤ length segs)%nat → (m < depth)%nat →
    getConfigPath env depth (absolute (take m segs)) st = Some (Returns None).
Proof.
  intros Hsegs Hskipped Hroot.
  induction depth as [|depth IH]; [intros; lia|]. intros m Hm Hdepth.
  pose proof (find_names_spec env (cwd st) (take m segs) configFileNames
                (Forall_take _ _ _ Hsegs) configFileNames_names) as Hspec.
  rewrite length_take, Nat.min_l in Hspec by lia.
  destruct (find env (cwd st) (absolute (take m segs)) configFileNames)
    as [file|] eqn:Hfind; [|by apply getConfigPath_none].
  destruct Hspec as [k [before [name [after [Hk [Hsplit [Hfile [Hdisk _]]]]]]]].
  rewrite take_take, Nat.min_l in Hfile by done.
  destruct (Hskipped k ltac:(lia) name) as [-> [manifest [Hload Hbare]]].
  { rewrite Hsplit. apply elem_of_app. right. left. }
  { by rewrite <- Hfile. }
  destruct k as [|k].
  { exfalso. rewrite take_0 in Hfile. subst file.
    destruct Hdisk as [node Hnode].
    change (absolute ([] ++ ["package.json"])) with "/package.json" in Hnode.
    by rewrite Hroot in Hnode. }
  rewrite (getConfigPath_manifest _ _ _ _ _ Hfind)
    by (rewrite Hfile; by apply basename_absolute).
  rewrite Hfile, Hload, Hbare, restart_directory by by apply Forall_take.
  rewrite removelast_take by lia. apply IH; lia.
Qed.

(** Going up from the ancestor [m] through directories that hold at
    most a bare manifest, to a root that holds a [package.json], the
    search is sent back to the root for ever. *)
Lemma getConfigPath_loops_from env st segs :
  areNames segs →
  (∀ j, (j ≤ length segs)%nat → noConfigAt env segs j) →
  is_Some (fs env !! "/package.json") →
  ∀ depth m, (m ≤ length segs)%nat →
    getConfigPath env depth (absolute (take m segs)) st = None.
Proof.
  intros Hsegs Hskipped Hroot.
  induction depth as [|depth IH]; [done|]. intros m Hm.
  pose proof (find_names_spec env (cwd st) (take m segs) configFileNames
                (Forall_take _ _ _ Hsegs) configFileNames_names) as Hspec.
  rewrite length_take, Nat.min_l in Hspec by lia.
  destruct (find env (cwd st) (absolute (take m segs)) configFileNames)
    as [file|] eqn:Hfind.
  - destruct Hspec as [k [before [name [after [Hk [Hsplit [Hfile [Hdisk _]]]]]]]].
    rewrite take_take, Nat.min_l in Hfile by done.
    destruct (Hskipped k ltac:(lia) name) as [-> [manifest [Hload Hbare]]].
    { rewrite Hsplit. apply elem_of_app. right. left. }
    { by rewrite <- Hfile. }
    rewrite (getConfigPath_manifest _ _ _ _ _ Hfind)
      by (rewrite Hfile; by apply basename_absolute).
    rewrite Hfile, Hload, Hbare, restart_directory by by apply Forall_take.
    rewrite removelast_take by lia. apply IH; lia.
  - exfalso. specialize (Hspec 0%nat "package.json" ltac:(lia)).
    rewrite take_take, take_0 in Hspec.
    change (absolute ([] ++ ["package.json"])) with "/package.json" in Hspec.
    destruct Hroot as [node Hnode]. rewrite Hspec in Hnode; [done|].
    unfold configFileNames. repeat constructor.
Qed.

(** X2.  A configuration file that [getConfigPath] returns for an
    absolute directory is the nearest usable one: it exists, in the
    directory or an ancestor, under the first candidate name present
    there, it has an [eslintConfig] section if it is a [package.json],
    and every directory between it and the start holds no candidate
    but, at most, a [package.json] without [eslintConfig]. *)
Theorem getConfigPath_returns_nearest_config env st segs depth file :
  areNames segs →
  getConfigPath env depth (absolute segs) st = Some (Returns (Some file)) →
  nearestConfig env segs file.
Proof.
  intros Hsegs Hrun.
  apply (getConfigPath_answer_from env st segs Hsegs depth (length segs)
           (Returns (Some file)) (Nat.le_refl _)).
  - intros j Hj. lia.
  - by rewrite firstn_all.
Qed.

(** The project [/a/b/c] of the configured machine: the call passes the
    bare [/a/b/package.json] and returns [/a/.eslintrc.json]. *)
Lemma getConfigPath_returns_nearest_config_witness :
  nearestConfig configuredEnv ["a"; "b"; "c"] "/a/.eslintrc.json".
Proof.
  apply (getConfigPath_returns_nearest_config configuredEnv
           (initialState configuredEnv "/") ["a"; "b"; "c"] 2).
  - by repeat constructor.
  - reflexivity.
Defined.

(** X3.  When an ancestor of an absolute directory (or the directory
    itself) holds a usable configuration (the first candidate name
    present there, with an [eslintConfig] section if it is a
    [package.json]) and the directories between hold at most a
    [package.json] without [eslintConfig], [getConfigPath] returns that
    file, whatever the working directory, at a nesting depth of at most
    one call per segment of the directory plus one. *)
Theorem getConfigPath_finds_nearest_config env st segs file depth :
  areNames segs →
  nearestConfig env segs file →
  (length segs < depth)%nat →
  getConfigPath env depth (absolute segs) st = Some (Returns (Some file)).
Proof.
  intros Hsegs [k [before [name [after [Hk [Hsplit [Hfile [Hdisk [Hbefore
                 [Husable Hskipped]]]]]]]]]] Hdepth.
  rewrite <- (firstn_all segs) at 1.
  apply (getConfigPath_finds_from env st segs k before name after file);
    try done; lia.
Qed.

(** The same project, searched from another working directory. *)
Lemma getConfigPath_finds_nearest_config_witness :
  getConfigPath configuredEnv 4 "/a/b/c" (initialState configuredEnv "/tmp")
  = Some (Returns (Some "/a/.eslintrc.json")).
Proof.
  apply (getConfigPath_finds_nearest_config configuredEnv
           (initialState configuredEnv "/tmp") ["a"; "b"; "c"]
           "/a/.eslintrc.json" 4).
  - by repeat constructor.
  - exists 1%nat, [".eslintrc.js"; ".eslintrc.yaml"; ".eslintrc.yml"],
      ".eslintrc.json", [".eslintrc"; "package.json"].
    split_and!; try done; try (cbn; lia).
    + intros n Hn.
      repeat (apply elem_of_cons in Hn as [->|Hn]); try reflexivity.
      by apply elem_of_nil in Hn.
    + intros [|[|[|[|j]]]] Hj; cbn in Hj; try lia; sample_noConfigAt.
  - cbn. lia.
Defined.

(** X4.  [getConfigPath] returns [null] for an absolute directory only
    when neither the directory nor any ancestor holds a candidate other
    than a [package.json] without [eslintConfig]. *)
Theorem getConfigPath_null_only_without_config env st segs depth :
  areNames segs →
  getConfigPath env depth (absolute segs) st = Some (Returns None) →
  ∀ j, (j ≤ length segs)%nat → noConfigAt env segs j.
Proof.
  intros Hsegs Hrun.
  apply (getConfigPath_answer_from env st segs Hsegs depth (length segs)
           (Returns None) (Nat.le_refl _)).
  - intros j Hj. lia.
  - by rewrite firstn_all.
Qed.

(** On the sample machine the call returns [null] for [/a/b/c], and
    [/a] holds nothing but a bare manifest. *)
Lemma getConfigPath_null_only_without_config_witness :
  noConfigAt sampleEnv ["a"; "b"; "c"] 1.
Proof.
  apply (getConfigPath_null_only_without_config sampleEnv
           (initialState sampleEnv "/") ["a"; "b"; "c"] 2).
  - by repeat constructor.
  - reflexivity.
  - cbn. lia.
Defined.

(** X5.  When an absolute directory and its ancestors hold no candidate
    but, at most, a [package.json] without [eslintConfig], and the root
    directory holds no [package.json], [getConfigPath] returns [null],
    at a nesting depth of at most one call per segment plus one. *)
Theorem getConfigPath_null_without_config env st segs depth :
  areNames segs →
  (∀ j, (j ≤ length segs)%nat → noConfigAt env segs j) →
  fs env !! "/package.json" = None →
  (length segs < depth)%nat →
  getConfigPath env depth (absolute segs) st = Some (Returns None).
Proof.
  intros Hsegs Hskipped Hroot Hdepth.
  rewrite <- (firstn_all segs) at 1.
  by apply (getConfigPath_null_from env st segs).
Qed.

(** The directory [/a/b] of the sample machine. *)
Lemma getConfigPath_null_without_config_witness :
  getConfigPath sampleEnv 3 "/a/b" (initialState sampleEnv "/tmp")
  = Some (Returns None).
Proof.
  apply (getConfigPath_null_without_config sampleEnv
           (initialState sampleEnv "/tmp") ["a"; "b"] 3).
  - by repeat constructor.
  - intros [|[|[|j]]] Hj; [| | |cbn in Hj; lia]; sample_noConfigAt.
  - reflexivity.
  - cbn. lia.
Defined.

(** X6.  The only exception [getConfigPath] lets through is the one
    raised by loading a [package.json] at which the search stopped: a
    file of that name in an ancestor, with only bare manifests between
    it and the start. *)
Theorem getConfigPath_throws_only_for_manifest env st segs depth e :
  areNames segs →
  getConfigPath env depth (absolute segs) st = Some (Throws e) →
  ∃ code, e = RequireError code ∧ brokenManifest env segs code.
Proof.
  intros Hsegs Hrun.
  apply (getConfigPath_answer_from env st segs Hsegs depth (length segs)
           (Throws e) (Nat.le_refl _)).
  - intros j Hj. lia.
  - by rewrite firstn_all.
Qed.

(** A [/a/package.json] that is not valid JSON. *)
Lemma getConfigPath_throws_only_for_manifest_witness :
  ∃ code, RequireError None = RequireError code
          ∧ brokenManifest brokenManifestEnv ["a"; "b"] code.
Proof.
  apply (getConfigPath_throws_only_for_manifest brokenManifestEnv
           (initialState brokenManifestEnv "/") ["a"; "b"] 1).
  - by repeat constructor.
  - reflexivity.
Defined.

(** X7.  With a [package.json] in the root directory, and nothing but
    bare manifests in an absolute directory and all its ancestors, the
    root included, [getConfigPath] returns at no nesting depth: the
    search is sent from the root back to the root. *)
Theorem getConfigPath_never_returns_below_bare_root env st segs depth :
  areNames segs →
  (∀ j, (j ≤ length segs)%nat → noConfigAt env segs j) →
  is_Some (fs env !! "/package.json") →
  getConfigPath env depth (absolute segs) st = None.
Proof.
  intros Hsegs Hskipped Hroot.
  rewrite <- (firstn_all segs) at 1.
  by apply (getConfigPath_loops_from env st segs).
Qed.

(** A bare [/package.json] above the project [/a/b]. *)
Lemma getConfigPath_never_returns_below_bare_root_witness :
  getConfigPath rootManifestEnv 1000 "/a/b" (initialState rootManifestEnv "/")
  = None.
Proof.
  apply (getConfigPath_never_returns_below_bare_root rootManifestEnv
           (initialState rootManifestEnv "/") ["a"; "b"] 1000).
  - by repeat constructor.
  - intros [|[|[|j]]] Hj; [| | |cbn in Hj; lia]; sample_noConfigAt.
  - by eexists.
Defined.

(** A project configured by [/a/.eslintrc.json]: the search from
    [/a/b/c] returns whatever the nesting depth allowed. *)
Lemma getConfigPath_returns_above_root_witness :
  ∃ answer,
    ∀ depth, (length ["a"; "b"; "c"] < depth)%nat →
      getConfigPath configuredEnv depth (absolute ["a"; "b"; "c"])
        (initialState configuredEnv "/")
      = Some answer.
Proof.
  apply (getConfigPath_returns_above_root configuredEnv
           (initialState configuredEnv "/") ["a"; "b"; "c"]).
  - by repeat constructor.
  - intros manifest Hfind. vm_compute in Hfind. discriminate Hfind.
Defined.

(** ** The directory a lint job runs in *)

(** The search for one relative path stops in the nearest ancestor that
    holds it. *)
Lemma find_rel_nearest env dir segs ns k :
  areNames segs → ns ≠ [] → areNames ns →
  (k ≤ length segs)%nat →
  is_Some (fs env !! absolute (take k segs ++ ns)) →
  (∀ j, (k < j ≤ length segs)%nat → fs env !! absolute (take j segs ++ ns) = None) →
  find env dir (absolute segs) [Path.joinSep ns] = Some (absolute (take k segs ++ ns)).
Proof.
  intros Hsegs Hne Hns Hk [node Hnode] Habove.
  assert (areRels [ns]) as Hrels by by repeat constructor.
  pose proof (find_rel_spec env dir segs [ns] Hsegs Hrels) as Hspec.
  cbn [map] in Hspec.
  destruct (find env dir (absolute segs) [Path.joinSep ns]) as [file|].
  - destruct Hspec as [k' [before [ns' [after [Hk' [Hsplit [-> [[node' Hnode'] [_ Hnear]]]]]]]]].
    destruct before as [|? before]; [|by destruct before].
    injection Hsplit as <- <-.
    destruct (decide (k' = k)) as [->|Hkk']; [done|]. exfalso.
    destruct (decide (k' < k)%nat).
    + specialize (Hnear k ltac:(lia)). apply Forall_inv in Hnear.
      by rewrite Hnear in Hnode.
    + by rewrite (Habove k' ltac:(lia)) in Hnode'.
  - exfalso. specialize (Hspec k Hk). apply Forall_inv in Hspec.
    by rewrite Hspec in Hnode.
Qed.

Lemma find_rel_absent env dir segs ns :
  areNames segs → ns ≠ [] → areNames ns →
  (∀ j, (j ≤ length segs)%nat → fs env !! absolute (take j segs ++ ns) = None) →
  find env dir (absolute segs) [Path.joinSep ns] = None.
Proof.
  intros Hsegs Hne Hns Habsent.
  assert (areRels [ns]) as Hrels by by repeat constructor.
  pose proof (find_rel_spec env dir segs [ns] Hsegs Hrels) as Hspec.
  cbn [map] in Hspec.
  destruct (find env dir (absolute segs) [Path.joinSep ns]) as [file|]; [|done].
  destruct Hspec as [k' [before [ns' [after [Hk' [Hsplit [-> [[node' Hnode'] _]]]]]]]].
  destruct before as [|? before]; [|by destruct before].
  injection Hsplit as <- <-. by rewrite (Habsent k' Hk') in Hnode'.
Qed.

(** What the search for one relative path returns lies in an ancestor. *)
Lemma find_rel_found env dir segs ns file :
  areNames segs → ns ≠ [] → areNames ns →
  find env dir (absolute segs) [Path.joinSep ns] = Some file →
  ∃ k, (k ≤ length segs)%nat ∧ file = absolute (take k segs ++ ns)
       ∧ is_Some (fs env !! file)
       ∧ ∀ j, (k < j ≤ length segs)%nat →
           fs env !! absolute (take j segs ++ ns) = None.
Proof.
  intros Hsegs Hne Hns Hfind.
  assert (areRels [ns]) as Hrels by by repeat constructor.
  pose proof (find_rel_spec env dir segs [ns] Hsegs Hrels) as Hspec.
  cbn [map] in Hspec. rewrite Hfind in Hspec.
  destruct Hspec as [k [before [ns' [after [Hk [Hsplit [-> [Hdisk [_ Hnear]]]]]]]]].
  destruct before as [|? before]; [|by destruct before].
  injection Hsplit as <- <-. exists k. split_and!; try done.
  intros j Hj. specialize (Hnear j Hj). by apply Forall_inv in Hnear.
Qed.

Lemma ignoreName : isName ".eslintignore" = true.
Proof. reflexivity. Qed.

(** X8.  With ignoring enabled and an [.eslintignore] in the ancestor
    [k] of the file's directory and in no directory between,
    [getRelativePath] moves the working directory to that ancestor and
    returns the path of the file below it, whatever the project path
    is. *)
Theorem getRelativePath_ignore_root env segs name k config projectPath st :
  areNames segs →
  isName name = true →
  disableEslintIgnore config = false →
  (k ≤ length segs)%nat →
  is_Some (fs env !! absolute (take k segs ++ [".eslintignore"])) →
  (∀ j, (k < j ≤ length segs)%nat →
        fs env !! absolute (take j segs ++ [".eslintignore"]) = None) →
  getRelativePath env (absolute segs) (absolute (segs ++ [name])) config
    projectPath st
  = (Returns (Path.joinSep (drop k segs ++ [name])),
     {| Cache := Cache st; cwd := absolute (take k segs); spawned := spawned st |}).
Proof.
  intros Hsegs Hname Henabled Hk Hdisk Habove.
  pose proof (find_rel_nearest env (cwd st) segs [".eslintignore"] k Hsegs
                ltac:(done) ltac:(by repeat constructor) Hk Hdisk Habove) as Hfind.
  cbn [Path.joinSep] in Hfind.
  pose proof (find_truthy env (cwd st) (absolute segs) [".eslintignore"]) as Htruthy.
  rewrite getRelativePath_run, Henabled. cbv zeta.
  rewrite Htruthy, Hfind, bool_decide_eq_true_2 by eauto.
  cbn [orb orEmpty].
  apply parent_directory in Hdisk.
  rewrite dirname_absolute in * by by (try apply Forall_take).
  rewrite chdir_absolute by by (try apply Forall_take). cbn [cwd].
  rewrite relative_absolute.
  2:{ by apply Forall_take. }
  2:{ apply Forall_app. split; [done|]. by apply Forall_singleton. }
  assert (Path.dropCommon (take k segs) (segs ++ [name])
          = ([], (drop k segs ++ [name])%list)) as ->; [|done].
  rewrite <- (take_drop k segs) at 2. by rewrite <- app_assoc, dropCommon_prefix.
Qed.

(** The ignore file of the sample machine is [/a/.eslintignore]; the
    project path [/a/b] plays no part. *)
Lemma getRelativePath_ignore_root_witness :
  getRelativePath sampleEnv "/a/b/c" "/a/b/c/index.js" defaultConfig (Some "/a/b")
    (initialState sampleEnv "/usr")
  = (Returns "b/c/index.js", initialState sampleEnv "/a").
Proof.
  apply (getRelativePath_ignore_root sampleEnv ["a"; "b"; "c"] "index.js" 1
           defaultConfig (Some "/a/b") (initialState sampleEnv "/usr")).
  - by repeat constructor.
  - reflexivity.
  - reflexivity.
  - cbn. lia.
  - by eexists.
  - intros [|[|[|[|j]]]] Hj; cbn in Hj; try lia; reflexivity.
Defined.

(** X9.  When no [.eslintignore] is used (ignoring is disabled, or the
    file's directory and its ancestors hold none) and there is no
    project path, [getRelativePath] moves the working directory to the
    file's directory, if that is a directory of the disk, and returns
    the bare file name; if it is not, the call throws the error of
    [process.chdir] and the working directory stays as it was. *)
Theorem getRelativePath_file_directory env segs name config projectPath st :
  areNames segs →
  isName name = true →
  disableEslintIgnore config = true
  ∨ (∀ j, (j ≤ length segs)%nat →
          fs env !! absolute (take j segs ++ [".eslintignore"]) = None) →
  truthy projectPath = false →
  (fs env !! absolute segs = Some Dir →
   getRelativePath env (absolute segs) (absolute (segs ++ [name])) config
     projectPath st
   = (Returns name,
      {| Cache := Cache st; cwd := absolute segs; spawned := spawned st |}))
  ∧ (fs env !! absolute segs ≠ Some Dir →
     ∃ code,
       getRelativePath env (absolute segs) (absolute (segs ++ [name])) config
         projectPath st
       = (Throws (ChdirError code), st)).
Proof.
  intros Hsegs Hname Hignore Hproject.
  rewrite getRelativePath_run. cbv zeta.
  assert ((if disableEslintIgnore config then None
           else find env (cwd st) (absolute segs) [".eslintignore"]) = None) as ->.
  { destruct Hignore as [->|Habsent]; [done|].
    destruct (disableEslintIgnore config); [done|].
    by apply (find_rel_absent env (cwd st) segs [".eslintignore"]);
      [| |repeat constructor|]. }
  change (truthy None) with false. rewrite Hproject. cbn [orb]. split.
  - intros Hdir. rewrite chdir_absolute by done. by rewrite basename_absolute.
  - intros Hdir. destruct (chdir_absolute_throws env segs st Hsegs Hdir) as [code ->].
    by exists code.
Qed.

(** Ignoring disabled and no project open. *)
Lemma getRelativePath_file_directory_witness :
  getRelativePath sampleEnv "/a/b/c" "/a/b/c/index.js" noIgnoreConfig None
    (initialState sampleEnv "/usr")
  = (Returns "index.js", initialState sampleEnv "/a/b/c").
Proof.
  apply (proj1 (getRelativePath_file_directory sampleEnv ["a"; "b"; "c"] "index.js"
                  noIgnoreConfig None (initialState sampleEnv "/usr")
                  ltac:(by repeat constructor) eq_refl ltac:(by left) eq_refl)).
  reflexivity.
Defined.

(** X10.  On a disk of directories and plain files, for a file in an
    absolute directory that exists and a project path that is absent or
    names an existing directory by its absolute path, [getRelativePath]
    returns, and the path it returns, resolved in the working directory
    the call leaves, is the path of the file: whichever of the three
    directories the call moves to. *)
Theorem getRelativePath_round_trip env segs name config projectPath st :
  areNames segs →
  isName name = true →
  fs env !! absolute segs = Some Dir →
  (∀ root, projectPath = Some root →
           ∃ psegs, areNames psegs ∧ root = absolute psegs
                    ∧ fs env !! root = Some Dir) →
  ∃ relativePath st',
    getRelativePath env (absolute segs) (absolute (segs ++ [name])) config
      projectPath st
    = (Returns relativePath, st')
    ∧ Path.resolve (cwd st') [relativePath] = absolute (segs ++ [name]).
Proof.
  intros Hsegs Hname Hdir Hproject.
  assert (areNames (segs ++ [name])) as Hfile.
  { apply Forall_app. split; [done|]. by apply Forall_singleton. }
  rewrite getRelativePath_run. cbv zeta.
  set (ignoreFile := if disableEslintIgnore config then None
                     else find env (cwd st) (absolute segs) [".eslintignore"]).
  assert (truthy ignoreFile = true →
          ∃ k, Path.dirname (orEmpty ignoreFile) = absolute (take k segs)
               ∧ fs env !! absolute (take k segs) = Some Dir)
    as Hignore.
  { unfold ignoreFile. destruct (disableEslintIgnore config); [done|].
    destruct (find env (cwd st) (absolute segs) [".eslintignore"]) as [file|]
      eqn:Hfind; [|done].
    intros _.
    destruct (find_rel_found env (cwd st) segs [".eslintignore"] file Hsegs
                ltac:(done) ltac:(by repeat constructor) Hfind)
      as [k [Hk [-> [Hdisk _]]]].
    exists k. cbn [orEmpty]. apply parent_directory in Hdisk.
    by rewrite dirname_absolute in * by by (try apply Forall_take). }
  destruct (truthy ignoreFile).
  - destruct (Hignore eq_refl) as [k [-> Hparent]]. cbn [orb].
    rewrite chdir_absolute by by (try apply Forall_take).
    do 2 eexists. split; [reflexivity|]. cbn [cwd].
    apply relative_round_trip; [by apply Forall_take | done].
  - cbn [orb]. destruct projectPath as [root|]; cbn [truthy orEmpty].
    + destruct (Hproject root eq_refl) as [psegs [Hpsegs [-> Hroot]]].
      change (negb (String.eqb (absolute psegs) "")) with true. cbv iota.
      rewrite chdir_absolute by done.
      do 2 eexists. split; [reflexivity|]. cbn [cwd].
      by apply relative_round_trip.
    + rewrite chdir_absolute by done.
      do 2 eexists. split; [reflexivity|]. cbn [cwd].
      rewrite basename_absolute by done.
      pose proof (resolve_relative segs [] [name] Hsegs ltac:(done)
                    ltac:(by repeat constructor)) as Hresolve.
      rewrite app_nil_r in Hresolve. exact Hresolve.
Qed.

(** A project path that is not above the file: the answer climbs out
    of it. *)
Lemma getRelativePath_round_trip_witness :
  ∃ relativePath st',
    getRelativePath sampleEnv "/a/b/c" "/a/b/c/index.js" noIgnoreConfig
      (Some "/usr/local") (initialState sampleEnv "/")
    = (Returns relativePath, st')
    ∧ Path.resolve (cwd st') [relativePath] = "/a/b/c/index.js".
Proof.
  apply (getRelativePath_round_trip sampleEnv ["a"; "b"; "c"] "index.js"
           noIgnoreConfig (Some "/usr/local") (initialState sampleEnv "/")).
  - by repeat constructor.
  - reflexivity.
  - reflexivity.
  - intros root [= <-]. exists ["usr"; "local"].
    split; [by repeat constructor|]. by split.
Defined.

(** ** Locations and exceptions of the ESLint package *)

Lemma getNodePrefixPath_throws env st e st' :
  getNodePrefixPath env st = (Throws e, st') → e = PrefixResolutionError.
Proof.
  destruct (NODE_PREFIX_PATH (Cache st)) as [cached|] eqn:Hcache.
  - by rewrite (getNodePrefixPath_cached _ _ _ Hcache).
  - rewrite (getNodePrefixPath_spawns _ _ Hcache).
    destruct (output _) as [out|]; [|by intros [= <- _]].
    destruct (out !! 1) as [[stdout|]|]; by intros [= <- _].
Qed.

Lemma globalPrefixPath_throws env config st e st' :
  globalPrefixPath env config st = (Throws e, st') → e = PrefixResolutionError.
Proof.
  unfold globalPrefixPath. destruct (String.eqb _ ""); [|done].
  apply getNodePrefixPath_throws.
Qed.

(** Outside global mode [findESLintDirectory] probes one directory and
    falls back on the bundled package. *)
Lemma findESLintDirectory_local_run env modulesDir config projectPath st :
  useGlobalEslint config = false →
  findESLintDirectory env modulesDir config projectPath st
  = (Returns
       (if isDirectoryIn env st (localESLintDir env modulesDir config projectPath)
        then {| path := localESLintDir env modulesDir config projectPath;
                type := if truthy (advancedLocalNodeModules config)
                        then advanced_specified else local_project |}
        else {| path := ESLINT_LOCAL_PATH (Cache st); type := bundled_fallback |}),
     st).
Proof.
  intros Hlocal. unfold findESLintDirectory, localESLintDir. rewrite Hlocal.
  destruct (truthy (advancedLocalNodeModules config)); cbn [negb];
    [destruct (Path.isAbsolute _)|]; run;
    match goal with
    | |- context [isDirectoryIn env st ?d] => by destruct (isDirectoryIn env st d)
    end.
Qed.

(** X11.  A location [findESLintDirectory] returns is either the bundled
    fallback, never in global mode and without a look at the disk, or
    a directory that exists, typed after the setting that led to it:
    [global] with [useGlobalEslint], else [advanced specified] with
    [advancedLocalNodeModules], else [local project]. *)
Theorem findESLintDirectory_returns_directory
    env modulesDir config projectPath st location st' :
  findESLintDirectory env modulesDir config projectPath st
  = (Returns location, st') →
  (type location = bundled_fallback
   ∧ path location = ESLINT_LOCAL_PATH (Cache st')
   ∧ useGlobalEslint config = false)
  ∨ (isDirectoryIn env st' (path location) = true
     ∧ type location
       = if useGlobalEslint config then global
         else if truthy (advancedLocalNodeModules config) then advanced_specified
         else local_project).
Proof.
  destruct (useGlobalEslint config) eqn:Hmode.
  - intros Hfound. right.
    by apply (findESLintDirectory_global_returns _ _ _ _ _ _ _ Hmode) in Hfound
      as [-> ->].
  - rewrite (findESLintDirectory_local_run _ _ _ _ _ Hmode).
    destruct (isDirectoryIn env st _) eqn:Hdir; intros [= <- <-]; [right|left]; done.
Qed.

(** The local ESLint of the sample machine. *)
Lemma findESLintDirectory_returns_directory_witness :
  isDirectoryIn sampleEnv (initialState sampleEnv "/") "/a/node_modules/eslint"
  = true.
Proof.
  destruct (findESLintDirectory_returns_directory sampleEnv (Some "/a/node_modules")
              defaultConfig (Some "/a") (initialState sampleEnv "/")
              {| path := "/a/node_modules/eslint"; type := local_project |}
              (initialState sampleEnv "/") eq_refl)
    as [[Htype _]|[Hdir _]]; [discriminate Htype | exact Hdir].
Defined.

(** The two ways in which [findESLintDirectory] fails. *)
Lemma findESLintDirectory_throws env modulesDir config projectPath st e st' :
  findESLintDirectory env modulesDir config projectPath st = (Throws e, st') →
  useGlobalEslint config = true
  ∧ (globalPrefixPath env config st = (Throws e, st')
     ∨ e = PackageNotFoundError ∧ ∃ prefix, globalPrefixPath env config st
                                             = (Returns prefix, st')).
Proof.
  destruct (useGlobalEslint config) eqn:Hmode.
  - destruct (globalPrefixPath env config st) as [[prefix|e'] st1] eqn:Hprefix.
    + rewrite (findESLintDirectory_global _ _ _ _ _ _ _ Hmode Hprefix). cbv zeta.
      repeat destruct (isDirectoryIn env st1 _); try done.
      intros [= <- <-]. split; [done|right]. eauto.
    + rewrite (findESLintDirectory_global_throws _ _ _ _ _ _ _ Hmode Hprefix).
      intros [= <- <-]. split; [done|by left].
  - by rewrite (findESLintDirectory_local_run _ _ _ _ _ Hmode).
Qed.

(** X12.  [findESLintDirectory] throws only in global mode, and then one
    of two errors: the prefix-resolution error of [getNodePrefixPath]
    or the package-not-found error. *)
Theorem findESLintDirectory_throws_only_global
    env modulesDir config projectPath st e st' :
  findESLintDirectory env modulesDir config projectPath st = (Throws e, st') →
  useGlobalEslint config = true
  ∧ (e = PrefixResolutionError ∨ e = PackageNotFoundError).
Proof.
  intros Hthrows.
  apply findESLintDirectory_throws in Hthrows as [Hmode [Hprefix|[-> _]]].
  - split; [done|left]. by apply globalPrefixPath_throws in Hprefix.
  - split; [done|by right].
Qed.

(** Global mode on a machine without npm. *)
Lemma findESLintDirectory_throws_only_global_witness :
  useGlobalEslint globalConfig = true
  ∧ (PrefixResolutionError = PrefixResolutionError
     ∨ PrefixResolutionError = PackageNotFoundError).
Proof.
  apply (findESLintDirectory_throws_only_global noNpmEnv None globalConfig None
           (initialState noNpmEnv "/") PrefixResolutionError
           {| Cache := initialCache noNpmEnv; cwd := "/"; spawned := 1 |}).
  reflexivity.
Defined.

(** X13.  What [findESLintDirectory] does not look at: in global mode
    neither the modules directory nor the project path; with
    [advancedLocalNodeModules] not the modules directory, and not the
    project path either when the setting is absolute; without it not
    the project path. *)
Theorem findESLintDirectory_unused_arguments
    env config st modulesDir modulesDir' projectPath projectPath' :
  (useGlobalEslint config = true →
   findESLintDirectory env modulesDir config projectPath st
   = findESLintDirectory env modulesDir' config projectPath' st)
  ∧ (useGlobalEslint config = false →
     truthy (advancedLocalNodeModules config) = true →
     findESLintDirectory env modulesDir config projectPath st
     = findESLintDirectory env modulesDir' config projectPath st)
  ∧ (useGlobalEslint config = false →
     truthy (advancedLocalNodeModules config) = true →
     Path.isAbsolute (cleanPath env (advancedLocalNodeModules config)) = true →
     findESLintDirectory env modulesDir config projectPath st
     = findESLintDirectory env modulesDir' config projectPath' st)
  ∧ (useGlobalEslint config = false →
     truthy (advancedLocalNodeModules config) = false →
     findESLintDirectory env modulesDir config projectPath st
     = findESLintDirectory env modulesDir config projectPath' st).
Proof.
  split_and!.
  - intros Hmode.
    destruct (globalPrefixPath env config st) as [[prefix|e] st1] eqn:Hprefix.
    + by rewrite !(findESLintDirectory_global _ _ _ _ _ _ _ Hmode Hprefix).
    + by rewrite !(findESLintDirectory_global_throws _ _ _ _ _ _ _ Hmode Hprefix).
  - intros Hmode Hadvanced.
    rewrite !(findESLintDirectory_local_run _ _ _ _ _ Hmode).
    unfold localESLintDir. by rewrite Hadvanced.
  - intros Hmode Hadvanced Habsolute.
    rewrite !(findESLintDirectory_local_run _ _ _ _ _ Hmode).
    unfold localESLintDir. by rewrite Hadvanced, Habsolute.
  - intros Hmode Hadvanced.
    rewrite !(findESLintDirectory_local_run _ _ _ _ _ Hmode).
    unfold localESLintDir. by rewrite Hadvanced.
Qed.

(** X14.  In global mode with a [globalNodePath] that is not empty after
    cleaning, [findESLintDirectory] does not ask npm: it starts no
    subprocess and leaves the state as it was, whether or not a prefix
    is memoized; it looks in [<path>/node_modules/eslint], then in
    [<path>/lib/node_modules/eslint], and throws the package-not-found
    error when neither is a directory. *)
Theorem findESLintDirectory_configured_prefix
    env modulesDir config projectPath st :
  useGlobalEslint config = true →
  cleanPath env (globalNodePath config) ≠ "" →
  let prefix := cleanPath env (globalNodePath config) in
  let npmDir := Path.join [prefix; "node_modules"; "eslint"] in
  let libDir := Path.join [prefix; "lib"; "node_modules"; "eslint"] in
  findESLintDirectory env modulesDir config projectPath st
  = (if isDirectoryIn env st npmDir then Returns {| path := npmDir; type := global |}
     else if isDirectoryIn env st libDir
          then Returns {| path := libDir; type := global |}
          else Throws PackageNotFoundError,
     st).
Proof.
  intros Hmode Hprefix prefix npmDir libDir.
  assert (globalPrefixPath env config st = (Returns prefix, st)) as Hrun.
  { unfold globalPrefixPath. apply String.eqb_neq in Hprefix. by rewrite Hprefix. }
  rewrite (findESLintDirectory_global _ _ _ _ _ _ _ Hmode Hrun). cbv zeta.
  fold prefix npmDir libDir.
  by repeat destruct (isDirectoryIn env st _).
Qed.

(** The prefix [/usr/local] given in the settings. *)
Lemma findESLintDirectory_configured_prefix_witness :
  findESLintDirectory brokenGlobalEnv None configuredGlobalConfig None
    (initialState brokenGlobalEnv "/")
  = (Returns {| path := "/usr/local/lib/node_modules/eslint"; type := global |},
     initialState brokenGlobalEnv "/").
Proof.
  apply (findESLintDirectory_configured_prefix brokenGlobalEnv None
           configuredGlobalConfig None (initialState brokenGlobalEnv "/")).
  - reflexivity.
  - discriminate.
Defined.

(** X15.  Outside global mode, on a machine whose bundled ESLint loads,
    [getESLintFromDirectory] never throws and leaves the state as it
    was: it returns the package in the directory it located if that
    loads, and the bundled package otherwise. *)
Theorem getESLintFromDirectory_local_never_throws
    env modulesDir config projectPath st bundled :
  useGlobalEslint config = false →
  require env (ESLINT_LOCAL_PATH (Cache st)) = Loaded bundled →
  ∃ location,
    findESLintDirectory env modulesDir config projectPath st = (Returns location, st)
    ∧ getESLintFromDirectory env modulesDir config projectPath st
      = (Returns (match require env (path location) with
                  | Loaded exports => exports
                  | LoadThrows _ => bundled
                  end), st).
Proof.
  intros Hmode Hbundled.
  destruct (findESLintDirectory_local env modulesDir config projectPath st Hmode)
    as [location [Hfound _]].
  exists location. split; [done|].
  rewrite (getESLintFromDirectory_located _ _ _ _ _ _ _ Hfound), Hmode.
  destruct (require env (path location)) as [exports|code]; [done|].
  cbn [andb]. unfold load. by rewrite Hbundled.
Qed.

(** A modules directory that does not exist. *)
Lemma getESLintFromDirectory_local_never_throws_witness :
  ∃ location,
    findESLintDirectory sampleEnv (Some "/nowhere") defaultConfig None
      (initialState sampleEnv "/")
    = (Returns location, initialState sampleEnv "/")
    ∧ getESLintFromDirectory sampleEnv (Some "/nowhere") defaultConfig None
        (initialState sampleEnv "/")
      = (Returns (match require sampleEnv (path location) with
                  | Loaded exports => exports
                  | LoadThrows _ => eslintModule bundledPath
                  end), initialState sampleEnv "/").
Proof.
  apply (getESLintFromDirectory_local_never_throws sampleEnv (Some "/nowhere")
           defaultConfig None (initialState sampleEnv "/")
           (eslintModule bundledPath)); reflexivity.
Defined.

(** X16.  The exceptions of [getESLintFromDirectory]: in global mode the
    two of [findESLintDirectory] and the restart error; in either mode
    the exception the loader raises for the bundled package, after the
    located package failed to load too. *)
Theorem getESLintFromDirectory_exceptions
    env modulesDir config projectPath st e st' :
  getESLintFromDirectory env modulesDir config projectPath st = (Throws e, st') →
  (useGlobalEslint config = true
   ∧ (e = PrefixResolutionError ∨ e = PackageNotFoundError
      ∨ e = PackageNotFoundRestartError))
  ∨ (∃ location code code',
       fst (findESLintDirectory env modulesDir config projectPath st)
       = Returns location
       ∧ require env (path location) = LoadThrows code
       ∧ require env (ESLINT_LOCAL_PATH (Cache st')) = LoadThrows code'
       ∧ e = RequireError code').
Proof.
  destruct (findESLintDirectory env modulesDir config projectPath st)
    as [[location|e'] st1] eqn:Hfound.
  - rewrite (getESLintFromDirectory_located _ _ _ _ _ _ _ Hfound).
    destruct (require env (path location)) as [exports|code] eqn:Hload; [done|].
    destruct (useGlobalEslint config) eqn:Hmode; cbn [andb].
    + case_bool_decide as Hcode.
      * intros [= <- _]. left. split; [done|]. by right; right.
      * unfold load.
        destruct (require env (ESLINT_LOCAL_PATH (Cache st1))) as [?|code']
          eqn:Hbundled; [done|].
        intros [= <- <-]. right. by exists location, code, code'.
    + unfold load.
      destruct (require env (ESLINT_LOCAL_PATH (Cache st1))) as [?|code']
        eqn:Hbundled; [done|].
      intros [= <- <-]. right. by exists location, code, code'.
  - unfold getESLintFromDirectory, bind. rewrite Hfound. intros [= <- _].
    apply findESLintDirectory_throws in Hfound as [Hmode [Hprefix|[-> _]]];
      left; (split; [done|]); [left | by right; left].
    by apply globalPrefixPath_throws in Hprefix.
Qed.

(** Global mode on the sample machine, where npm's prefix holds no
    ESLint. *)
Lemma getESLintFromDirectory_exceptions_witness :
  useGlobalEslint globalConfig = true.
Proof.
  destruct (getESLintFromDirectory_exceptions sampleEnv None globalConfig None
              (initialState sampleEnv "/") PackageNotFoundError
              (memoized (initialState sampleEnv "/") "/usr/local") eq_refl)
    as [[Hmode _]|[location [code [code' [_ [_ [_ Herror]]]]]]];
    [exact Hmode | discriminate Herror].
Defined.

(** X17.  When [getNodePrefixPath] throws, the error is the
    prefix-resolution error, exactly one subprocess was started, and
    nothing is memoized, so that the next call asks npm again; nothing
    else of the state has changed. *)
Theorem getNodePrefixPath_failure env st e st' :
  getNodePrefixPath env st = (Throws e, st') →
  e = PrefixResolutionError
  ∧ NODE_PREFIX_PATH (Cache st') = None
  ∧ spawned st' = S (spawned st)
  ∧ Cache st' = Cache st
  ∧ cwd st' = cwd st.
Proof.
  destruct (NODE_PREFIX_PATH (Cache st)) as [cached|] eqn:Hcache.
  - by rewrite (getNodePrefixPath_cached _ _ _ Hcache).
  - rewrite (getNodePrefixPath_spawns _ _ Hcache).
    destruct (output _) as [out|]; [|by intros [= <- <-]].
    destruct (out !! 1) as [[stdout|]|]; by intros [= <- <-].
Qed.

(** A machine without npm. *)
Lemma getNodePrefixPath_failure_witness :
  PrefixResolutionError = PrefixResolutionError
  ∧ NODE_PREFIX_PATH
      (Cache {| Cache := initialCache noNpmEnv; cwd := "/"; spawned := 1 |}) = None
  ∧ spawned {| Cache := initialCache noNpmEnv; cwd := "/"; spawned := 1 |}
    = S (spawned (initialState noNpmEnv "/"))
  ∧ Cache {| Cache := initialCache noNpmEnv; cwd := "/"; spawned := 1 |}
    = Cache (initialState noNpmEnv "/")
  ∧ cwd {| Cache := initialCache noNpmEnv; cwd := "/"; spawned := 1 |}
    = cwd (initialState noNpmEnv "/").
Proof.
  apply (getNodePrefixPath_failure noNpmEnv (initialState noNpmEnv "/")).
  reflexivity.
Defined.

(** ** The module loader and [getESLintInstance] *)

Lemma getNodePrefixPath_last env st :
  LAST_MODULES_PATH (Cache (snd (getNodePrefixPath env st)))
  = LAST_MODULES_PATH (Cache st).
Proof.
  destruct (NODE_PREFIX_PATH (Cache st)) as [cached|] eqn:Hcache.
  - by rewrite (getNodePrefixPath_cached _ _ _ Hcache).
  - rewrite (getNodePrefixPath_spawns _ _ Hcache).
    destruct (output _) as [out|]; [|done].
    by destruct (out !! 1) as [[stdout|]|].
Qed.

(** The helpers of [stateAfter] leave [Cache.LAST_MODULES_PATH] alone. *)
Lemma stateAfter_last env call st :
  LAST_MODULES_PATH (Cache (stateAfter env call st)) = LAST_MODULES_PATH (Cache st).
Proof.
  assert (∀ modulesDir config projectPath,
            LAST_MODULES_PATH
              (Cache (snd (findESLintDirectory env modulesDir config projectPath st)))
            = LAST_MODULES_PATH (Cache st)) as Hfind.
  { intros. rewrite findESLintDirectory_state.
    destruct (useGlobalEslint config); [|done]. unfold globalPrefixPath.
    destruct (String.eqb _ ""); [apply getNodePrefixPath_last|done]. }
  destruct call; cbn [stateAfter].
  - apply getNodePrefixPath_last.
  - apply Hfind.
  - rewrite getESLintFromDirectory_state. apply Hfind.
  - by destruct (getRelativePath_state env fileDir filePath config projectPath st)
      as [-> _].
  - by rewrite getCLIEngineOptions_run.
Qed.

Lemma refreshModulesPath_changed modulesDir p :
  LAST_MODULES_PATH (Cache (state p)) ≠ modulesDir →
  refreshModulesPath modulesDir p
  = initPaths (setNodePath (orEmpty modulesDir) (setLastModulesPath modulesDir p)).
Proof. intros Hne. unfold refreshModulesPath. by rewrite bool_decide_eq_true_2. Qed.

Lemma refreshModulesPath_same modulesDir p :
  LAST_MODULES_PATH (Cache (state p)) = modulesDir →
  refreshModulesPath modulesDir p = p.
Proof.
  intros Heq. unfold refreshModulesPath. rewrite bool_decide_eq_false_2; [done|].
  by intros [].
Qed.

Lemma refreshModulesPath_last modulesDir p :
  LAST_MODULES_PATH (Cache (state (refreshModulesPath modulesDir p))) = modulesDir.
Proof.
  destruct (decide (LAST_MODULES_PATH (Cache (state p)) = modulesDir)) as [Heq|Hne].
  - by rewrite refreshModulesPath_same.
  - by rewrite refreshModulesPath_changed.
Qed.

Lemma refreshModulesPath_inSync modulesDir p :
  inSync p → inSync (refreshModulesPath modulesDir p).
Proof.
  intros Hsync.
  destruct (decide (LAST_MODULES_PATH (Cache (state p)) = modulesDir)) as [Heq|Hne].
  - by rewrite refreshModulesPath_same.
  - rewrite refreshModulesPath_changed by done. split; [done|].
    cbn. by intros d ->.
Qed.

Lemma withState_inSync st p :
  LAST_MODULES_PATH (Cache st) = LAST_MODULES_PATH (Cache (state p)) →
  inSync p → inSync (withState st p).
Proof.
  intros Hlast [Hpaths Hnode]. split; [done|].
  intros d Hd. apply Hnode. by rewrite <- Hlast.
Qed.

Lemma inState_inSync {A} (m : M A) p :
  LAST_MODULES_PATH (Cache (snd (m (state p)))) = LAST_MODULES_PATH (Cache (state p)) →
  inSync p → inSync (snd (inState m p)).
Proof.
  intros Hlast Hsync. unfold inState.
  destruct (m (state p)) as [outcome st]. by apply withState_inSync.
Qed.

Lemma getESLintFromDirectory_last env modulesDir config projectPath st :
  LAST_MODULES_PATH
    (Cache (snd (getESLintFromDirectory env modulesDir config projectPath st)))
  = LAST_MODULES_PATH (Cache st).
Proof.
  apply (stateAfter_last env
           (CallGetESLintFromDirectory modulesDir config projectPath)).
Qed.

Lemma getESLintInstance_inSync env fileDir config projectPath p :
  inSync p → inSync (snd (getESLintInstance env fileDir config projectPath p)).
Proof.
  intros Hsync. unfold getESLintInstance, inState at 1, findCached. run.
  apply inState_inSync; [apply getESLintFromDirectory_last|].
  apply refreshModulesPath_inSync. by destruct p.
Qed.

Lemma processAfter_inSync env call p :
  inSync p → inSync (processAfter env call p).
Proof.
  intros Hsync. destruct call as [call|modulesDir|fileDir config projectPath];
    cbn [processAfter].
  - apply withState_inSync; [|done]. apply stateAfter_last.
  - by apply refreshModulesPath_inSync.
  - by apply getESLintInstance_inSync.
Qed.

(** X18.  [refreshModulesPath] is idempotent: after a call the remembered
    modules directory is the argument, and a second call with the same
    argument changes nothing, so the loader's paths are not recomputed
    while the directory stays the same. *)
Theorem refreshModulesPath_idempotent modulesDir p :
  LAST_MODULES_PATH (Cache (state (refreshModulesPath modulesDir p))) = modulesDir
  ∧ refreshModulesPath modulesDir (refreshModulesPath modulesDir p)
    = refreshModulesPath modulesDir p
  ∧ (initPathsCalls (refreshModulesPath modulesDir p) ≤ S (initPathsCalls p))%nat.
Proof.
  split; [apply refreshModulesPath_last|]. split.
  - apply refreshModulesPath_same, refreshModulesPath_last.
  - destruct (decide (LAST_MODULES_PATH (Cache (state p)) = modulesDir)) as [Heq|Hne].
    + rewrite refreshModulesPath_same by done. lia.
    + by rewrite refreshModulesPath_changed.
Qed.

(** X19.  Whatever helpers a process calls, in whatever order, the search
    paths of its loader stay those of [NODE_PATH], and [NODE_PATH]
    stays the modules directory [Cache.LAST_MODULES_PATH] remembers: no
    helper but [refreshModulesPath] touches any of the three, and it
    sets them together. *)
Theorem process_stays_in_sync env calls p :
  inSync p → inSync (processAfterAll env calls p).
Proof.
  revert p. induction calls as [|call calls IH]; intros p Hsync; [done|].
  apply (IH (processAfter env call p)). by apply processAfter_inSync.
Qed.

(** A process started without [NODE_PATH]. *)
Lemma process_stays_in_sync_witness :
  inSync (processAfterAll sampleEnv
            [CallGetESLintInstance "/a/b/c" defaultConfig (Some "/a");
             CallHelper (CallGetRelativePath "/a/b/c" "/a/b/c/index.js"
                           defaultConfig (Some "/a"));
             CallRefreshModulesPath None]
            (initialProcess sampleEnv "/" None)).
Proof.
  apply (process_stays_in_sync sampleEnv).
  split; [reflexivity|]. intros modulesDir Hlast. discriminate Hlast.
Defined.

Lemma state_refreshModulesPath modulesDir p :
  cwd (state (refreshModulesPath modulesDir p)) = cwd (state p)
  ∧ ESLINT_LOCAL_PATH (Cache (state (refreshModulesPath modulesDir p)))
    = ESLINT_LOCAL_PATH (Cache (state p))
  ∧ NODE_PREFIX_PATH (Cache (state (refreshModulesPath modulesDir p)))
    = NODE_PREFIX_PATH (Cache (state p))
  ∧ spawned (state (refreshModulesPath modulesDir p)) = spawned (state p).
Proof.
  unfold refreshModulesPath. by case_bool_decide.
Qed.

Lemma refreshModulesPath_node_path modulesDir p :
  inSync p →
  NODE_PATH (refreshModulesPath (Some modulesDir) p) = Some modulesDir
  ∧ modulePaths (refreshModulesPath (Some modulesDir) p) = Some modulesDir.
Proof.
  intros [Hpaths Hnode].
  destruct (decide (LAST_MODULES_PATH (Cache (state p)) = Some modulesDir))
    as [Heq|Hne].
  - rewrite refreshModulesPath_same by done. rewrite Hpaths. by split; apply Hnode.
  - by rewrite refreshModulesPath_changed.
Qed.

(** What [getESLintInstance] does: the modules directory is the parent
    of the nearest [node_modules/eslint]. *)
Lemma getESLintInstance_run env fileDir config projectPath p :
  getESLintInstance env fileDir config projectPath p
  = let modulesDir :=
      Path.dirname
        (orEmpty (find env (cwd (state p)) fileDir ["node_modules/eslint"])) in
    inState (getESLintFromDirectory env (Some modulesDir) config projectPath)
      (refreshModulesPath (Some modulesDir) p).
Proof.
  unfold getESLintInstance, inState at 1, findCached. run. by destruct p.
Qed.

(** X20.  Without [useGlobalEslint] and [advancedLocalNodeModules], for a
    file directory whose nearest [node_modules/eslint] is a directory
    that loads, [getESLintInstance] returns that package, and leaves
    [NODE_PATH], the loader's paths and [Cache.LAST_MODULES_PATH] at
    the [node_modules] directory holding it; the project path plays no
    part. *)
Theorem getESLintInstance_nearest_local
    env segs k config projectPath p exports :
  areNames segs →
  useGlobalEslint config = false →
  truthy (advancedLocalNodeModules config) = false →
  (k ≤ length segs)%nat →
  fs env !! absolute (take k segs ++ ["node_modules"; "eslint"]) = Some Dir →
  (∀ j, (k < j ≤ length segs)%nat →
        fs env !! absolute (take j segs ++ ["node_modules"; "eslint"]) = None) →
  require env (absolute (take k segs ++ ["node_modules"; "eslint"])) = Loaded exports →
  inSync p →
  ∃ p',
    getESLintInstance env (absolute segs) config projectPath p
    = (Returns exports, p')
    ∧ NODE_PATH p' = Some (absolute (take k segs ++ ["node_modules"]))
    ∧ modulePaths p' = Some (absolute (take k segs ++ ["node_modules"]))
    ∧ LAST_MODULES_PATH (Cache (state p'))
      = Some (absolute (take k segs ++ ["node_modules"]))
    ∧ cwd (state p') = cwd (state p).
Proof.
  intros Hsegs Hmode Hadvanced Hk Hdir Habove Hload Hsync.
  assert (areNames (take k segs ++ ["node_modules"])) as Hmodules.
  { apply Forall_app. split; [by apply Forall_take | by repeat constructor]. }
  assert ((take k segs ++ ["node_modules"; "eslint"])%list
          = ((take k segs ++ ["node_modules"]) ++ ["eslint"])%list) as Hsnoc
    by by rewrite <- app_assoc.
  pose proof (find_rel_nearest env (cwd (state p)) segs ["node_modules"; "eslint"] k
                Hsegs ltac:(done) ltac:(by repeat constructor) Hk
                ltac:(by rewrite Hdir) Habove) as Hfind.
  change (Path.joinSep ["node_modules"; "eslint"]) with "node_modules/eslint" in Hfind.
  rewrite getESLintInstance_run, Hfind. cbn [orEmpty]. cbv zeta.
  rewrite Hsnoc, dirname_absolute by done.
  set (modulesDir := absolute (take k segs ++ ["node_modules"])).
  set (p1 := refreshModulesPath (Some modulesDir) p).
  destruct (state_refreshModulesPath (Some modulesDir) p) as [Hcwd _].
  destruct (refreshModulesPath_node_path modulesDir p Hsync) as [Hnode Hpaths].
  pose proof (refreshModulesPath_last (Some modulesDir) p) as Hlast.
  fold p1 in Hcwd, Hnode, Hpaths, Hlast.
  assert (findESLintDirectory env (Some modulesDir) config projectPath (state p1)
          = (Returns {| path := absolute ((take k segs ++ ["node_modules"]) ++ ["eslint"]);
                        type := local_project |}, state p1)) as Hfound.
  { rewrite (findESLintDirectory_local_run _ _ _ _ _ Hmode).
    unfold localESLintDir. rewrite Hadvanced. cbn [negb orEmpty].
    unfold modulesDir. rewrite join_absolute by done.
    unfold isDirectoryIn. rewrite resolve_absolute.
    2:{ apply Forall_app. split; [done | by repeat constructor]. }
    by rewrite <- Hsnoc, Hdir. }
  unfold inState.
  rewrite (getESLintFromDirectory_located _ _ _ _ _ _ _ Hfound).
  cbn [path]. rewrite <- Hsnoc, Hload.
  eexists. split; [reflexivity|]. by cbn.
Qed.

(** The file [/a/b/c/index.js] of the sample machine is linted with
    the ESLint of [/a/node_modules]. *)
Lemma getESLintInstance_nearest_local_witness :
  ∃ p',
    getESLintInstance sampleEnv "/a/b/c" defaultConfig None
      (initialProcess sampleEnv "/" None)
    = (Returns (eslintModule "/a/node_modules/eslint"), p')
    ∧ NODE_PATH p' = Some "/a/node_modules"
    ∧ modulePaths p' = Some "/a/node_modules"
    ∧ LAST_MODULES_PATH (Cache (state p')) = Some "/a/node_modules"
    ∧ cwd (state p') = "/".
Proof.
  apply (getESLintInstance_nearest_local sampleEnv ["a"; "b"; "c"] 1 defaultConfig
           None (initialProcess sampleEnv "/" None)
           (eslintModule "/a/node_modules/eslint")).
  - by repeat constructor.
  - reflexivity.
  - reflexivity.
  - cbn. lia.
  - reflexivity.
  - intros [|[|[|[|j]]]] Hj; cbn in Hj; try lia; reflexivity.
  - reflexivity.
  - split; [reflexivity|]. intros modulesDir Hlast. discriminate Hlast.
Defined.

(** X21.  Without [useGlobalEslint] and [advancedLocalNodeModules], for a
    file directory that has no [node_modules/eslint] in itself or any
    ancestor, the modules directory is [.]: [getESLintInstance] sets
    [NODE_PATH] to [.] and looks for a directory [eslint] in the
    working directory; where there is none it returns the bundled
    package. *)
Theorem getESLintInstance_without_local
    env segs csegs config projectPath p bundled :
  areNames segs →
  areNames csegs →
  useGlobalEslint config = false →
  truthy (advancedLocalNodeModules config) = false →
  (∀ j, (j ≤ length segs)%nat →
        fs env !! absolute (take j segs ++ ["node_modules"; "eslint"]) = None) →
  cwd (state p) = absolute csegs →
  fs env !! absolute (csegs ++ ["eslint"]) ≠ Some Dir →
  require env (ESLINT_LOCAL_PATH (Cache (state p))) = Loaded bundled →
  inSync p →
  ∃ p',
    getESLintInstance env (absolute segs) config projectPath p
    = (Returns bundled, p')
    ∧ NODE_PATH p' = Some "."
    ∧ modulePaths p' = Some "."
    ∧ LAST_MODULES_PATH (Cache (state p')) = Some ".".
Proof.
  intros Hsegs Hcsegs Hmode Hadvanced Habsent Hcwd Hnodir Hbundled Hsync.
  pose proof (find_rel_absent env (cwd (state p)) segs ["node_modules"; "eslint"]
                Hsegs ltac:(done) ltac:(by repeat constructor) Habsent) as Hfind.
  change (Path.joinSep ["node_modules"; "eslint"]) with "node_modules/eslint" in Hfind.
  rewrite getESLintInstance_run, Hfind. cbn [orEmpty]. cbv zeta.
  change (Path.dirname "") with ".".
  set (p1 := refreshModulesPath (Some ".") p).
  destruct (state_refreshModulesPath (Some ".") p) as [Hcwd1 [Hlocal1 _]].
  destruct (refreshModulesPath_node_path "." p Hsync) as [Hnode Hpaths].
  pose proof (refreshModulesPath_last (Some ".") p) as Hlast.
  fold p1 in Hcwd1, Hlocal1, Hnode, Hpaths, Hlast.
  assert (findESLintDirectory env (Some ".") config projectPath (state p1)
          = (Returns {| path := ESLINT_LOCAL_PATH (Cache (state p1));
                        type := bundled_fallback |}, state p1)) as Hfound.
  { rewrite (findESLintDirectory_local_run _ _ _ _ _ Hmode).
    unfold localESLintDir. rewrite Hadvanced. cbn [negb orEmpty].
    change (Path.join ["."; "eslint"]) with "eslint".
    unfold isDirectoryIn. rewrite Hcwd1, Hcwd.
    pose proof (resolve_relative csegs [] ["eslint"] Hcsegs ltac:(done)
                  ltac:(by repeat constructor)) as Hresolve.
    rewrite app_nil_r in Hresolve. cbn [map app Path.joinSep] in Hresolve.
    rewrite Hresolve.
    by destruct (fs env !! absolute (csegs ++ ["eslint"])) as [[]|]. }
  unfold inState.
  rewrite (getESLintFromDirectory_located _ _ _ _ _ _ _ Hfound).
  cbn [path]. rewrite Hlocal1, Hbundled.
  eexists. split; [reflexivity|]. by cbn.
Qed.

(** A file in [/usr/local], which has no ESLint above it, linted by a
    process working in [/a]. *)
Lemma getESLintInstance_without_local_witness :
  ∃ p',
    getESLintInstance sampleEnv "/usr/local" defaultConfig None
      (initialProcess sampleEnv "/a" None)
    = (Returns (eslintModule bundledPath), p')
    ∧ NODE_PATH p' = Some "."
    ∧ modulePaths p' = Some "."
    ∧ LAST_MODULES_PATH (Cache (state p')) = Some ".".
Proof.
  apply (getESLintInstance_without_local sampleEnv ["usr"; "local"] ["a"]
           defaultConfig None (initialProcess sampleEnv "/a" None)
           (eslintModule bundledPath)).
  - by repeat constructor.
  - by repeat constructor.
  - reflexivity.
  - reflexivity.
  - intros [|[|[|j]]] Hj; cbn in Hj; try lia; reflexivity.
  - reflexivity.
  - discriminate.
  - reflexivity.
  - split; [reflexivity|]. intros modulesDir Hlast. discriminate Hlast.
Defined.

(** ** Rule directories and rule maps *)

Lemma omap_cons {A B} (f : A → option B) x l :
  omap f (x :: l)
  = match f x with Some y => y :: omap f l | None => omap f l end.
Proof. reflexivity. Qed.

Lemma isAbsolute_nonempty p : Path.isAbsolute p = true → p ≠ "".
Proof. by destruct p. Qed.

(** The entry a rule directory contributes to [rulePaths], if any. *)
Lemma rulesDirIn_kept env st fileDir d p :
  (if truthy (rulesDirIn env st fileDir d) then rulesDirIn env st fileDir d else None)
  = Some p
  ↔ (if Path.isAbsolute (cleanPath env (Some d)) then p = cleanPath env (Some d)
     else find env (cwd st) fileDir [cleanPath env (Some d)] = Some p).
Proof.
  unfold rulesDirIn. cbv zeta.
  destruct (Path.isAbsolute (cleanPath env (Some d))) eqn:Habsolute; cbn [negb].
  - rewrite truthy_nonempty by by apply isAbsolute_nonempty.
    split; [by intros [= <-] | by intros ->].
  - by rewrite find_if_truthy.
Qed.

(** The paths that survive the [filter] of [getCLIEngineOptions]. *)
Lemma rulePaths_member env st fileDir dirs p :
  p ∈ omap (λ p : option string, if truthy p then p else None)
        (map (rulesDirIn env st fileDir) dirs)
  ↔ ∃ d, d ∈ dirs
         ∧ if Path.isAbsolute (cleanPath env (Some d))
           then p = cleanPath env (Some d)
           else find env (cwd st) fileDir [cleanPath env (Some d)] = Some p.
Proof.
  rewrite list_elem_of_omap. split.
  - intros [found [Hfound Hkeep]]. apply list_elem_of_In, in_map_iff in Hfound
      as [d [<- Hd]]. exists d. split; [by apply list_elem_of_In|].
    by apply rulesDirIn_kept in Hkeep.
  - intros [d [Hd Hkeep]]. exists (rulesDirIn env st fileDir d). split.
    + apply list_elem_of_In, in_map. by apply list_elem_of_In.
    + by apply rulesDirIn_kept.
Qed.

(** X22.  The [rulePaths] of [getCLIEngineOptions]: a path is listed
    exactly when some configured rule directory contributes it, an
    absolute directory (after cleaning) contributing itself, whether it
    exists or not, and a relative one what the upward search from the
    file's directory finds for it; no entry is empty, there are at most
    as many entries as configured directories, and when all of these
    are absolute the list is the cleaned setting. *)
Theorem getCLIEngineOptions_rulePaths {Rules : Type} env type_ config
    (rules_ : Rules) filePath fileDir givenConfigPath st :
  ∃ options,
    fst (getCLIEngineOptions env type_ config rules_ filePath fileDir
           givenConfigPath st) = Returns options
    ∧ (∀ p, p ∈ rulePaths options
            ↔ ∃ d, d ∈ eslintRulesDirs config
                   ∧ if Path.isAbsolute (cleanPath env (Some d))
                     then p = cleanPath env (Some d)
                     else find env (cwd st) fileDir [cleanPath env (Some d)] = Some p)
    ∧ Forall (λ p, p ≠ "") (rulePaths options)
    ∧ (length (rulePaths options) ≤ length (eslintRulesDirs config))%nat
    ∧ (Forall (λ d, Path.isAbsolute (cleanPath env (Some d)) = true)
         (eslintRulesDirs config) →
       rulePaths options = map (λ d, cleanPath env (Some d)) (eslintRulesDirs config)).
Proof.
  rewrite getCLIEngineOptions_run. eexists. split; [reflexivity|].
  cbn [rulePaths]. generalize (eslintRulesDirs config) as dirs. intros dirs.
  set (keep := λ p : option string, if truthy p then p else None).
  split_and!.
  - intros p. apply rulePaths_member.
  - apply Forall_forall. intros p Hp. apply list_elem_of_omap in Hp as [found [_ Hp]].
    intros ->. unfold keep in Hp. by destruct found as [[|c s]|].
  - induction dirs as [|d dirs IH]; [done|]. cbn [map].
    rewrite omap_cons.
    destruct (keep (rulesDirIn env st fileDir d)); cbn [length] in *; lia.
  - induction 1 as [|d dirs Hd Hdirs IH]; [done|]. cbn [map].
    rewrite omap_cons.
    assert (keep (rulesDirIn env st fileDir d) = Some (cleanPath env (Some d))) as ->.
    { apply rulesDirIn_kept. by rewrite Hd. }
    by rewrite IH.
Qed.

(** X23.  A relative rule directory is searched for upward from the
    directory of the linted file, not from the project or the working
    directory: the nearest ancestor that holds it is listed in
    [rulePaths]. *)
Theorem getCLIEngineOptions_rulePaths_nearest {Rules : Type} env type_ config
    (rules_ : Rules) filePath segs givenConfigPath st d ns k :
  areNames segs →
  d ∈ eslintRulesDirs config →
  cleanPath env (Some d) = Path.joinSep ns →
  ns ≠ [] → areNames ns →
  (k ≤ length segs)%nat →
  is_Some (fs env !! absolute (take k segs ++ ns)) →
  (∀ j, (k < j ≤ length segs)%nat → fs env !! absolute (take j segs ++ ns) = None) →
  ∃ options,
    fst (getCLIEngineOptions env type_ config rules_ filePath (absolute segs)
           givenConfigPath st) = Returns options
    ∧ absolute (take k segs ++ ns) ∈ rulePaths options.
Proof.
  intros Hsegs Hd Hclean Hne Hns Hk Hdisk Habove.
  rewrite getCLIEngineOptions_run. eexists. split; [reflexivity|].
  cbn [rulePaths]. apply rulePaths_member. exists d. split; [done|].
  rewrite Hclean. destruct ns as [|h t]; [done|].
  rewrite isAbsolute_joinSep by by apply Forall_inv in Hns.
  by apply find_rel_nearest.
Qed.

(** The rule directory [node_modules/eslint], for a file in [/a/b/c]. *)
Lemma getCLIEngineOptions_rulePaths_nearest_witness :
  ∃ options,
    fst (getCLIEngineOptions sampleEnv "lint" rulesConfig () "/a/b/c/index.js"
           "/a/b/c" None (initialState sampleEnv "/usr")) = Returns options
    ∧ "/a/node_modules/eslint" ∈ rulePaths options.
Proof.
  apply (getCLIEngineOptions_rulePaths_nearest sampleEnv "lint" rulesConfig ()
           "/a/b/c/index.js" ["a"; "b"; "c"] None (initialState sampleEnv "/usr")
           "node_modules/eslint" ["node_modules"; "eslint"] 1).
  - by repeat constructor.
  - left.
  - reflexivity.
  - done.
  - by repeat constructor.
  - cbn. lia.
  - by eexists.
  - intros [|[|[|[|j]]]] Hj; cbn in Hj; try lia; reflexivity.
Defined.

(** X24.  Not having changed is an equivalence between rule maps:
    [didRulesChange] is [false] on a map against itself, gives the same
    answer with its arguments swapped, and is [false] from the first to
    the third of three maps when it is from the first to the second and
    from the second to the third; against the empty map every map with
    an entry has changed. *)
Theorem didRulesChange_unchanged_equivalence {V : Type} :
  (∀ m : JsMap V, didRulesChange m m = false)
  ∧ (∀ a b : JsMap V, didRulesChange a b = didRulesChange b a)
  ∧ (∀ a b c : JsMap V,
       didRulesChange a b = false → didRulesChange b c = false →
       didRulesChange a c = false)
  ∧ (∀ m : JsMap V, didRulesChange [] m = true ↔ m ≠ []).
Proof.
  assert (∀ a b : JsMap V, didRulesChange a b = false ↔ keySet b = keySet a)
    as Hunchanged.
  { intros a b. rewrite <- not_true_iff_false, didRulesChange_keySet.
    split; [|by intros -> ?]. intros Hnn.
    by destruct (decide (keySet b = keySet a)). }
  split_and!.
  - intros m. by apply Hunchanged.
  - intros a b. apply eq_true_iff_eq. rewrite !didRulesChange_keySet.
    split; intros Hne Heq; by apply Hne.
  - intros a b c Hab%Hunchanged Hbc%Hunchanged. apply Hunchanged. congruence.
  - intros m. rewrite didRulesChange_true. destruct m as [|[x v] m].
    + split; [|done]. intros [[x [Hx _]]|[x [Hx _]]]; by apply elem_of_nil in Hx.
    + split; [done|]. intros _. left. exists x. split; [left|apply not_elem_of_nil].
Qed.

(** ** Absolute directories and the working directory *)

(** An absolute argument makes [Path.resolve] forget the working
    directory. *)
Lemma resolve_absolute_argument dir dir' p :
  Path.isAbsolute p = true → Path.resolve dir [p] = Path.resolve dir' [p].
Proof.
  intros Habsolute. unfold Path.resolve. cbn [rev app Path.resolveLoop].
  destruct p as [|c p]; [done|].
  change (String.eqb (String c p) "") with false. cbv iota.
  by rewrite Habsolute.
Qed.

Lemma isAbsolute_normalize p :
  Path.isAbsolute p = true → Path.isAbsolute (Path.normalize p) = true.
Proof.
  intros Habsolute. unfold Path.normalize. destruct p as [|c p]; [done|].
  change (String.eqb (String c p) "") with false. cbv iota zeta.
  rewrite Habsolute.
  destruct (String.eqb (Path.normalizeString (String c p) (negb true)) "");
    [done|].
  by destruct (Path.endsWithSep (String c p)).
Qed.

(** Whatever is joined to an absolute directory, the result is
    absolute. *)
Lemma isAbsolute_join segs name :
  Path.isAbsolute (Path.join [absolute segs; name]) = true.
Proof.
  unfold Path.join. rewrite filter_cons_True by done.
  destruct (decide (name = "")) as [->|Hname].
  - rewrite filter_cons_False by (by intros []). rewrite filter_nil.
    by apply isAbsolute_normalize.
  - rewrite filter_cons_True by done. rewrite filter_nil.
    by apply isAbsolute_normalize.
Qed.

Lemma findIn_any_cwd env dir dir' segs names :
  findIn env dir (absolute segs) names = findIn env dir' (absolute segs) names.
Proof.
  induction names as [|name names IH]; [done|]. cbn [findIn]. unfold accessible.
  rewrite (resolve_absolute_argument dir dir') by apply isAbsolute_join.
  by rewrite IH.
Qed.

(** The upward search from an absolute directory does not depend on the
    working directory. *)
Lemma find_any_cwd env dir dir' segs names :
  areNames segs →
  find env dir (absolute segs) names = find env dir' (absolute segs) names.
Proof.
  intros Hsegs. unfold find.
  assert (∀ n, (n ≤ length (Path.split (absolute segs)))%nat →
            findFrom env dir (absolute segs) (Path.split (absolute segs)) names n
            = findFrom env dir' (absolute segs) (Path.split (absolute segs)) names n)
    as Hloop; [|by apply Hloop].
  induction n as [|n IH]; [done|]. intros Hn. cbn [findFrom].
  pose proof (currentDir_absolute dir segs n Hsegs) as Hdir.
  pose proof (currentDir_absolute dir' segs n Hsegs) as Hdir'.
  cbv zeta in Hdir, Hdir'. rewrite Hdir, Hdir' by lia.
  rewrite (findIn_any_cwd env dir dir'), IH by lia. done.
Qed.

(** X25.  For an absolute, normalised directory the answer of
    [getConfigPath] depends on the disk and the loader only: not on the
    working directory, and so not on whether [getRelativePath], which
    changes it, was called before, nor on [Cache]. *)
Theorem getConfigPath_ignores_state env st st' depth segs :
  areNames segs →
  getConfigPath env depth (absolute segs) st
  = getConfigPath env depth (absolute segs) st'.
Proof.
  revert segs. induction depth as [|depth IH]; intros segs Hsegs; [done|].
  pose proof (find_any_cwd env (cwd st) (cwd st') segs configFileNames Hsegs)
    as Hcwd.
  destruct (find env (cwd st) (absolute segs) configFileNames) as [file|] eqn:Hfind;
    symmetry in Hcwd.
  - destruct (find_absolute _ _ _ _ _ Hsegs configFileNames_names Hfind)
      as [k [name [Hk [Hname [Hfile _]]]]].
    assert (isName name = true) as Hclean
      by (by eapply (proj1 (Forall_forall _ _) configFileNames_names)).
    destruct (decide (name = "package.json")) as [->|Hother].
    + rewrite (getConfigPath_manifest _ _ _ _ _ Hfind),
        (getConfigPath_manifest _ _ _ _ _ Hcwd)
        by (rewrite Hfile; by apply basename_absolute).
      destruct (require env file) as [manifest|code]; [|done].
      destruct (eslintConfig manifest); [done|].
      rewrite Hfile, !restart_directory by by apply Forall_take.
      apply IH. by apply Forall_removelast, Forall_take.
    + rewrite (getConfigPath_found _ _ _ _ _ Hfind),
        (getConfigPath_found _ _ _ _ _ Hcwd); [done|..];
        rewrite Hfile; by rewrite basename_absolute.
  - by rewrite (getConfigPath_none _ _ _ _ Hfind), (getConfigPath_none _ _ _ _ Hcwd).
Qed.

(** Before and after [getRelativePath] has moved the process to [/a]. *)
Lemma getConfigPath_ignores_state_witness :
  getConfigPath sampleEnv 3 (absolute ["a"; "b"; "c"]) (initialState sampleEnv "/usr")
  = getConfigPath sampleEnv 3 (absolute ["a"; "b"; "c"])
      (snd (getRelativePath sampleEnv "/a/b/c" "/a/b/c/index.js" defaultConfig None
              (initialState sampleEnv "/usr"))).
Proof.
  apply (getConfigPath_ignores_state sampleEnv). by repeat constructor.
Defined.

(** X26.  For an absolute, normalised file directory the options
    [getCLIEngineOptions] builds depend on its arguments and the disk
    only: a call gives the same options in any state of the process,
    and so before and after [getRelativePath] has changed the working
    directory. *)
Theorem getCLIEngineOptions_ignores_state {Rules : Type} env type_ config
    (rules_ : Rules) filePath segs givenConfigPath st st' :
  areNames segs →
  fst (getCLIEngineOptions env type_ config rules_ filePath (absolute segs)
         givenConfigPath st)
  = fst (getCLIEngineOptions env type_ config rules_ filePath (absolute segs)
           givenConfigPath st').
Proof.
  intros Hsegs. rewrite !getCLIEngineOptions_run. cbn [fst].
  rewrite (find_any_cwd env (cwd st) (cwd st') segs [".eslintignore"] Hsegs).
  do 3 f_equal. apply map_ext. intros d. unfold rulesDirIn. cbv zeta.
  by rewrite (find_any_cwd env (cwd st) (cwd st') segs _ Hsegs).
Qed.

(** The same for the options of a lint job. *)
Lemma getCLIEngineOptions_ignores_state_witness :
  fst (getCLIEngineOptions sampleEnv "lint" rulesConfig () "/a/b/c/index.js"
         (absolute ["a"; "b"; "c"]) None (initialState sampleEnv "/usr"))
  = fst (getCLIEngineOptions sampleEnv "lint" rulesConfig () "/a/b/c/index.js"
           (absolute ["a"; "b"; "c"]) None
           (snd (getRelativePath sampleEnv "/a/b/c" "/a/b/c/index.js" rulesConfig
                   None (initialState sampleEnv "/usr")))).
Proof.
  apply (getCLIEngineOptions_ignores_state sampleEnv). by repeat constructor.
Defined.
